(** * padertorch.contrib.cb.track: a shallow embedding

    The hook based tracker framework of [padertorch/contrib/cb/track.py]:
    the session [track] with its closures [register_hook], [pre_hook], [hook]
    and [apply_filtered], the combinator [tracker_list], the example trackers
    [ShapeTracker] and [ParameterTracker], and the helper [_IDBasedWeakSet].

    Python objects that are mutated through several references live in an
    explicit store; code that can raise returns a sum whose left side is the
    exception. *)

From stdpp Require Import gmap strings list fin_maps.
From Stdlib Require Import ZArith Lia.

Set Default Proof Using "Type".
Set Warnings "-register-all,-clear-no-such-hyp".

(** ** Exceptions *)

Inductive exn : Type :=
  | IndexError                 (* [list.pop] on an empty list, index out of range *)
  | ValueError                 (* [_IDBasedWeakSet.add(None)] *)
  | TypeError                  (* [weakref.ref] of an object without weak reference support *)
  | UserError (tag : nat)      (* anything raised by user code: trackers, forward *)
  | DanglingRef.               (* a store reference without object; not reached, see [hook_inv] *)

#[global] Instance exn_eq_dec : EqDecision exn.
Proof. solve_decision. Defined.

(** ** torch.nn.Module, as far as the tracker looks at it

    A module has a class, its own parameters ([_parameters]) and an ordered
    list of children.  A parameter is an object with an identity and a number
    of elements. *)

Record nn_Parameter : Type := MkParameter { p_id : nat; numel : nat }.

Inductive nn_Module : Type :=
  | Mod (cls : string) (own : list nn_Parameter) (subs : list nn_Module).

Definition class_name (m : nn_Module) : string :=
  match m with Mod c _ _ => c end.

Definition _parameters (m : nn_Module) : list nn_Parameter :=
  match m with Mod _ ps _ => ps end.

Definition children (m : nn_Module) : list nn_Module :=
  match m with Mod _ _ ch => ch end.

(** [Module.modules()]: the module itself, then its descendants, depth first. *)
Fixpoint modules (m : nn_Module) : list nn_Module :=
  match m with
  | Mod _ _ ch => m :: concat (map modules ch)
  end.

(** The [memo] set of [Module._named_members]: a member already seen (by
    identity) is skipped. *)
Fixpoint memo_filter (memo : gset nat) (ps : list nn_Parameter) : list nn_Parameter :=
  match ps with
  | [] => []
  | p :: ps' =>
      if decide (p_id p ∈ memo) then memo_filter memo ps'
      else p :: memo_filter ({[ p_id p ]} ∪ memo) ps'
  end.

(** [Module.parameters(recurse)]: with [recurse] the parameters of the module
    and of all its descendants, without it only the module's own ones. *)
Definition parameters (recurse : bool) (m : nn_Module) : list nn_Parameter :=
  memo_filter ∅ (flat_map _parameters (if recurse then modules m else [m])).

(** The network of the doctests:
    [Sequential(Linear(3, 1000), ReLU(), Sequential(Linear(1000, 2), ReLU()))].
    The first two arguments of [Linear] are the identities of its weight and
    bias. *)
Definition Linear (wid bid n_in n_out : nat) : nn_Module :=
  Mod "Linear" [MkParameter wid (n_out * n_in); MkParameter bid n_out] [].
Definition ReLU : nn_Module := Mod "ReLU" [] [].
Definition Sequential (ch : list nn_Module) : nn_Module := Mod "Sequential" [] ch.

Definition doctest_net : nn_Module :=
  Sequential [Linear 0 1 3 1000; ReLU; Sequential [Linear 2 3 1000 2; ReLU]].

(** ** Python values

    [PyObj] is what a module receives and returns: nested tuples, lists and
    dicts (in insertion order) over tensors and other objects.  Of a tensor
    only its shape matters here.  [PyVal] is what [get_shape] builds: [None],
    ints, lists, tuples and dicts. *)

Inductive PyObj : Type :=
  | PTuple (es : list PyObj)
  | PList (es : list PyObj)
  | PDict (items : list (string * PyObj))
  | PTensor (shape : list nat)          (* an object with a [shape] attribute *)
  | PObject (tag : nat).                (* any other object: no [shape] attribute *)

Inductive PyVal : Type :=
  | VNone
  | VInt (n : nat)
  | VList (vs : list PyVal)
  | VTuple (vs : list PyVal)
  | VDict (items : list (string * PyVal)).

(** Truth value of a Python value, as [filter(None, ...)] tests it. *)
Definition truthy (v : PyVal) : bool :=
  match v with
  | VNone => false
  | VInt n => negb (n =? 0)
  | VList vs | VTuple vs => negb (bool_decide (length vs = 0))
  | VDict items => negb (bool_decide (length items = 0))
  end.

Definition is_not_None (v : PyVal) : bool :=
  match v with VNone => false | _ => true end.

(** ** The base class [Tracker]

    A tracker class gives the constructor and the two methods.  Each of them
    may update the shared dict it was handed and may raise; a method returns
    the updated [self]. *)

Class Tracker (T SD : Type) : Type := {
  tracker_factory : nat → nat → bool → SD → SD * (exn + T);
  tracker_pre : T → nn_Module → PyObj → SD → SD * (exn + T);
  tracker_post : T → nn_Module → PyObj → PyObj → SD → SD * (exn + T);
}.

(** ** ShapeTracker *)

Module ShapeTracker.

Record t : Type := Mk {
  count : nat;
  depth : nat;
  leaf : bool;
  module_name : option string;
  input_shape : option PyVal;
  output_shape : option PyVal;
}.

Definition __init__ (count depth : nat) (leaf : bool) : t :=
  Mk count depth leaf None None None.

Fixpoint get_shape (obj : PyObj) : PyVal :=
  match obj with
  | PTuple es => VTuple (List.filter truthy (map get_shape es))
  | PList es => VList (List.filter truthy (map get_shape es))
  | PDict items =>
      VDict (omap (λ kv, let shape := get_shape kv.2 in
                         if is_not_None shape then Some (kv.1, shape) else None)
                  items)
  | PTensor shape => VList (map VInt shape)
  | PObject _ => VNone
  end.

Definition pre (self : t) (module : nn_Module) (input : PyObj) : t :=
  Mk (count self) (depth self) (leaf self) (Some (class_name module))
     (Some (get_shape input)) (output_shape self).

Definition post (self : t) (module : nn_Module) (input output : PyObj) : t :=
  Mk (count self) (depth self) (leaf self) (module_name self)
     (input_shape self) (Some (get_shape output)).

End ShapeTracker.

#[global] Instance ShapeTracker_Tracker {SD : Type} : Tracker ShapeTracker.t SD := {
  tracker_factory count depth leaf sd := (sd, inr (ShapeTracker.__init__ count depth leaf));
  tracker_pre self module input sd := (sd, inr (ShapeTracker.pre self module input));
  tracker_post self module input output sd :=
    (sd, inr (ShapeTracker.post self module input output));
}.

(** ** ParameterTracker *)

Module ParameterTracker.

Record t : Type := Mk {
  count : nat;
  depth : nat;
  leaf : bool;
  module_name : option string;
  num_params : option nat;
}.

Definition __init__ (count depth : nat) (leaf : bool) : t :=
  Mk count depth leaf None None.

Definition pre (self : t) (module : nn_Module) (input : PyObj) : t :=
  Mk (count self) (depth self) (leaf self) (Some (class_name module)) (num_params self).

Definition post (self : t) (module : nn_Module) (input output : PyObj) : t :=
  Mk (count self) (depth self) (leaf self) (module_name self)
     (Some (sum_list (map numel (parameters (leaf self) module)))).

End ParameterTracker.

#[global] Instance ParameterTracker_Tracker {SD : Type} : Tracker ParameterTracker.t SD := {
  tracker_factory count depth leaf sd := (sd, inr (ParameterTracker.__init__ count depth leaf));
  tracker_pre self module input sd := (sd, inr (ParameterTracker.pre self module input));
  tracker_post self module input output sd :=
    (sd, inr (ParameterTracker.post self module input output));
}.

(** Reference quantities for the parameter count: the elements of a module's
    own parameters, and of all parameters in its subtree. *)
Definition own_numel (m : nn_Module) : nat :=
  sum_list (map numel (_parameters m)).

Fixpoint total_numel (m : nn_Module) : nat :=
  match m with
  | Mod _ ps ch => sum_list (map numel ps) + sum_list (map total_numel ch)
  end.

(** Identities of all parameters in the subtree, in the order of
    [Module.parameters(recurse=True)]. *)
Definition parameter_ids (m : nn_Module) : list nat :=
  map p_id (flat_map _parameters (modules m)).

(** ** _IDBasedWeakSet

    Python objects as the set sees them: [id(o)] is the address of [o], unique
    among the objects alive at the same time, and reused after an object is
    reclaimed; [serial] tells apart the objects that lived at one address.
    The heap maps an address to the object living there. *)

Record PyObject : Type := MkObject {
  py_id : nat;
  serial : nat;
  weakrefable : bool;
}.

#[global] Instance PyObject_eq_dec : EqDecision PyObject.
Proof. solve_decision. Defined.

Definition alive (heap : gmap nat PyObject) (o : PyObject) : bool :=
  bool_decide (heap !! py_id o = Some o).

(** [weakref.ref(o)], and calling it: the referent while it is alive, [None]
    afterwards. *)
Inductive weakref : Type := WeakRef (referent : PyObject).

Definition weakref_call (heap : gmap nat PyObject) (r : weakref) : option PyObject :=
  match r with
  | WeakRef o => if alive heap o then Some o else None
  end.

Module _IDBasedWeakSet.

Record t : Type := Mk { data : gmap nat weakref }.

(** [add]; the item is [None] or an object. *)
Definition add (self : t) (item : option PyObject) : exn + t :=
  match item with
  | None => inl ValueError
  | Some o =>
      if weakrefable o then inr (Mk (<[py_id o := WeakRef o]> (data self)))
      else inl TypeError
  end.

Fixpoint add_all (self : t) (items : list (option PyObject)) : exn + t :=
  match items with
  | [] => inr self
  | i :: items' =>
      match add self i with
      | inl e => inl e
      | inr self' => add_all self' items'
      end
  end.

Definition __init__ (items : list (option PyObject)) : exn + t :=
  add_all (Mk ∅) items.

Definition __contains__ (heap : gmap nat PyObject) (self : t) (item : PyObject) : bool :=
  match data self !! py_id item with
  | Some r =>
      match weakref_call heap r with
      | None => false                       (* object was deleted *)
      | Some ref => bool_decide (ref = item)
      end
  | None => false
  end.

End _IDBasedWeakSet.

(** The life of a set next to the heap: objects are allocated (at a free
    address, with a fresh serial), reclaimed, and added to the set by a caller
    that holds them.  Nothing else touches the set: it has no removal. *)
Inductive heap_op : Type :=
  | Alloc (o : PyObject)
  | Reclaim (o : PyObject)
  | Add (o : PyObject).

Record heap_state : Type := MkHeapState {
  heap : gmap nat PyObject;
  next_serial : nat;
  wset : _IDBasedWeakSet.t;
}.

Definition heap_init : heap_state :=
  MkHeapState ∅ 0 (_IDBasedWeakSet.Mk ∅).

Definition heap_step (st : heap_state) (op : heap_op) : option heap_state :=
  match op with
  | Alloc o =>
      if bool_decide (heap st !! py_id o = None ∧ serial o = next_serial st)
      then Some (MkHeapState (<[py_id o := o]> (heap st)) (S (next_serial st)) (wset st))
      else None
  | Reclaim o =>
      if alive (heap st) o
      then Some (MkHeapState (delete (py_id o) (heap st)) (next_serial st) (wset st))
      else None
  | Add o =>
      if alive (heap st) o
      then match _IDBasedWeakSet.add (wset st) (Some o) with
           | inr s' => Some (MkHeapState (heap st) (next_serial st) s')
           | inl _ => None
           end
      else None
  end.

Fixpoint heap_run (st : heap_state) (ops : list heap_op) : option heap_state :=
  match ops with
  | [] => Some st
  | op :: ops' =>
      match heap_step st op with
      | Some st' => heap_run st' ops'
      | None => None
      end
  end.

(** The effect of one step of a history on the membership of [x]. *)
Definition membership_step (x : PyObject) (b : bool) (op : heap_op) : bool :=
  match op with
  | Alloc _ => b
  | Reclaim o => if bool_decide (o = x) then false else b
  | Add o => if bool_decide (o = x) then true else b
  end.

(** What membership should be after a history: [x] was added, and not
    reclaimed since its last [add]. *)
Definition added_and_alive (ops : list heap_op) (x : PyObject) : bool :=
  foldl (membership_step x) false ops.

(** Serials of objects on the heap and of referents in the set are used up. *)
Definition serials_used (st : heap_state) : Prop :=
  (∀ o, alive (heap st) o = true → serial o < next_serial st)
  ∧ (∀ k r, _IDBasedWeakSet.data (wset st) !! k = Some (WeakRef r) →
            serial r < next_serial st).

(** ** Code that has state and can raise *)

Definition M (S A : Type) : Type := S → S * (exn + A).

Definition ret {S A : Type} (a : A) : M S A := λ s, (s, inr a).

Definition raise {S A : Type} (e : exn) : M S A := λ s, (s, inl e).

Definition bind {S A B : Type} (m : M S A) (k : A → M S B) : M S B :=
  λ s, match m s with
       | (s', inl e) => (s', inl e)
       | (s', inr a) => k a s'
       end.

Notation "x <- m ;; k" := (bind m (λ x, k))
  (at level 100, m at next level, right associativity, only parsing).

(** [for x in xs: f(x)] *)
Fixpoint for_each {S X : Type} (f : X → M S unit) (xs : list X) : M S unit :=
  match xs with
  | [] => ret ()
  | x :: xs' => _ <- f x ;; for_each f xs'
  end.

(** [list.pop()]: the last element, [None] on an empty list. *)
Definition pop {A : Type} (l : list A) : option (list A * A) :=
  match reverse l with
  | [] => None
  | x :: r => Some (reverse r, x)
  end.

(** ** Forward hooks of torch.nn.Module

    A module is named by its path from the root: the child indices on the way
    down.  Each module owns the two ordered dicts [_forward_pre_hooks] and
    [_forward_hooks], keyed by the id of the handle; the ids come from one
    global counter.  The registry holds the entries of all modules in the
    order they were registered.  The session registers its closures
    [pre_hook], which has captured [leaf], and [hook]. *)

Record pre_entry : Type := MkPre { pre_handle : nat; pre_module : list nat; pre_leaf : bool }.
Record post_entry : Type := MkPost { post_handle : nat; post_module : list nat }.

Record Registry : Type := MkRegistry {
  _forward_pre_hooks : list pre_entry;
  _forward_hooks : list post_entry;
  next_id : nat;
}.

Inductive RemovableHandle : Type :=
  | PreHandle (id : nat)
  | PostHandle (id : nat).

#[global] Instance RemovableHandle_eq_dec : EqDecision RemovableHandle.
Proof. solve_decision. Defined.

Definition register_forward_pre_hook (module : list nat) (leaf : bool) (reg : Registry)
  : Registry * RemovableHandle :=
  (MkRegistry (_forward_pre_hooks reg ++ [MkPre (next_id reg) module leaf])
              (_forward_hooks reg) (S (next_id reg)),
   PreHandle (next_id reg)).

Definition register_forward_hook (module : list nat) (reg : Registry)
  : Registry * RemovableHandle :=
  (MkRegistry (_forward_pre_hooks reg)
              (_forward_hooks reg ++ [MkPost (next_id reg) module]) (S (next_id reg)),
   PostHandle (next_id reg)).

(** [RemovableHandle.remove]: deletes the id from its dict when it is there. *)
Definition remove (h : RemovableHandle) (reg : Registry) : Registry :=
  match h with
  | PreHandle id =>
      MkRegistry (List.filter (λ e, negb (pre_handle e =? id)) (_forward_pre_hooks reg))
                 (_forward_hooks reg) (next_id reg)
  | PostHandle id =>
      MkRegistry (_forward_pre_hooks reg)
                 (List.filter (λ e, negb (post_handle e =? id)) (_forward_hooks reg))
                 (next_id reg)
  end.

Definition empty_registry : Registry := MkRegistry [] [] 0.

(** The hooks of one module, in the order of its dicts. *)
Definition pre_hooks_at (reg : Registry) (node : list nat) : list pre_entry :=
  List.filter (λ e, bool_decide (pre_module e = node)) (_forward_pre_hooks reg).

Definition post_hooks_at (reg : Registry) (node : list nat) : list post_entry :=
  List.filter (λ e, bool_decide (post_module e = node)) (_forward_hooks reg).

(** ** track: registering the hooks *)

(** [register_hook], on the registry and the session's list [hooks]. *)
Definition register_hook (module : list nat) (leaf : bool)
    (st : Registry * list RemovableHandle) : Registry * list RemovableHandle :=
  let '(reg1, h1) := register_forward_pre_hook module leaf st.1 in
  let hooks1 := st.2 ++ [h1] in
  let '(reg2, h2) := register_forward_hook module reg1 in
  (reg2, hooks1 ++ [h2]).

(** [apply_filtered]: [fn] is applied to the children first, then to [self];
    a child whose class is in [leaf_types] gets [fn(module, leaf=True)] and is
    not descended into.  [node] is the path of [self]; the inner [loop] is
    the [for] over [self.children()], [i] the index of the next child. *)
Fixpoint apply_filtered {St : Type} (leaf_types : list string) (self : nn_Module)
    (node : list nat) (fn : list nat → bool → St → St) (st : St) : St :=
  match self with
  | Mod _ _ ch =>
      let fix loop (ms : list nn_Module) (i : nat) (is_leaf : bool) (st : St) : bool * St :=
        match ms with
        | [] => (is_leaf, st)
        | module :: ms' =>
            loop ms' (S i) false
              (if bool_decide (class_name module ∈ leaf_types)
               then fn (node ++ [i]) true st
               else apply_filtered leaf_types module (node ++ [i]) fn st)
        end in
      let '(is_leaf, st') := loop ch 0 true st in
      fn node is_leaf st'
  end.

(** The same loop as a function of its own, for reasoning. *)
Definition apply_filtered_loop {St : Type} (leaf_types : list string) (node : list nat)
    (fn : list nat → bool → St → St) : list nn_Module → nat → bool → St → bool * St :=
  fix loop (ms : list nn_Module) (i : nat) (is_leaf : bool) (st : St) : bool * St :=
    match ms with
    | [] => (is_leaf, st)
    | module :: ms' =>
        loop ms' (S i) false
          (if bool_decide (class_name module ∈ leaf_types)
           then fn (node ++ [i]) true st
           else apply_filtered leaf_types module (node ++ [i]) fn st)
    end.

(** ** track: the session state and the two hooks

    A tracker object lives in [store]; [all_trackers] and [tracker_stack] hold
    references to it (positions in the store), so that what [post] writes to
    the tracker popped from the stack is seen through the result list.  With
    each object the store keeps the arguments it was constructed with.
    [events] is a ghost log of the calls of [tracker.pre] and [tracker.post]:
    the module and the tracker of each. *)

Record TrackerObj (T : Type) : Type := MkObj {
  t_count : nat;
  t_depth : nat;
  t_leaf : bool;
  t_self : T;
}.
Arguments MkObj {T}.
Arguments t_count {T}.
Arguments t_depth {T}.
Arguments t_leaf {T}.
Arguments t_self {T}.

Inductive Event : Type :=
  | EvPre (node : list nat) (tracker : nat)
  | EvPost (node : list nat) (tracker : nat).

#[global] Instance Event_eq_dec : EqDecision Event.
Proof. solve_decision. Defined.

Record Session (T SD : Type) : Type := MkSession {
  shared_dict : SD;
  store : list (TrackerObj T);
  all_trackers : list nat;
  tracker_stack : list nat;
  events : list Event;
}.
Arguments MkSession {T SD}.
Arguments shared_dict {T SD}.
Arguments store {T SD}.
Arguments all_trackers {T SD}.
Arguments tracker_stack {T SD}.
Arguments events {T SD}.

Record World (T SD : Type) : Type := MkWorld {
  registry : Registry;
  session : Session T SD;
}.
Arguments MkWorld {T SD}.
Arguments registry {T SD}.
Arguments session {T SD}.

Section Session.
Context {T SD : Type} `{!Tracker T SD} `{!Empty SD}.

Definition with_shared_dict (s : Session T SD) (sd : SD) : Session T SD :=
  MkSession sd (store s) (all_trackers s) (tracker_stack s) (events s).

(** [pre_hook], the closure registered for the module at [node] with the
    captured [leaf]. *)
Definition pre_hook (leaf : bool) (node : list nat) (module : nn_Module) (input : PyObj)
  : M (Session T SD) unit :=
  λ s,
    match tracker_factory (length (all_trackers s)) (length (tracker_stack s)) leaf
                          (shared_dict s) with
    | (sd1, inl e) => (with_shared_dict s sd1, inl e)
    | (sd1, inr t) =>
        let tracker := length (store s) in
        let obj := MkObj (length (all_trackers s)) (length (tracker_stack s)) leaf t in
        let log := events s ++ [EvPre node tracker] in
        match tracker_pre t module input sd1 with
        | (sd2, inl e) =>
            (MkSession sd2 (store s ++ [obj]) (all_trackers s) (tracker_stack s) log, inl e)
        | (sd2, inr t') =>
            (MkSession sd2
               (store s ++ [MkObj (t_count obj) (t_depth obj) (t_leaf obj) t'])
               (all_trackers s ++ [tracker])
               (tracker_stack s ++ [tracker])
               log,
             inr ())
        end
    end.

(** [hook], the closure registered as forward hook of the module at [node]. *)
Definition hook (node : list nat) (module : nn_Module) (input output : PyObj)
  : M (Session T SD) unit :=
  λ s,
    match pop (tracker_stack s) with
    | None => (s, inl IndexError)
    | Some (stack', tracker) =>
        let log := events s ++ [EvPost node tracker] in
        match store s !! tracker with
        | None =>
            (MkSession (shared_dict s) (store s) (all_trackers s) stack' log, inl DanglingRef)
        | Some obj =>
            match tracker_post (t_self obj) module input output (shared_dict s) with
            | (sd', inl e) =>
                (MkSession sd' (store s) (all_trackers s) stack' log, inl e)
            | (sd', inr t') =>
                (MkSession sd'
                   (<[tracker := MkObj (t_count obj) (t_depth obj) (t_leaf obj) t']> (store s))
                   (all_trackers s) stack' log,
                 inr ())
            end
        end
    end.

(** [Module.__call__] of torch on the module at [node]: the forward pre
    hooks of the module, its [forward], its forward hooks; the hooks of the
    session return [None], so input and output pass unchanged.  [forward] of a
    module with children runs each child once, in order, on the output of the
    one before (as [Sequential] does); [fwd] is the [forward] of a module
    without children.  The hooks get the positional arguments as a tuple. *)
Fixpoint call (reg : Registry) (fwd : nn_Module → PyObj → exn + PyObj)
    (module : nn_Module) (node : list nat) (x : PyObj) : M (Session T SD) PyObj :=
  match module with
  | Mod _ _ ch =>
      let input := PTuple [x] in
      _ <- for_each (λ e, pre_hook (pre_leaf e) node module input) (pre_hooks_at reg node) ;;
      output <- match ch with
                | [] => λ s, (s, fwd module x)
                | _ =>
                    (fix forward (ms : list nn_Module) (i : nat) (x : PyObj)
                       : M (Session T SD) PyObj :=
                       match ms with
                       | [] => ret x
                       | c :: ms' =>
                           y <- call reg fwd c (node ++ [i]) x ;;
                           forward ms' (S i) y
                       end) ch 0 x
                end ;;
      _ <- for_each (λ _, hook node module input output) (post_hooks_at reg node) ;;
      ret output
  end.

(** The children loop of [call] as a function of its own, for reasoning. *)
Definition forward_children (reg : Registry) (fwd : nn_Module → PyObj → exn + PyObj)
    (node : list nat) : list nn_Module → nat → PyObj → M (Session T SD) PyObj :=
  fix forward (ms : list nn_Module) (i : nat) (x : PyObj) : M (Session T SD) PyObj :=
    match ms with
    | [] => ret x
    | c :: ms' =>
        y <- call reg fwd c (node ++ [i]) x ;;
        forward ms' (S i) y
    end.

(** [track] together with the [with] block it is used in: the set up, the
    block ([body], which sees the registry and the session and may raise), and
    the [finally] part, which runs on both ways out and re-raises. *)
Definition track {A : Type} (net : nn_Module) (leaf_types : list string)
    (body : M (World T SD) A) (reg : Registry) : World T SD * (exn + A) :=
  let s := MkSession ∅ [] [] [] [] in
  let '(reg1, hooks) := apply_filtered leaf_types net [] register_hook (reg, []) in
  let '(w, result) := body (MkWorld reg1 s) in
  (MkWorld (foldl (λ r h, remove h r) (registry w) hooks) (session w), result).

(** The hooks the session has registered when the block starts. *)
Definition session_hooks (net : nn_Module) (leaf_types : list string) (reg : Registry)
  : list RemovableHandle :=
  (apply_filtered leaf_types net [] register_hook (reg, [])).2.

(** The block [_ = net(x)]. *)
Definition run_net (fwd : nn_Module → PyObj → exn + PyObj) (net : nn_Module) (x : PyObj)
  : M (World T SD) PyObj :=
  λ w, let '(s, r) := call (registry w) fwd net [] x (session w) in
       (MkWorld (registry w) s, r).

End Session.

(** ** tracker_list

    The wrapped factories are tracker classes over one type [W] of wrapped
    objects and one type [D] of sub dicts; a wrapped instance carries its
    class, as a Python object does.  The shared dict of the combined tracker
    maps the position of a factory to its sub dict; a wrapped instance keeps
    the reference to the sub dict it was constructed with, which is the value
    at its position. *)

Module TrackerList.
Section TrackerList.
Context {W D : Type} `{!Empty D}.

Record t : Type := Mk { instances : list (Tracker W D * W) }.

(** [shared_dict.setdefault(i, {})] *)
Definition setdefault (i : nat) (shared_dict : gmap nat D) : gmap nat D * D :=
  match shared_dict !! i with
  | Some d => (shared_dict, d)
  | None => (<[i := ∅]> shared_dict, ∅)
  end.

(** The list comprehension of [__init__], from position [i] on; [acc] holds
    the instances built so far. *)
Fixpoint build (tracker_factories : list (Tracker W D)) (i : nat)
    (count depth : nat) (leaf : bool) (acc : list (Tracker W D * W))
    (shared_dict : gmap nat D) : gmap nat D * (exn + list (Tracker W D * W)) :=
  match tracker_factories with
  | [] => (shared_dict, inr acc)
  | tf :: tfs =>
      let '(sd1, sub) := setdefault i shared_dict in
      match @tracker_factory W D tf count depth leaf sub with
      | (sub', inl e) => (<[i := sub']> sd1, inl e)
      | (sub', inr w) => build tfs (S i) count depth leaf (acc ++ [(tf, w)]) (<[i := sub']> sd1)
      end
  end.

Definition __init__ (tracker_factories : list (Tracker W D))
    (count depth : nat) (leaf : bool) (shared_dict : gmap nat D)
  : gmap nat D * (exn + t) :=
  match build tracker_factories 0 count depth leaf [] shared_dict with
  | (sd, inl e) => (sd, inl e)
  | (sd, inr insts) => (sd, inr (Mk insts))
  end.

(** [for i in self.instances: i.method(...)], from position [i] on.  Next to
    the shared dict and the instances after the calls it gives the positions
    of the instances whose method was called, in the order of the calls. *)
Fixpoint fan_out (method : Tracker W D → W → D → D * (exn + W))
    (insts : list (Tracker W D * W)) (i : nat) (shared_dict : gmap nat D)
  : gmap nat D * list nat * (exn + list (Tracker W D * W)) :=
  match insts with
  | [] => (shared_dict, [], inr [])
  | (cls, w) :: rest =>
      match method cls w (default ∅ (shared_dict !! i)) with
      | (sub', inl e) => (<[i := sub']> shared_dict, [i], inl e)
      | (sub', inr w') =>
          match fan_out method rest (S i) (<[i := sub']> shared_dict) with
          | (sd, calls, inl e) => (sd, i :: calls, inl e)
          | (sd, calls, inr rest') => (sd, i :: calls, inr ((cls, w') :: rest'))
          end
      end
  end.

Definition pre (self : t) (module : nn_Module) (input : PyObj) (shared_dict : gmap nat D)
  : gmap nat D * (exn + t) :=
  match fan_out (λ cls w, @tracker_pre W D cls w module input) (instances self) 0 shared_dict with
  | (sd, _, inl e) => (sd, inl e)
  | (sd, _, inr insts) => (sd, inr (Mk insts))
  end.

Definition post (self : t) (module : nn_Module) (input output : PyObj)
    (shared_dict : gmap nat D) : gmap nat D * (exn + t) :=
  match fan_out (λ cls w, @tracker_post W D cls w module input output)
                (instances self) 0 shared_dict with
  | (sd, _, inl e) => (sd, inl e)
  | (sd, _, inr insts) => (sd, inr (Mk insts))
  end.

(** [self.instances[item]] for an int [item]: negative indices count from
    the end. *)
Definition __getitem__ (self : t) (item : Z) : exn + W :=
  let n := Z.of_nat (length (instances self)) in
  let i := if (item <? 0)%Z then (item + n)%Z else item in
  if ((0 <=? i)%Z && (i <? n)%Z)%bool
  then match instances self !! Z.to_nat i with
       | Some (_, w) => inr w
       | None => inl IndexError
       end
  else inl IndexError.

End TrackerList.
End TrackerList.

Definition tracker_list {W D : Type} `{!Empty D} (tracker_factories : list (Tracker W D))
  : Tracker (@TrackerList.t W D) (gmap nat D) := {|
  tracker_factory := TrackerList.__init__ tracker_factories;
  tracker_pre := TrackerList.pre;
  tracker_post := TrackerList.post;
|}.

(** ** Vocabulary of the statements *)

(** The module at a path below [m]. *)
Fixpoint subtree (m : nn_Module) (q : list nat) : option nn_Module :=
  match q with
  | [] => Some m
  | i :: q' =>
      match children m !! i with
      | Some c => subtree c q'
      | None => None
      end
  end.

Definition is_leaf_kind (leaf_types : list string) (m : nn_Module) : bool :=
  bool_decide (class_name m ∈ leaf_types).

Definition no_children (m : nn_Module) : bool :=
  bool_decide (children m = []).

(** The node at path [q] lies strictly below a node, other than the root
    [m], whose class is in [leaf_types]. *)
Fixpoint below_leaf_kind (leaf_types : list string) (m : nn_Module) (q : list nat) : bool :=
  match q with
  | [] => false
  | i :: q' =>
      match children m !! i with
      | None => false
      | Some c =>
          match q' with
          | [] => false
          | _ => is_leaf_kind leaf_types c || below_leaf_kind leaf_types c q'
          end
      end
  end.

(** The calls [fn(module, leaf)] that [apply_filtered] makes on [m], in
    order, with the paths relative to [m]. *)
Fixpoint plan (leaf_types : list string) (m : nn_Module) : list (list nat * bool) :=
  match m with
  | Mod _ _ ch =>
      (fix loop (ms : list nn_Module) (i : nat) : list (list nat * bool) :=
         match ms with
         | [] => []
         | c :: ms' =>
             (if is_leaf_kind leaf_types c then [([i], true)]
              else map (λ e, (i :: e.1, e.2)) (plan leaf_types c))
             ++ loop ms' (S i)
         end) ch 0
      ++ [([], bool_decide (ch = []))]
  end.

Definition plan_loop (leaf_types : list string) : list nn_Module → nat → list (list nat * bool) :=
  fix loop (ms : list nn_Module) (i : nat) : list (list nat * bool) :=
    match ms with
    | [] => []
    | c :: ms' =>
        (if is_leaf_kind leaf_types c then [([i], true)]
         else map (λ e, (i :: e.1, e.2)) (plan leaf_types c))
        ++ loop ms' (S i)
    end.

(** One call of the plan, made from the module at [node]. *)
Definition plan_step {St : Type} (fn : list nat → bool → St → St)
    (node : list nat) (st : St) (e : list nat * bool) : St :=
  fn (node ++ e.1) e.2 st.

(** The entries of a plan for the node at path [q]. *)
Definition at_path (q : list nat) (e : list nat * bool) : bool :=
  bool_decide (e.1 = q).

(** The [leaf] flag the node at path [q] is hooked with when it is hooked:
    the class of the root is not looked at. *)
Definition leaf_flag (leaf_types : list string) (q : list nat) (m : nn_Module) : bool :=
  no_children m || (negb (bool_decide (q = [])) && is_leaf_kind leaf_types m).

(** How [apply_filtered] on [m] hooks the node at path [q]: not at all when
    there is no such node or it lies below a node of a leaf class, otherwise
    once, with its [leaf_flag]. *)
Definition hooking (leaf_types : list string) (m : nn_Module) (q : list nat)
  : list (list nat * bool) :=
  match subtree m q with
  | Some m' => if below_leaf_kind leaf_types m q then [] else [(q, leaf_flag leaf_types q m')]
  | None => []
  end.

(** The registry while the block of [track] runs. *)
Definition instrumented (net : nn_Module) (leaf_types : list string) (reg : Registry)
  : Registry :=
  (apply_filtered leaf_types net [] register_hook (reg, [])).1.

Definition handle_id (h : RemovableHandle) : nat :=
  match h with PreHandle id | PostHandle id => id end.


(** What the dicts say, without the ids: module and captured [leaf] of the
    forward pre hooks, module of the forward hooks. *)
Definition pre_view (reg : Registry) : list (list nat * bool) :=
  map (λ e, (pre_module e, pre_leaf e)) (_forward_pre_hooks reg).

Definition post_view (reg : Registry) : list (list nat) :=
  map post_module (_forward_hooks reg).

(** A module is hooked when it has a forward pre hook. *)
Definition hooked (reg : Registry) (node : list nat) : bool :=
  negb (bool_decide (pre_hooks_at reg node = [])).

(** The strict ancestors of a node, from the root down. *)
Definition strict_ancestors (node : list nat) : list (list nat) :=
  map (λ k, take k node) (seq 0 (length node)).

Definition hooked_ancestors (reg : Registry) (node : list nat) : nat :=
  length (List.filter (hooked reg) (strict_ancestors node)).

(** Every module has no hooks, or one forward pre hook and one forward hook. *)
Definition paired (reg : Registry) : Prop :=
  ∀ node, length (post_hooks_at reg node) = length (pre_hooks_at reg node)
          ∧ length (pre_hooks_at reg node) ≤ 1.

(** Replaying the log on a stack of open calls: [tracker.pre] opens a call
    for its module and tracker, [tracker.post] has to close the innermost open
    call, for the same module and the same tracker. *)
Definition replay_step (open : option (list (list nat * nat))) (ev : Event)
  : option (list (list nat * nat)) :=
  match open with
  | None => None
  | Some st =>
      match ev with
      | EvPre node r => Some (st ++ [(node, r)])
      | EvPost node r =>
          match pop st with
          | Some (st', top) => if bool_decide (top = (node, r)) then Some st' else None
          | None => None
          end
      end
  end.

Definition replay (evs : list Event) : option (list (list nat * nat)) :=
  foldl replay_step (Some []) evs.

Definition is_pre (ev : Event) : bool :=
  match ev with EvPre _ _ => true | EvPost _ _ => false end.

Definition count_pre (evs : list Event) : nat := length (List.filter is_pre evs).
Definition count_post (evs : list Event) : nat :=
  length (List.filter (λ ev, negb (is_pre ev)) evs).

(** The trackers of the [tracker.pre] calls of a log, in order. *)
Definition pre_trackers (evs : list Event) : list nat :=
  omap (λ ev, match ev with EvPre _ r => Some r | EvPost _ _ => None end) evs.

(** What holds of a session between two hook calls of a run in which
    nothing raises: the result list holds the trackers of the [tracker.pre]
    calls in order; the call stack holds the trackers of the open calls of the
    log; every [tracker.post] call has taken one tracker off the stack; the
    tracker at position [i] of the result list was constructed with count [i];
    a tracker was constructed with the number of calls open before its
    [tracker.pre] as depth, which is the number of hooked strict ancestors of
    its module; the references on the stack are in the store. *)
Definition session_inv {T SD : Type} (reg : Registry) (s : Session T SD) : Prop :=
  all_trackers s = pre_trackers (events s)
  ∧ (∃ open, replay (events s) = Some open ∧ map snd open = tracker_stack s)
  ∧ count_post (events s) + length (tracker_stack s) = length (all_trackers s)
  ∧ (∀ i r, all_trackers s !! i = Some r → ∃ o, store s !! r = Some o ∧ t_count o = i)
  ∧ (∀ k node r, events s !! k = Some (EvPre node r) →
       ∃ o open, store s !! r = Some o
                 ∧ replay (take k (events s)) = Some open
                 ∧ t_depth o = length open
                 ∧ t_depth o = hooked_ancestors reg node)
  ∧ (∀ r, r ∈ tracker_stack s → r < length (store s)).


(** A tracker class none of whose methods raises, and a [forward] that does
    not raise. *)
Definition tracker_total {T SD : Type} `{!Tracker T SD} : Prop :=
  (∀ count depth leaf sd, ∃ sd' t, tracker_factory count depth leaf sd = (sd', inr t))
  ∧ (∀ (t : T) module input (sd : SD), ∃ sd' t', tracker_pre t module input sd = (sd', inr t'))
  ∧ (∀ (t : T) module input output (sd : SD),
        ∃ sd' t', tracker_post t module input output sd = (sd', inr t')).

Definition forward_total (fwd : nn_Module → PyObj → exn + PyObj) : Prop :=
  ∀ m x, ∃ y, fwd m x = inr y.

(** The methods of a combined tracker's wrapped instances do not raise. *)
Definition wrapped_total {W D : Type} (self : @TrackerList.t W D) : Prop :=
  ∀ i cls w, TrackerList.instances self !! i = Some (cls, w) →
    (∀ module input d, ∃ d' w', @tracker_pre W D cls w module input d = (d', inr w'))
    ∧ (∀ module input output d,
         ∃ d' w', @tracker_post W D cls w module input output d = (d', inr w')).

(** A method of the combined tracker, with the result [run], has called
    [method] on every wrapped instance, in the order of their positions, each
    on the sub dict at its position, and has kept what they returned. *)
Definition fans_out {W D : Type} `{!Empty D}
    (method : Tracker W D → W → D → D * (exn + W))
    (self : @TrackerList.t W D) (shared_dict : gmap nat D)
    (run : gmap nat D * (exn + @TrackerList.t W D)) : Prop :=
  ∃ sd' insts',
    TrackerList.fan_out method (TrackerList.instances self) 0 shared_dict
    = (sd', seq 0 (length (TrackerList.instances self)), inr insts')
    ∧ run = (sd', inr (TrackerList.Mk insts'))
    ∧ ∀ i cls w, TrackerList.instances self !! i = Some (cls, w) →
        ∃ sub' w', method cls w (default ∅ (shared_dict !! i)) = (sub', inr w')
                   ∧ insts' !! i = Some (cls, w')
                   ∧ sd' !! i = Some sub'.

(** ** Trackers and inputs for the examples *)

(** The shapes of the doctest network. *)
Definition doctest_fwd (m : nn_Module) (x : PyObj) : exn + PyObj :=
  match x with
  | PTensor (b :: _) =>
      match _parameters m with
      | [_; bias] => inr (PTensor [b; numel bias])
      | _ => inr x
      end
  | _ => inr x
  end.

(** The base class [Tracker] itself: it keeps its arguments, [pre] and
    [post] do nothing. *)
#[global] Instance base_Tracker {SD : Type} : Tracker (nat * nat * bool) SD := {
  tracker_factory count depth leaf sd := (sd, inr (count, depth, leaf));
  tracker_pre self module input sd := (sd, inr self);
  tracker_post self module input output sd := (sd, inr self);
}.

(** A tracker whose constructor raises for the third module and whose [pre]
    raises for the second. *)
Definition faulty_Tracker : Tracker nat (gmap string nat) := {|
  tracker_factory count depth leaf sd :=
    if count =? 2 then (sd, inl (UserError 1)) else (sd, inr count);
  tracker_pre self module input sd :=
    if self =? 1 then (sd, inl (UserError 2)) else (sd, inr self);
  tracker_post self module input output sd := (sd, inr self);
|}.

(** The session of the doctests with the base class as tracker. *)
Definition doctest_session : World (nat * nat * bool) (gmap string nat) * (exn + PyObj) :=
  track doctest_net [] (run_net doctest_fwd doctest_net (PTensor [7; 3])) empty_registry.

(** The same session with the faulty tracker: [pre] raises for the second
    module while the network runs. *)
Definition faulty_session : World nat (gmap string nat) * (exn + PyObj) :=
  @track nat (gmap string nat) _ PyObj doctest_net []
    (@run_net nat (gmap string nat) faulty_Tracker doctest_fwd doctest_net (PTensor [7; 3]))
    empty_registry.

(** The sessions of the doctests of [track]. *)
Definition doctest_ShapeTracker : World ShapeTracker.t (gmap string nat) * (exn + PyObj) :=
  track doctest_net [] (run_net doctest_fwd doctest_net (PTensor [7; 3])) empty_registry.

Definition doctest_ParameterTracker
  : World ParameterTracker.t (gmap string nat) * (exn + PyObj) :=
  track doctest_net [] (run_net doctest_fwd doctest_net (PTensor [7; 3])) empty_registry.

(** [ShapeTracker] and [ParameterTracker] as classes over one type of
    objects, for [tracker_list(ShapeTracker, ParameterTracker)]. *)
Definition Shape_cls : Tracker (ShapeTracker.t + ParameterTracker.t) (gmap string nat) := {|
  tracker_factory count depth leaf sd := (sd, inr (inl (ShapeTracker.__init__ count depth leaf)));
  tracker_pre self module input sd :=
    match self with
    | inl t => (sd, inr (inl (ShapeTracker.pre t module input)))
    | inr _ => (sd, inl TypeError)
    end;
  tracker_post self module input output sd :=
    match self with
    | inl t => (sd, inr (inl (ShapeTracker.post t module input output)))
    | inr _ => (sd, inl TypeError)
    end;
|}.

Definition Param_cls : Tracker (ShapeTracker.t + ParameterTracker.t) (gmap string nat) := {|
  tracker_factory count depth leaf sd :=
    (sd, inr (inr (ParameterTracker.__init__ count depth leaf)));
  tracker_pre self module input sd :=
    match self with
    | inr t => (sd, inr (inr (ParameterTracker.pre t module input)))
    | inl _ => (sd, inl TypeError)
    end;
  tracker_post self module input output sd :=
    match self with
    | inr t => (sd, inr (inr (ParameterTracker.post t module input output)))
    | inl _ => (sd, inl TypeError)
    end;
|}.

(** ** More vocabulary: what [get_shape] keeps *)

(** A result of [get_shape] is clean when no sequence in it holds [None] or
    an empty tuple, list or dict, and no dict in it holds [None] as a value. *)
Definition filled (v : PyVal) : bool :=
  match v with
  | VInt _ => true
  | _ => truthy v
  end.

Fixpoint clean (v : PyVal) : bool :=
  match v with
  | VNone | VInt _ => true
  | VList vs | VTuple vs => forallb (λ e, filled e && clean e) vs
  | VDict items => forallb (λ kv, is_not_None kv.2 && clean kv.2) items
  end.

(** An object without [shape] attribute that is no tuple, list or dict. *)
Definition shapeless (obj : PyObj) : bool :=
  match obj with PObject _ => true | _ => false end.

(** The elements that a tuple or list keeps: tensors with at least one
    dimension, sequences that keep an element, dicts with a value that is not
    shapeless. *)
Fixpoint keeps (obj : PyObj) : bool :=
  match obj with
  | PTuple es | PList es => existsb keeps es
  | PDict items => existsb (λ kv, negb (shapeless kv.2)) items
  | PTensor shape => negb (bool_decide (length shape = 0))
  | PObject _ => false
  end.

(** ** More vocabulary: the registry *)

(** The ids in the dicts were handed out by the counter. *)
Definition registry_wf (reg : Registry) : Prop :=
  Forall (λ e, pre_handle e < next_id reg) (_forward_pre_hooks reg)
  ∧ Forall (λ e, post_handle e < next_id reg) (_forward_hooks reg).

(** What [register_hook] calls have made of the registry [reg0]: the entries
    of [reg0] are still there, in front; every new entry has its handle in the
    list [hooks]; the handles carry the ids from [next_id reg0] on, in order. *)
Definition grown (reg0 : Registry) (st : Registry * list RemovableHandle) : Prop :=
  ∃ added_pre added_post,
    _forward_pre_hooks st.1 = _forward_pre_hooks reg0 ++ added_pre
    ∧ _forward_hooks st.1 = _forward_hooks reg0 ++ added_post
    ∧ Forall (λ e, PreHandle (pre_handle e) ∈ st.2) added_pre
    ∧ Forall (λ e, PostHandle (post_handle e) ∈ st.2) added_post
    ∧ map handle_id st.2 = seq (next_id reg0) (length st.2)
    ∧ next_id st.1 = next_id reg0 + length st.2.

(** ** More vocabulary: runs that may raise *)

(** What holds of a session at any time, also after an exception: every
    recorded tracker is on the call stack or has been handed to
    [tracker.post]; the tracker at position [i] of the result list was
    constructed with count [i]; the call stack holds recorded trackers only;
    every recorded tracker has had its [tracker.pre] call. *)
Definition robust_inv {T SD : Type} (s : Session T SD) : Prop :=
  count_post (events s) + length (tracker_stack s) = length (all_trackers s)
  ∧ (∀ i r, all_trackers s !! i = Some r → ∃ o, store s !! r = Some o ∧ t_count o = i)
  ∧ (∀ r, r ∈ tracker_stack s → r ∈ all_trackers s)
  ∧ length (all_trackers s) ≤ count_pre (events s).

(** Every exception that the tracker class or [forward] raises satisfies [P]. *)
Definition user_raises {T SD : Type} `{!Tracker T SD}
    (fwd : nn_Module → PyObj → exn + PyObj) (P : exn → Prop) : Prop :=
  (∀ count depth leaf sd sd' e,
      tracker_factory (T:=T) (SD:=SD) count depth leaf sd = (sd', inl e) → P e)
  ∧ (∀ (t : T) module input (sd sd' : SD) e,
       tracker_pre t module input sd = (sd', inl e) → P e)
  ∧ (∀ (t : T) module input output (sd sd' : SD) e,
       tracker_post t module input output sd = (sd', inl e) → P e)
  ∧ (∀ m x e, fwd m x = inl e → P e).

(** The outcome of a call on a session: when it returns, the call stack is
    as before; when it raises, the exception satisfies [P] and the call stack
    has only grown; the session is robust in both cases. *)
Definition safe_outcome {T SD A : Type} (P : exn → Prop)
    (s : Session T SD) (out : Session T SD * (exn + A)) : Prop :=
  robust_inv out.1
  ∧ all_trackers s `prefix_of` all_trackers out.1
  ∧ match out.2 with
    | inr _ => tracker_stack out.1 = tracker_stack s
    | inl e => P e ∧ tracker_stack s `prefix_of` tracker_stack out.1
    end.

(** ** More vocabulary: a session as a traversal

    A tracker class whose constructor and methods are functions: they do not
    raise and leave the shared dict alone.  [ShapeTracker] and
    [ParameterTracker] are of this kind. *)
Definition pure_Tracker {T SD : Type} (init : nat → nat → bool → T)
    (pre : T → nn_Module → PyObj → T) (post : T → nn_Module → PyObj → PyObj → T)
  : Tracker T SD := {|
  tracker_factory count depth leaf sd := (sd, inr (init count depth leaf));
  tracker_pre self module input sd := (sd, inr (pre self module input));
  tracker_post self module input output sd := (sd, inr (post self module input output));
|}.

Definition result_or (r : exn + PyObj) (x : PyObj) : PyObj :=
  match r with inr y => y | inl _ => x end.

Section Traverse.
Context {T : Type}.
Variable init : nat → nat → bool → T.
Variable pre : T → nn_Module → PyObj → T.
Variable post : T → nn_Module → PyObj → PyObj → T.
Variable fwd : nn_Module → PyObj → exn + PyObj.

(** The trackers of the subtree [m] in the order their modules are entered,
    and the output of [m].  [hk q] gives the [leaf] flags of the forward pre
    hooks of the module at path [q] below [m]; [count] trackers were recorded
    before and [depth] calls are open when [m] is called on [x].  A tracker
    is what [post] makes, once the output is there, of what [pre] has made of
    the new tracker. *)
Fixpoint traverse (hk : list nat → list bool) (m : nn_Module) (count depth : nat) (x : PyObj)
  : list (TrackerObj T) * PyObj :=
  match m with
  | Mod _ _ ch =>
      let here := head (hk []) in
      let count1 := if here then S count else count in
      let depth1 := if here then S depth else depth in
      let below :=
        match ch with
        | [] => ([], result_or (fwd m x) x)
        | _ =>
            (fix go (ms : list nn_Module) (i cnt : nat) (x : PyObj)
               : list (TrackerObj T) * PyObj :=
               match ms with
               | [] => ([], x)
               | c :: ms' =>
                   let r1 := traverse (λ q, hk (i :: q)) c cnt depth1 x in
                   let r2 := go ms' (S i) (cnt + length r1.1) r1.2 in
                   (r1.1 ++ r2.1, r2.2)
               end) ch 0 count1 x
        end in
      match here with
      | Some leaf =>
          (MkObj count depth leaf
             (post (pre (init count depth leaf) m (PTuple [x])) m (PTuple [x]) below.2)
           :: below.1, below.2)
      | None => below
      end
  end.

Definition traverse_children (hk : list nat → list bool) (depth1 : nat)
  : list nn_Module → nat → nat → PyObj → list (TrackerObj T) * PyObj :=
  fix go (ms : list nn_Module) (i cnt : nat) (x : PyObj) : list (TrackerObj T) * PyObj :=
    match ms with
    | [] => ([], x)
    | c :: ms' =>
        let r1 := traverse (λ q, hk (i :: q)) c cnt depth1 x in
        let r2 := go ms' (S i) (cnt + length r1.1) r1.2 in
        (r1.1 ++ r2.1, r2.2)
    end.

End Traverse.

(** The flags of the hooks that [apply_filtered] registers on the tree [m],
    on a module of a leaf class with what is below it, and on modules that
    are not hooked. *)
Definition hk_tree (leaf_types : list string) (m : nn_Module) (q : list nat) : list bool :=
  map snd (hooking leaf_types m q).

Definition hk_leaf (q : list nat) : list bool :=
  match q with [] => [true] | _ => [] end.

Definition hk_none (q : list nat) : list bool := [].

(** The calls [fn(module, leaf)] of [apply_filtered] on [m], as modules with
    the flag, in the order of [Module.modules()]; and the modules alone. *)
Fixpoint hooked_calls (leaf_types : list string) (m : nn_Module) : list (nn_Module * bool) :=
  match m with
  | Mod _ _ ch =>
      (m, no_children m)
      :: concat (map (λ c, if is_leaf_kind leaf_types c then [(c, true)]
                           else hooked_calls leaf_types c) ch)
  end.

Definition hooked_modules (leaf_types : list string) (m : nn_Module) : list nn_Module :=
  map fst (hooked_calls leaf_types m).

(** The list [trackers] that the [with] statement yields, with the objects
    behind the references. *)
Definition trackers {T SD : Type} (s : Session T SD) : list (TrackerObj T) :=
  omap (λ r, store s !! r) (all_trackers s).

(** [net(x)] without any hook: what [forward] gives, the children of a module
    run in order, an exception ending the run. *)
Fixpoint plain_forward (fwd : nn_Module → PyObj → exn + PyObj) (m : nn_Module) (x : PyObj)
  : exn + PyObj :=
  match m with
  | Mod _ _ ch =>
      match ch with
      | [] => fwd m x
      | _ =>
          (fix go (ms : list nn_Module) (x : PyObj) : exn + PyObj :=
             match ms with
             | [] => inr x
             | c :: ms' =>
                 match plain_forward fwd c x with
                 | inl e => inl e
                 | inr y => go ms' y
                 end
             end) ch x
      end
  end.

Definition plain_forward_seq (fwd : nn_Module → PyObj → exn + PyObj)
  : list nn_Module → PyObj → exn + PyObj :=
  fix go (ms : list nn_Module) (x : PyObj) : exn + PyObj :=
    match ms with
    | [] => inr x
    | c :: ms' =>
        match plain_forward fwd c x with
        | inl e => inl e
        | inr y => go ms' y
        end
    end.

(** A call on a session has the outcome [r]; when it returns, it keeps the
    invariant and leaves the call stack and the open calls as they were. *)
Definition outcome_as {T SD : Type} (reg : Registry)
    (run : M (Session T SD) PyObj) (s : Session T SD) (r : exn + PyObj) : Prop :=
  (run s).2 = r
  ∧ (∀ y, r = inr y →
       session_inv reg (run s).1
       ∧ tracker_stack (run s).1 = tracker_stack s
       ∧ replay (events (run s).1) = replay (events s)).

(** A tracker is what [post] has made of what [pre] has made of a new
    tracker for the module, with the flag of the call. *)
Definition tracker_of {T : Type} (init : nat → nat → bool → T)
    (pre : T → nn_Module → PyObj → T) (post : T → nn_Module → PyObj → PyObj → T)
    (o : TrackerObj T) (call : nn_Module * bool) : Prop :=
  t_leaf o = call.2
  ∧ ∃ input output,
      t_self o = post (pre (init (t_count o) (t_depth o) (t_leaf o)) call.1 input)
                   call.1 input output.

(** What a call does to a session when it is the traversal [r]: it returns
    the output of [r] and appends the trackers of [r] to the store and their
    references to the result list; stack and shared dict are as before. *)
Definition runs_as {T SD : Type} (run : M (Session T SD) PyObj) (s : Session T SD)
    (r : list (TrackerObj T) * PyObj) : Prop :=
  ∃ s', run s = (s', inr r.2)
        ∧ store s' = store s ++ r.1
        ∧ all_trackers s' = all_trackers s ++ seq (length (store s)) (length r.1)
        ∧ tracker_stack s' = tracker_stack s
        ∧ shared_dict s' = shared_dict s.

(** ** Exceptions of IOPNumTracker and DenseStack

    [KeyError] and [AttributeError] carry the key and the name; [Raised] is an
    exception of the code above. *)
Inductive py_exn : Type :=
  | KeyError (key : string)
  | AttributeError (name : string)
  | RuntimeError
  | Raised (e : exn).

(** ** IOPNumTracker and IOPMemTracker

    A tensor is an object, with its number of elements, the flag
    [requires_grad] and the size of one element in bytes.  [TObj] is what a
    module receives and returns when the tensors count as objects: nested
    tuples, lists and dicts over tensors and other objects.  A value of the
    dicts [shared_dict] and [local_dict] is a number or a weak set. *)

Record Tensor : Type := MkTensor {
  tensor_object : PyObject;
  tensor_numel : nat;
  tensor_requires_grad : bool;
  tensor_element_size : nat;
}.

Inductive TObj : Type :=
  | TTuple (es : list TObj)
  | TList (es : list TObj)
  | TDict (items : list (string * TObj))
  | TTensor (tensor : Tensor)
  | TOther (tag : nat).

Inductive iop_val : Type :=
  | INum (n : nat)
  | ISet (s : _IDBasedWeakSet.t).

Module IOPNumTracker.

(** The object carries [get_size], the method that [IOPMemTracker]
    overrides; [local_dict] is [None] until [maybe_init] has run. *)
Record t : Type := Mk {
  count : nat;
  depth : nat;
  leaf : bool;
  module_name : option string;
  local_dict : option (gmap string iop_val);
  get_size : Tensor → nat;
}.

Definition __init__ (count depth : nat) (leaf : bool) : t :=
  Mk count depth leaf None None (λ tensor, tensor_numel tensor).

Fixpoint flat_tensors (obj : TObj) : list Tensor :=
  match obj with
  | TTuple es | TList es => flat_map flat_tensors es
  | TDict items => flat_map (λ kv, flat_tensors kv.2) items
  | TTensor tensor => [tensor]
  | TOther _ => []
  end.

(** The five assignments of [maybe_init] on a dict. *)
Definition fill (d : gmap string iop_val) : gmap string iop_val :=
  <["visited" := ISet (_IDBasedWeakSet.Mk ∅)]>
    (<["tensors_fixed" := INum 0]>
       (<["tensors_learnable" := INum 0]>
          (<["parameters_fixed" := INum 0]>
             (<["parameters_learnable" := INum 0]> d)))).

(** [maybe_init]; the state is the shared dict and [self]. *)
Definition maybe_init (st : gmap string iop_val * t) : gmap string iop_val * t :=
  let shared_dict := if size st.1 =? 0 then fill st.1 else st.1 in
  let not_local_dict :=
    match local_dict st.2 with
    | None => true
    | Some l => size l =? 0
    end in
  let local := if not_local_dict then Some (fill ∅) else local_dict st.2 in
  (shared_dict,
   Mk (count st.2) (depth st.2) (leaf st.2) (module_name st.2) local (get_size st.2)).

(** One of the two blocks of [maybe_add], on the dict [d]: they read the
    same, with [shared_dict] and with [local_dict].  An exception leaves what
    was written before it. *)
Definition visit (heap : gmap nat PyObject) (size : nat) (d : gmap string iop_val)
    (tensor : Tensor) (learnable_key fixed_key : string)
  : gmap string iop_val * option py_exn :=
  match d !! "visited" with
  | None => (d, Some (KeyError "visited"))
  | Some (INum _) => (d, Some (Raised TypeError))
  | Some (ISet visited) =>
      if _IDBasedWeakSet.__contains__ heap visited (tensor_object tensor) then (d, None)
      else
        match _IDBasedWeakSet.add visited (Some (tensor_object tensor)) with
        | inl e => (d, Some (Raised e))
        | inr visited' =>
            let d1 := <["visited" := ISet visited']> d in
            let key := if tensor_requires_grad tensor then learnable_key else fixed_key in
            match d1 !! key with
            | None => (d1, Some (KeyError key))
            | Some (ISet _) => (d1, Some (Raised TypeError))
            | Some (INum v) => (<[key := INum (v + size)]> d1, None)
            end
        end
  end.

Definition maybe_add (heap : gmap nat PyObject) (tensor : Tensor)
    (learnable_key fixed_key : string) (st : gmap string iop_val * t)
  : (gmap string iop_val * t) * option py_exn :=
  let self := st.2 in
  match visit heap (get_size self tensor) st.1 tensor learnable_key fixed_key with
  | (shared_dict, Some e) => ((shared_dict, self), Some e)
  | (shared_dict, None) =>
      match local_dict self with
      | None => ((shared_dict, self), Some (Raised TypeError))
      | Some l =>
          let '(l', r) := visit heap (get_size self tensor) l tensor learnable_key fixed_key in
          ((shared_dict,
            Mk (count self) (depth self) (leaf self) (module_name self) (Some l')
               (get_size self)), r)
      end
  end.

(** [for tensor in tensors: self.maybe_add(tensor, learnable_key, fixed_key)] *)
Fixpoint maybe_add_all (heap : gmap nat PyObject) (tensors : list Tensor)
    (learnable_key fixed_key : string) (st : gmap string iop_val * t)
  : (gmap string iop_val * t) * option py_exn :=
  match tensors with
  | [] => (st, None)
  | tensor :: tensors' =>
      match maybe_add heap tensor learnable_key fixed_key st with
      | (st', Some e) => (st', Some e)
      | (st', None) => maybe_add_all heap tensors' learnable_key fixed_key st'
      end
  end.

(** [pre] and [post]; [parameter_tensor] gives the tensor that a parameter
    of the module tree is. *)
Definition pre (heap : gmap nat PyObject) (parameter_tensor : nn_Parameter → Tensor)
    (module : nn_Module) (input : TObj) (st : gmap string iop_val * t)
  : (gmap string iop_val * t) * option py_exn :=
  let self := st.2 in
  let self := Mk (count self) (depth self) (leaf self) (Some (class_name module))
                 (local_dict self) (get_size self) in
  let st := maybe_init (st.1, self) in
  match maybe_add_all heap (map parameter_tensor (parameters (leaf st.2) module))
          "parameters_learnable" "parameters_fixed" st with
  | (st, Some e) => (st, Some e)
  | (st, None) =>
      maybe_add_all heap (flat_tensors input) "tensors_learnable" "tensors_fixed" st
  end.

Definition post (heap : gmap nat PyObject) (module : nn_Module) (input output : TObj)
    (st : gmap string iop_val * t) : (gmap string iop_val * t) * option py_exn :=
  maybe_add_all heap (flat_tensors output) "tensors_learnable" "tensors_fixed" st.

End IOPNumTracker.

Module IOPMemTracker.

Definition __init__ (count depth : nat) (leaf : bool) : IOPNumTracker.t :=
  IOPNumTracker.Mk count depth leaf None None
    (λ tensor, tensor_numel tensor * tensor_element_size tensor).

End IOPMemTracker.

(** *** Vocabulary: the dicts *)

Definition counter_keys : list string :=
  ["parameters_learnable"; "parameters_fixed"; "tensors_learnable"; "tensors_fixed"].

(** The number under a key, and the weak set of a dict. *)
Definition num (d : gmap string iop_val) (key : string) : nat :=
  match d !! key with
  | Some (INum n) => n
  | _ => 0
  end.

Definition visited_of (d : gmap string iop_val) : _IDBasedWeakSet.t :=
  match d !! "visited" with
  | Some (ISet s) => s
  | _ => _IDBasedWeakSet.Mk ∅
  end.

(** A dict as [maybe_init] leaves it: a number under each of the four keys,
    a weak set under [visited]. *)
Definition complete (d : gmap string iop_val) : Prop :=
  (∀ key, key ∈ counter_keys → ∃ n, d !! key = Some (INum n))
  ∧ ∃ s, d !! "visited" = Some (ISet s).

Definition local_of (self : IOPNumTracker.t) : gmap string iop_val :=
  default ∅ (IOPNumTracker.local_dict self).

(** *** Vocabulary: a session of IOP trackers next to the heap

    Objects are allocated and reclaimed; trackers are constructed; [pre] and
    [post] are called on a tracker with arguments that the caller holds.  A
    step is [None] when it cannot happen or when the method raises. *)

Inductive iop_op : Type :=
  | OAlloc (o : PyObject)
  | OReclaim (o : PyObject)
  | ONew (self : IOPNumTracker.t)
  | OPre (i : nat) (module : nn_Module) (input : TObj)
  | OPost (i : nat) (module : nn_Module) (input output : TObj).

Record iop_state : Type := MkIOP {
  iop_heap : gmap nat PyObject;
  iop_next_serial : nat;
  iop_shared : gmap string iop_val;
  iop_trackers : list IOPNumTracker.t;
}.

Definition iop_init : iop_state := MkIOP ∅ 0 ∅ [].

Definition held (heap : gmap nat PyObject) (tensors : list Tensor) : bool :=
  forallb (λ tensor, alive heap (tensor_object tensor)) tensors.

Definition iop_step (parameter_tensor : nn_Parameter → Tensor)
    (st : iop_state) (op : iop_op) : option iop_state :=
  match op with
  | OAlloc o =>
      if bool_decide (iop_heap st !! py_id o = None ∧ serial o = iop_next_serial st)
      then Some (MkIOP (<[py_id o := o]> (iop_heap st)) (S (iop_next_serial st))
                   (iop_shared st) (iop_trackers st))
      else None
  | OReclaim o =>
      if alive (iop_heap st) o
      then Some (MkIOP (delete (py_id o) (iop_heap st)) (iop_next_serial st)
                   (iop_shared st) (iop_trackers st))
      else None
  | ONew self =>
      if bool_decide (IOPNumTracker.local_dict self = None)
      then Some (MkIOP (iop_heap st) (iop_next_serial st) (iop_shared st)
                   (iop_trackers st ++ [self]))
      else None
  | OPre i module input =>
      match iop_trackers st !! i with
      | None => None
      | Some self =>
          if held (iop_heap st)
               (map parameter_tensor (parameters (IOPNumTracker.leaf self) module)
                ++ IOPNumTracker.flat_tensors input)
          then match IOPNumTracker.pre (iop_heap st) parameter_tensor module input
                       (iop_shared st, self) with
               | ((shared_dict, self'), None) =>
                   Some (MkIOP (iop_heap st) (iop_next_serial st) shared_dict
                           (<[i := self']> (iop_trackers st)))
               | (_, Some _) => None
               end
          else None
      end
  | OPost i module input output =>
      match iop_trackers st !! i with
      | None => None
      | Some self =>
          if held (iop_heap st) (IOPNumTracker.flat_tensors output)
          then match IOPNumTracker.post (iop_heap st) module input output
                       (iop_shared st, self) with
               | ((shared_dict, self'), None) =>
                   Some (MkIOP (iop_heap st) (iop_next_serial st) shared_dict
                           (<[i := self']> (iop_trackers st)))
               | (_, Some _) => None
               end
          else None
      end
  end.

Fixpoint iop_run (parameter_tensor : nn_Parameter → Tensor)
    (st : iop_state) (ops : list iop_op) : option iop_state :=
  match ops with
  | [] => Some st
  | op :: ops' =>
      match iop_step parameter_tensor st op with
      | Some st' => iop_run parameter_tensor st' ops'
      | None => None
      end
  end.

(** Every referent of the weak set has a used serial. *)
Definition referents_used (next : nat) (s : _IDBasedWeakSet.t) : Prop :=
  ∀ k r, _IDBasedWeakSet.data s !! k = Some (WeakRef r) → serial r < next.

(** Every live member of the weak set [s] is a member of [s']. *)
Definition within (heap : gmap nat PyObject) (s s' : _IDBasedWeakSet.t) : Prop :=
  ∀ x, _IDBasedWeakSet.__contains__ heap s x = true →
       _IDBasedWeakSet.__contains__ heap s' x = true.

(** What a session keeps: the shared dict is empty or complete, and complete
    once a tracker has its local dict; serials on the heap and in the weak sets
    are used; what a tracker has visited, the session has visited; under each
    key the number of the session is at most the sum of the trackers'. *)
Definition iop_inv (st : iop_state) : Prop :=
  (iop_shared st = ∅ ∨ complete (iop_shared st))
  ∧ Forall (λ self, match IOPNumTracker.local_dict self with
                    | None => True
                    | Some l => complete l ∧ complete (iop_shared st)
                                ∧ within (iop_heap st) (visited_of l)
                                         (visited_of (iop_shared st))
                                ∧ referents_used (iop_next_serial st) (visited_of l)
                    end) (iop_trackers st)
  ∧ (∀ o, alive (iop_heap st) o = true → serial o < iop_next_serial st)
  ∧ referents_used (iop_next_serial st) (visited_of (iop_shared st))
  ∧ (∀ key, key ∈ counter_keys →
       num (iop_shared st) key
       ≤ sum_list (map (λ self, num (local_of self) key) (iop_trackers st))).

(** * Properties *)

(** ** The module tree *)

(** Induction over the module tree with the hypothesis for every child. *)
Lemma nn_Module_ind' (P : nn_Module → Prop) :
  (∀ c ps ch, Forall P ch → P (Mod c ps ch)) → ∀ m, P m.
Proof.
  intros step. fix IH 1. intros [c ps ch]. apply step.
  induction ch as [|m ch IHch]; constructor; [apply IH | exact IHch].
Qed.

(** ** ParameterTracker *)

Lemma memo_filter_fresh (memo : gset nat) (ps : list nn_Parameter) :
  NoDup (map p_id ps) → (∀ p, p ∈ ps → p_id p ∉ memo) → memo_filter memo ps = ps.
Proof.
  revert memo. induction ps as [|p ps IH]; intros memo Hnd Hfresh; [done|].
  cbn [memo_filter]. inversion Hnd as [|? ? Hnotin Hnd']; subst.
  destruct (decide (p_id p ∈ memo)) as [Hin|_].
  - exfalso. apply (Hfresh p); [left | exact Hin].
  - f_equal. apply IH; [exact Hnd'|].
    intros q Hq [Heq%elem_of_singleton | Hm]%elem_of_union.
    + apply Hnotin. rewrite <- Heq. apply list_elem_of_In, in_map, list_elem_of_In, Hq.
    + apply (Hfresh q); [right; exact Hq | exact Hm].
Qed.

Lemma sum_list_flat_map_modules (ch : list nn_Module) :
  Forall (λ m, sum_list (map numel (flat_map _parameters (modules m))) = total_numel m) ch →
  sum_list (map numel (flat_map _parameters (concat (map modules ch))))
  = sum_list (map total_numel ch).
Proof.
  induction 1 as [|m ch Hm _ IH]; [done|].
  cbn [map concat]. rewrite flat_map_app, map_app, sum_list_with_app, Hm, IH. done.
Qed.

Lemma sum_list_modules (m : nn_Module) :
  sum_list (map numel (flat_map _parameters (modules m))) = total_numel m.
Proof.
  induction m as [c ps ch IH] using nn_Module_ind'.
  cbn [modules flat_map _parameters total_numel].
  rewrite map_app, sum_list_with_app. f_equal. apply sum_list_flat_map_modules, IH.
Qed.

Lemma parameter_ids_own (m : nn_Module) :
  NoDup (parameter_ids m) → NoDup (map p_id (_parameters m)).
Proof.
  unfold parameter_ids. destruct m as [c ps ch]. cbn [modules flat_map _parameters].
  rewrite map_app. apply NoDup_app.
Qed.




(** ** ShapeTracker *)

(** What [get_shape] does guarantee: an object without [shape] gives [None],
    a tensor its shape as a list, a dict keeps exactly the keys whose value
    does not resolve to [None]. *)
Lemma get_shape_object (tag : nat) : ShapeTracker.get_shape (PObject tag) = VNone.
Proof. reflexivity. Qed.

Lemma get_shape_tensor (shape : list nat) :
  ShapeTracker.get_shape (PTensor shape) = VList (map VInt shape).
Proof. reflexivity. Qed.

Lemma get_shape_dict (items : list (string * PyObj)) :
  ShapeTracker.get_shape (PDict items)
  = VDict (omap (λ kv, if is_not_None (ShapeTracker.get_shape kv.2)
                       then Some (kv.1, ShapeTracker.get_shape kv.2) else None) items).
Proof. reflexivity. Qed.

Lemma get_shape_tuple (es : list PyObj) :
  ShapeTracker.get_shape (PTuple es)
  = VTuple (List.filter truthy (map ShapeTracker.get_shape es)).
Proof. reflexivity. Qed.

(** C7: a tensor without dimensions has a shape, the empty list, and a dict
    keeps it; in a tuple or a list [filter(None, ...)] drops it with the
    elements that have no shape, because the empty list is false.  The same
    happens to an element that resolves to an empty tuple, list or dict. *)
Theorem get_shape_drops_empty_shape :
  ShapeTracker.get_shape (PTensor []) = VList []
  ∧ ShapeTracker.get_shape (PDict [("x", PTensor []); ("y", PObject 0)])
    = VDict [("x", VList [])]
  ∧ ShapeTracker.get_shape (PTuple [PTensor []; PTensor [7; 3]; PObject 0])
    = VTuple [VList [VInt 7; VInt 3]]
  ∧ ShapeTracker.get_shape (PList [PTuple []; PTensor [2]]) = VList [VList [VInt 2]].
Proof. repeat split. Qed.

(** ** _IDBasedWeakSet *)

Lemma alive_spec (h : gmap nat PyObject) (o : PyObject) :
  alive h o = true ↔ h !! py_id o = Some o.
Proof. unfold alive. apply bool_decide_eq_true. Qed.

Lemma alive_same_id (h : gmap nat PyObject) (x y : PyObject) :
  alive h x = true → alive h y = true → py_id x = py_id y → x = y.
Proof. rewrite !alive_spec. intros Hx Hy Hid. rewrite Hid in Hx. congruence. Qed.

Lemma contains_spec (h : gmap nat PyObject) (s : _IDBasedWeakSet.t) (x : PyObject) :
  _IDBasedWeakSet.__contains__ h s x = true
  ↔ _IDBasedWeakSet.data s !! py_id x = Some (WeakRef x) ∧ alive h x = true.
Proof.
  unfold _IDBasedWeakSet.__contains__.
  destruct (_IDBasedWeakSet.data s !! py_id x) as [[r]|] eqn:Hd; cbn [weakref_call].
  - destruct (alive h r) eqn:Hr.
    + rewrite bool_decide_eq_true. split.
      * intros ->. done.
      * intros [[= ->] _]. done.
    + split; [done|]. intros [[= ->] Hx]. congruence.
  - split; [done | intros [? _]; done].
Qed.

Lemma contains_false (h : gmap nat PyObject) (s : _IDBasedWeakSet.t) (x : PyObject) :
  _IDBasedWeakSet.__contains__ h s x = false
  ↔ ¬ (_IDBasedWeakSet.data s !! py_id x = Some (WeakRef x) ∧ alive h x = true).
Proof. rewrite <- contains_spec. destruct (_IDBasedWeakSet.__contains__ h s x); naive_solver. Qed.

(** C9: membership of [x] is true exactly when the weak reference stored under
    [id(x)] refers to [x] itself and [x] is alive; when the entry under the
    id of [y] refers to another object [x] whose id [y] has taken over, the
    test is false for [y], whatever has become of [x], and false for [x] once
    it is reclaimed. *)
Theorem contains_only_same_object
    (h : gmap nat PyObject) (s : _IDBasedWeakSet.t) (x y : PyObject) :
  (_IDBasedWeakSet.__contains__ h s x = true
   ↔ _IDBasedWeakSet.data s !! py_id x = Some (WeakRef x) ∧ alive h x = true)
  ∧ (_IDBasedWeakSet.data s !! py_id y = Some (WeakRef x) → x ≠ y →
     _IDBasedWeakSet.__contains__ h s y = false)
  ∧ (alive h x = false → _IDBasedWeakSet.__contains__ h s x = false).
Proof.
  split; [apply contains_spec|]. split.
  - intros Hd Hne. apply contains_false. intros [Hd' _]. congruence.
  - intros Hdead. apply contains_false. intros [_ Hx]. congruence.
Qed.

Lemma contains_only_same_object_witness :
  _IDBasedWeakSet.__contains__
    {[ 5 := MkObject 5 1 true ]}
    (_IDBasedWeakSet.Mk {[ 5 := WeakRef (MkObject 5 0 true) ]})
    (MkObject 5 1 true) = false.
Proof.
  apply (contains_only_same_object _ _ (MkObject 5 0 true) (MkObject 5 1 true)).
  - reflexivity.
  - discriminate.
Defined.

Lemma heap_step_serials (st st' : heap_state) (op : heap_op) :
  serials_used st → heap_step st op = Some st' → serials_used st'.
Proof.
  intros [Hh Hs] Hstep. destruct op as [o|o|o]; cbn [heap_step] in Hstep.
  - case_bool_decide as Hc; [|done]. destruct Hc as [Hfree Hser].
    injection Hstep as <-. split; cbn.
    + intros x Hx. apply alive_spec in Hx.
      destruct (decide (py_id o = py_id x)) as [Heq|Hne].
      * rewrite <- Heq, lookup_insert_eq in Hx. injection Hx as <-. lia.
      * rewrite lookup_insert_ne in Hx by done.
        apply alive_spec, Hh in Hx. lia.
    + intros k r Hk. apply Hs in Hk. lia.
  - destruct (alive (heap st) o) eqn:Ho; [|done]. injection Hstep as <-. split; cbn.
    + intros x Hx. apply alive_spec in Hx. apply lookup_delete_Some in Hx as [_ Hx].
      apply Hh, alive_spec, Hx.
    + exact Hs.
  - destruct (alive (heap st) o) eqn:Ho; [|done]. cbn in Hstep.
    destruct (weakrefable o); [|done]. injection Hstep as <-. split; cbn.
    + exact Hh.
    + intros k r Hk. destruct (decide (py_id o = k)) as [<-|Hne].
      * rewrite lookup_insert_eq in Hk. injection Hk as <-. apply Hh, Ho.
      * rewrite lookup_insert_ne in Hk by done. apply (Hs k r Hk).
Qed.

Lemma heap_step_contains (st st' : heap_state) (op : heap_op) (x : PyObject) :
  serials_used st → heap_step st op = Some st' →
  _IDBasedWeakSet.__contains__ (heap st') (wset st') x
  = membership_step x (_IDBasedWeakSet.__contains__ (heap st) (wset st) x) op.
Proof.
  intros [Hh Hs] Hstep. destruct op as [o|o|o]; cbn [heap_step membership_step] in *.
  - case_bool_decide as Hc; [|done]. destruct Hc as [Hfree Hser].
    injection Hstep as <-. cbn. apply eq_true_iff_eq. rewrite !contains_spec.
    split; intros [Hd Hx]; (split; [exact Hd|]); apply Hs in Hd;
      apply alive_spec; apply alive_spec in Hx.
    + destruct (decide (py_id o = py_id x)) as [Heq|Hne].
      * rewrite <- Heq, lookup_insert_eq in Hx. injection Hx as <-. lia.
      * by rewrite lookup_insert_ne in Hx.
    + destruct (decide (py_id o = py_id x)) as [Heq|Hne].
      * rewrite <- Heq in Hx. congruence.
      * by rewrite lookup_insert_ne.
  - destruct (alive (heap st) o) eqn:Ho; [|done]. injection Hstep as <-. cbn.
    case_bool_decide as Hox.
    + subst x. apply contains_false. intros [_ Hx]. apply alive_spec in Hx.
      by rewrite lookup_delete_eq in Hx.
    + apply eq_true_iff_eq. rewrite !contains_spec.
      split; intros [Hd Hx]; (split; [exact Hd|]); apply alive_spec; apply alive_spec in Hx.
      * by apply lookup_delete_Some in Hx as [_ Hx].
      * apply lookup_delete_Some. split; [|exact Hx]. intros Heq.
        apply Hox. apply (alive_same_id (heap st)); [exact Ho | by apply alive_spec | exact Heq].
  - destruct (alive (heap st) o) eqn:Ho; [|done]. cbn in Hstep.
    destruct (weakrefable o); [|done]. injection Hstep as <-. cbn.
    case_bool_decide as Hox.
    + subst x. apply contains_spec. cbn. by rewrite lookup_insert_eq.
    + apply eq_true_iff_eq. rewrite !contains_spec. cbn.
      destruct (decide (py_id o = py_id x)) as [Heq|Hne].
      * rewrite <- Heq, lookup_insert_eq. split.
        -- intros [[= ?] _]. done.
        -- intros [_ Hx]. exfalso. apply Hox.
           by apply (alive_same_id (heap st)).
      * by rewrite lookup_insert_ne.
Qed.

Lemma heap_run_contains (ops : list heap_op) (st st' : heap_state) (x : PyObject) :
  serials_used st → heap_run st ops = Some st' →
  _IDBasedWeakSet.__contains__ (heap st') (wset st') x
  = foldl (membership_step x) (_IDBasedWeakSet.__contains__ (heap st) (wset st) x) ops.
Proof.
  revert st. induction ops as [|op ops IH]; intros st Hinv Hrun; cbn in *.
  - by injection Hrun as <-.
  - destruct (heap_step st op) as [st1|] eqn:Hstep; [|done].
    rewrite (IH st1); [|by eapply heap_step_serials|done].
    f_equal. by apply heap_step_contains.
Qed.

Lemma added_and_alive_foldl (ops : list heap_op) (x : PyObject) :
  added_and_alive ops x = foldl (membership_step x) false ops.
Proof. reflexivity. Qed.

Lemma contains_delete_stale (h : gmap nat PyObject) (s : _IDBasedWeakSet.t)
    (k : nat) (r : weakref) (x : PyObject) :
  _IDBasedWeakSet.data s !! k = Some r → weakref_call h r = None →
  _IDBasedWeakSet.__contains__ h (_IDBasedWeakSet.Mk (delete k (_IDBasedWeakSet.data s))) x
  = _IDBasedWeakSet.__contains__ h s x.
Proof.
  intros Hk Hr. unfold _IDBasedWeakSet.__contains__. cbn.
  destruct (decide (k = py_id x)) as [->|Hne].
  - by rewrite lookup_delete_eq, Hk, Hr.
  - by rewrite lookup_delete_ne.
Qed.

(** C5: after any history of allocations, reclamations and [add]s, [x in s]
    is true exactly when [x] was added and has not been reclaimed since; so it
    is true right after [add(x)], and false once [x] is reclaimed, with no
    removal.  An entry whose referent is reclaimed counts as absent: deleting
    it changes no answer. *)
Theorem contains_iff_added_and_alive (ops : list heap_op) (st : heap_state) :
  heap_run heap_init ops = Some st →
  (∀ x, _IDBasedWeakSet.__contains__ (heap st) (wset st) x = added_and_alive ops x)
  ∧ (∀ x st', heap_step st (Add x) = Some st' →
       _IDBasedWeakSet.__contains__ (heap st') (wset st') x = true)
  ∧ (∀ x st', heap_step st (Reclaim x) = Some st' →
       _IDBasedWeakSet.data (wset st') = _IDBasedWeakSet.data (wset st)
       ∧ _IDBasedWeakSet.__contains__ (heap st') (wset st') x = false)
  ∧ (∀ k r x, _IDBasedWeakSet.data (wset st) !! k = Some r →
       weakref_call (heap st) r = None →
       _IDBasedWeakSet.__contains__ (heap st)
         (_IDBasedWeakSet.Mk (delete k (_IDBasedWeakSet.data (wset st)))) x
       = _IDBasedWeakSet.__contains__ (heap st) (wset st) x).
Proof.
  intros Hrun.
  assert (Hinit : serials_used heap_init).
  { split; cbn.
    - intros o Ho. apply alive_spec in Ho. by rewrite lookup_empty in Ho.
    - intros k r Hk. by rewrite lookup_empty in Hk. }
  assert (Hinv : serials_used st).
  { clear -Hrun Hinit. revert Hrun Hinit. generalize heap_init.
    induction ops as [|op ops IH]; intros st0 Hrun Hinv; cbn in Hrun.
    - by injection Hrun as <-.
    - destruct (heap_step st0 op) as [st1|] eqn:Hstep; [|done].
      apply (IH st1 Hrun). by eapply heap_step_serials. }
  split; [|split; [|split]].
  - intros x. rewrite added_and_alive_foldl.
    by rewrite (heap_run_contains ops heap_init st x Hinit Hrun).
  - intros x st' Hstep. rewrite (heap_step_contains st st' (Add x) x Hinv Hstep).
    cbn. by rewrite bool_decide_eq_true_2.
  - intros x st' Hstep. split.
    + cbn in Hstep. destruct (alive (heap st) x); [|done]. by injection Hstep as <-.
    + rewrite (heap_step_contains st st' (Reclaim x) x Hinv Hstep).
      cbn. by rewrite bool_decide_eq_true_2.
  - intros k r x. apply contains_delete_stale.
Qed.

(** The doctest of the class: [a] and [b] are added, then [a] is deleted. *)
Lemma contains_iff_added_and_alive_witness :
  _IDBasedWeakSet.__contains__
    {[ 20 := MkObject 20 1 true ]}
    (_IDBasedWeakSet.Mk {[ 10 := WeakRef (MkObject 10 0 true);
                           20 := WeakRef (MkObject 20 1 true) ]})
    (MkObject 20 1 true)
  = added_and_alive
      [Alloc (MkObject 10 0 true); Alloc (MkObject 20 1 true);
       Add (MkObject 10 0 true); Add (MkObject 20 1 true);
       Reclaim (MkObject 10 0 true)] (MkObject 20 1 true).
Proof.
  refine (proj1 (contains_iff_added_and_alive
           [Alloc (MkObject 10 0 true); Alloc (MkObject 20 1 true);
            Add (MkObject 10 0 true); Add (MkObject 20 1 true);
            Reclaim (MkObject 10 0 true)]
           (MkHeapState {[ 20 := MkObject 20 1 true ]} 2
              (_IDBasedWeakSet.Mk {[ 10 := WeakRef (MkObject 10 0 true);
                                     20 := WeakRef (MkObject 20 1 true) ]})) _)
           (MkObject 20 1 true)).
  vm_compute. reflexivity.
Defined.

(** ** track: the hooks of the session *)

Section SessionFacts.
Context {T SD : Type} `{!Tracker T SD} `{!Empty SD}.

(** C10: when [pre_hook] raises, the exception comes from the factory or
    from [tracker.pre], and the call stack and the result list are as before;
    when it returns, both calls have returned and the one new tracker is on
    top of the stack and at the end of the result list. *)
Theorem pre_hook_all_or_nothing (leaf : bool) (node : list nat) (module : nn_Module)
    (input : PyObj) (s s' : Session T SD) (r : exn + unit) :
  pre_hook leaf node module input s = (s', r) →
  match r with
  | inl e =>
      tracker_stack s' = tracker_stack s ∧ all_trackers s' = all_trackers s
      ∧ ((∃ sd1, tracker_factory (length (all_trackers s)) (length (tracker_stack s)) leaf
                   (shared_dict s) = (sd1, inl e))
         ∨ (∃ sd1 t sd2,
              tracker_factory (length (all_trackers s)) (length (tracker_stack s)) leaf
                (shared_dict s) = (sd1, inr t)
              ∧ tracker_pre t module input sd1 = (sd2, inl e)))
  | inr _ =>
      ∃ sd1 t sd2 t',
        tracker_factory (length (all_trackers s)) (length (tracker_stack s)) leaf
          (shared_dict s) = (sd1, inr t)
        ∧ tracker_pre t module input sd1 = (sd2, inr t')
        ∧ tracker_stack s' = tracker_stack s ++ [length (store s)]
        ∧ all_trackers s' = all_trackers s ++ [length (store s)]
        ∧ store s' !! length (store s)
          = Some (MkObj (length (all_trackers s)) (length (tracker_stack s)) leaf t')
  end.
Proof.
  unfold pre_hook. intros Hrun.
  destruct (tracker_factory _ _ _ _) as [sd1 [e|t]] eqn:Hf.
  - injection Hrun as <- <-. cbn. eauto.
  - destruct (tracker_pre t module input sd1) as [sd2 [e|t']] eqn:Hp.
    + injection Hrun as <- <-. cbn. split; [done|]. split; [done|]. right. eauto.
    + injection Hrun as <- <-. cbn. exists sd1, t, sd2, t'.
      repeat split; try done. by rewrite lookup_app_r, Nat.sub_diag.
Qed.

End SessionFacts.

(** [pre] of the faulty tracker raises for the second module: nothing is
    recorded. *)
Lemma pre_hook_all_or_nothing_witness :
  tracker_stack
    (@pre_hook nat (gmap string nat) faulty_Tracker true [0] ReLU (PTuple [PTensor [7]])
       (MkSession ∅ [MkObj 0 0 false 0] [0] [0] [EvPre [] 0])).1
  = [0]
  ∧ all_trackers
      (@pre_hook nat (gmap string nat) faulty_Tracker true [0] ReLU (PTuple [PTensor [7]])
         (MkSession ∅ [MkObj 0 0 false 0] [0] [0] [EvPre [] 0])).1
    = [0].
Proof.
  pose proof (@pre_hook_all_or_nothing nat (gmap string nat) faulty_Tracker
                true [0] ReLU (PTuple [PTensor [7]])
                (MkSession ∅ [MkObj 0 0 false 0] [0] [0] [EvPre [] 0])
                _ (inl (UserError 2)) eq_refl) as (Hstack & Hall & _).
  split; [exact Hstack | exact Hall].
Defined.

(** ** apply_filtered and the registry *)

Lemma apply_filtered_unfold {St : Type} (leaf_types : list string) (c : string)
    (ps : list nn_Parameter) (ch : list nn_Module) (node : list nat)
    (fn : list nat → bool → St → St) (st : St) :
  apply_filtered leaf_types (Mod c ps ch) node fn st
  = fn node (apply_filtered_loop leaf_types node fn ch 0 true st).1
            (apply_filtered_loop leaf_types node fn ch 0 true st).2.
Proof.
  cbn [apply_filtered]. fold (apply_filtered_loop leaf_types node fn).
  by destruct (apply_filtered_loop leaf_types node fn ch 0 true st).
Qed.

Lemma plan_unfold (leaf_types : list string) (c : string) (ps : list nn_Parameter)
    (ch : list nn_Module) :
  plan leaf_types (Mod c ps ch) = plan_loop leaf_types ch 0 ++ [([], bool_decide (ch = []))].
Proof. reflexivity. Qed.

Lemma foldl_ext_eq {A B : Type} (f g : A → B → A) (l : list B) (a : A) :
  (∀ a b, f a b = g a b) → foldl f a l = foldl g a l.
Proof. intros Hfg. revert a. induction l as [|b l IH]; intros a; cbn; [done|]. by rewrite Hfg, IH. Qed.

Section ApplyFiltered.
Context {St : Type} (leaf_types : list string) (fn : list nat → bool → St → St).

Lemma apply_filtered_loop_plan (node : list nat) (ms : list nn_Module) :
  Forall (λ m, ∀ node st,
            apply_filtered leaf_types m node fn st
            = foldl (plan_step fn node) st (plan leaf_types m)) ms →
  ∀ i b st,
    apply_filtered_loop leaf_types node fn ms i b st
    = (b && bool_decide (ms = []), foldl (plan_step fn node) st (plan_loop leaf_types ms i)).
Proof.
  induction 1 as [|c ms Hc _ IH]; intros i b st.
  - cbn. by rewrite andb_true_r.
  - cbn [apply_filtered_loop plan_loop]. fold (apply_filtered_loop leaf_types node fn).
    fold (plan_loop leaf_types). rewrite IH, foldl_app. cbn [andb].
    rewrite (bool_decide_eq_false_2 (c :: ms = [])) by done. rewrite andb_false_r.
    f_equal. f_equal. unfold is_leaf_kind.
    destruct (bool_decide (class_name c ∈ leaf_types)).
    + reflexivity.
    + rewrite Hc. rewrite (foldl_fmap (plan_step fn node)). apply foldl_ext_eq.
      intros a e. unfold plan_step. cbn. by rewrite <- app_assoc.
Qed.

Lemma apply_filtered_plan (m : nn_Module) (node : list nat) (st : St) :
  apply_filtered leaf_types m node fn st = foldl (plan_step fn node) st (plan leaf_types m).
Proof.
  revert node st. induction m as [c ps ch IH] using nn_Module_ind'. intros node st.
  rewrite apply_filtered_unfold, plan_unfold, foldl_app.
  rewrite (apply_filtered_loop_plan node ch IH). cbn. unfold plan_step at 2. cbn.
  rewrite app_nil_r. reflexivity.
Qed.

End ApplyFiltered.

(** *** Which nodes the plan hooks *)

Lemma filter_at_path_cons (i j : nat) (q : list nat) (l : list (list nat * bool)) :
  List.filter (at_path (j :: q)) (map (λ e, (i :: e.1, e.2)) l)
  = if bool_decide (i = j) then map (λ e, (i :: e.1, e.2)) (List.filter (at_path q) l) else [].
Proof.
  induction l as [|e l IH]; cbn [map List.filter].
  - by case_bool_decide.
  - rewrite IH. unfold at_path. cbn.
    case_bool_decide as Hij.
    + subst j. destruct (decide (e.1 = q)) as [Heq|Hne].
      * rewrite (bool_decide_eq_true_2 (i :: e.1 = i :: q)) by congruence.
        by rewrite (bool_decide_eq_true_2 (e.1 = q)).
      * rewrite (bool_decide_eq_false_2 (i :: e.1 = i :: q)) by congruence.
        by rewrite (bool_decide_eq_false_2 (e.1 = q)).
    + by rewrite bool_decide_eq_false_2 by congruence.
Qed.

Lemma plan_loop_filter_nil (leaf_types : list string) (ms : list nn_Module) (i : nat) :
  List.filter (at_path []) (plan_loop leaf_types ms i) = [].
Proof.
  revert i. induction ms as [|c ms IH]; intros i; [done|].
  cbn [plan_loop]. fold (plan_loop leaf_types). rewrite List.filter_app, IH, app_nil_r.
  destruct (is_leaf_kind leaf_types c); [done|].
  induction (plan leaf_types c) as [|e l IHl]; [done|]. cbn. exact IHl.
Qed.

Lemma plan_loop_filter (leaf_types : list string) (j : nat) (q : list nat)
    (ms : list nn_Module) :
  Forall (λ m, ∀ q, List.filter (at_path q) (plan leaf_types m) = hooking leaf_types m q) ms →
  ∀ i,
    List.filter (at_path (j :: q)) (plan_loop leaf_types ms i)
    = match (if bool_decide (i ≤ j) then ms !! (j - i) else None) with
      | Some c =>
          if is_leaf_kind leaf_types c
          then (if bool_decide (q = []) then [([j], true)] else [])
          else map (λ e, (j :: e.1, e.2)) (hooking leaf_types c q)
      | None => []
      end.
Proof.
  induction 1 as [|c ms Hc _ IH]; intros i.
  - cbn. by case_bool_decide.
  - cbn [plan_loop]. fold (plan_loop leaf_types). rewrite List.filter_app, IH.
    assert (Hseg : List.filter (at_path (j :: q))
                     (if is_leaf_kind leaf_types c then [([i], true)]
                      else map (λ e, (i :: e.1, e.2)) (plan leaf_types c))
                   = if bool_decide (i = j)
                     then (if is_leaf_kind leaf_types c
                           then (if bool_decide (q = []) then [([j], true)] else [])
                           else map (λ e, (j :: e.1, e.2)) (hooking leaf_types c q))
                     else []).
    { destruct (is_leaf_kind leaf_types c).
      - cbn. unfold at_path. cbn.
        destruct (decide (i = j)) as [->|Hij]; [destruct (decide (q = [])) as [->|Hq]|].
        + by rewrite !bool_decide_eq_true_2.
        + rewrite (bool_decide_eq_false_2 ([j] = j :: q)) by congruence.
          by rewrite (bool_decide_eq_false_2 (q = [])), bool_decide_eq_true_2.
        + rewrite (bool_decide_eq_false_2 ([i] = j :: q)) by congruence.
          by rewrite (bool_decide_eq_false_2 (i = j)).
      - rewrite filter_at_path_cons, Hc.
        destruct (decide (i = j)) as [->|Hij].
        + by rewrite bool_decide_eq_true_2.
        + by rewrite bool_decide_eq_false_2. }
    rewrite Hseg. clear Hseg.
    destruct (decide (i = j)) as [->|Hne].
    + rewrite bool_decide_eq_true_2 by done.
      rewrite (bool_decide_eq_false_2 (S j ≤ j)) by lia.
      rewrite (bool_decide_eq_true_2 (j ≤ j)) by done. rewrite Nat.sub_diag. cbn.
      by rewrite app_nil_r.
    + rewrite (bool_decide_eq_false_2 (i = j)) by done. cbn [app].
      destruct (decide (i ≤ j)) as [Hle|Hgt].
      * rewrite (bool_decide_eq_true_2 (S i ≤ j)) by lia.
        rewrite (bool_decide_eq_true_2 (i ≤ j)) by lia.
        replace (j - i) with (S (j - S i)) by lia. done.
      * rewrite (bool_decide_eq_false_2 (S i ≤ j)) by lia.
        by rewrite (bool_decide_eq_false_2 (i ≤ j)) by lia.
Qed.

Lemma plan_filter (leaf_types : list string) (m : nn_Module) (q : list nat) :
  List.filter (at_path q) (plan leaf_types m) = hooking leaf_types m q.
Proof.
  revert q. induction m as [c ps ch IH] using nn_Module_ind'. intros q.
  rewrite plan_unfold, List.filter_app. destruct q as [|j q].
  - rewrite plan_loop_filter_nil. cbn. unfold hooking, leaf_flag, no_children. cbn.
    by rewrite orb_false_r.
  - rewrite (plan_loop_filter leaf_types j q ch IH 0). cbn [List.filter at_path].
    rewrite bool_decide_eq_true_2 by lia. rewrite Nat.sub_0_r.
    replace (at_path (j :: q) ([], bool_decide (ch = []))) with false
      by (symmetry; by apply bool_decide_eq_false_2).
    rewrite app_nil_r. unfold hooking at 2. cbn [subtree below_leaf_kind children].
    destruct (ch !! j) as [c'|] eqn:Hj; [|done].
    destruct (is_leaf_kind leaf_types c') eqn:Hk.
    + destruct q as [|k q].
      * cbn. unfold leaf_flag. rewrite Hk. cbn. by rewrite orb_true_r.
      * rewrite bool_decide_eq_false_2 by done. cbn [orb]. by destruct (subtree c' (k :: q)).
    + unfold hooking. destruct q as [|k q].
      * cbn. unfold leaf_flag. rewrite Hk. cbn. by rewrite !orb_false_r.
      * cbn [orb]. destruct (subtree c' (k :: q)) as [m'|]; [|done].
        destruct (below_leaf_kind leaf_types c' (k :: q)); [done|].
        cbn. unfold leaf_flag. by rewrite !(bool_decide_eq_false_2 (_ :: _ = [])) by done.
Qed.

(** *** The registry after [apply_filtered] *)

Lemma register_hook_view (p : list nat) (b : bool) (st : Registry * list RemovableHandle) :
  pre_view (register_hook p b st).1 = pre_view st.1 ++ [(p, b)]
  ∧ post_view (register_hook p b st).1 = post_view st.1 ++ [p].
Proof. unfold pre_view, post_view. cbn. by rewrite !map_app. Qed.

Lemma register_plan_view (node : list nat) (l : list (list nat * bool))
    (st : Registry * list RemovableHandle) :
  pre_view (foldl (plan_step register_hook node) st l).1
  = pre_view st.1 ++ map (λ e, (node ++ e.1, e.2)) l
  ∧ post_view (foldl (plan_step register_hook node) st l).1
    = post_view st.1 ++ map (λ e, node ++ e.1) l.
Proof.
  revert st. induction l as [|e l IH]; intros st; cbn [foldl map].
  - by rewrite !app_nil_r.
  - destruct (IH (plan_step register_hook node st e)) as [-> ->].
    replace (plan_step register_hook node st e) with (register_hook (node ++ e.1) e.2 st)
      by reflexivity.
    destruct (register_hook_view (node ++ e.1) e.2 st) as [-> ->].
    by rewrite <- !app_assoc.
Qed.

Lemma pre_hooks_at_view (reg : Registry) (q : list nat) :
  map (λ e, (pre_module e, pre_leaf e)) (pre_hooks_at reg q)
  = List.filter (at_path q) (pre_view reg).
Proof. unfold pre_hooks_at, pre_view. by rewrite List.filter_map_swap. Qed.

Lemma post_hooks_at_view (reg : Registry) (q : list nat) :
  map post_module (post_hooks_at reg q)
  = List.filter (λ p, bool_decide (p = q)) (post_view reg).
Proof. unfold post_hooks_at, post_view. by rewrite List.filter_map_swap. Qed.

Lemma filter_at_path_fst (q : list nat) (l : list (list nat * bool)) :
  List.filter (λ p, bool_decide (p = q)) (map fst l) = map fst (List.filter (at_path q) l).
Proof. by rewrite List.filter_map_swap. Qed.

Lemma instrumented_view (net : nn_Module) (leaf_types : list string) (reg : Registry) :
  pre_view (instrumented net leaf_types reg) = pre_view reg ++ plan leaf_types net
  ∧ post_view (instrumented net leaf_types reg) = post_view reg ++ map fst (plan leaf_types net).
Proof.
  unfold instrumented. rewrite apply_filtered_plan.
  destruct (register_plan_view [] (plan leaf_types net) (reg, [])) as [-> ->]. cbn.
  split; f_equal.
  rewrite <- (map_id (plan leaf_types net)) at 2. apply map_ext. by intros [].
Qed.

Lemma instrumented_hooks_at (net : nn_Module) (leaf_types : list string) (reg : Registry)
    (q : list nat) :
  map (λ e, (pre_module e, pre_leaf e)) (pre_hooks_at (instrumented net leaf_types reg) q)
  = map (λ e, (pre_module e, pre_leaf e)) (pre_hooks_at reg q) ++ hooking leaf_types net q
  ∧ map post_module (post_hooks_at (instrumented net leaf_types reg) q)
    = map post_module (post_hooks_at reg q) ++ map fst (hooking leaf_types net q).
Proof.
  rewrite !pre_hooks_at_view, !post_hooks_at_view.
  destruct (instrumented_view net leaf_types reg) as [-> ->].
  by rewrite !List.filter_app, filter_at_path_fst, plan_filter.
Qed.

(** C4, as the code has it: a node of the tree is hooked once unless it lies
    below a node, other than the root, whose class is in [leaf_types], and is
    not hooked then; a hooked node other than the root is hooked as leaf
    exactly when it has no children or its class is in [leaf_types]; the root
    is hooked as leaf exactly when it has no children. *)
Theorem apply_filtered_leaf_classification (net : nn_Module) (leaf_types : list string)
    (q : list nat) (m : nn_Module) :
  subtree net q = Some m →
  map pre_leaf (pre_hooks_at (instrumented net leaf_types empty_registry) q)
  = (if below_leaf_kind leaf_types net q then []
     else [no_children m || (negb (bool_decide (q = [])) && is_leaf_kind leaf_types m)])
  ∧ length (post_hooks_at (instrumented net leaf_types empty_registry) q)
    = (if below_leaf_kind leaf_types net q then 0 else 1).
Proof.
  intros Hm.
  destruct (instrumented_hooks_at net leaf_types empty_registry q) as [Hpre Hpost].
  cbn in Hpre, Hpost. unfold hooking in Hpre, Hpost. rewrite Hm in Hpre, Hpost.
  split.
  - apply (f_equal (map snd)) in Hpre. rewrite map_map in Hpre. cbn in Hpre.
    etrans; [exact Hpre|]. by destruct (below_leaf_kind leaf_types net q).
  - apply (f_equal length) in Hpost. rewrite length_map in Hpost.
    rewrite Hpost. by destruct (below_leaf_kind leaf_types net q).
Qed.

(** With [leaf_types = (Sequential,)] the inner [Sequential] of the doctest
    network is hooked as leaf, and the [Linear] below it is not hooked. *)
Lemma apply_filtered_leaf_classification_witness :
  (map pre_leaf (pre_hooks_at (instrumented doctest_net ["Sequential"] empty_registry) [2])
   = [true]
   ∧ length (post_hooks_at (instrumented doctest_net ["Sequential"] empty_registry) [2]) = 1)
  ∧ (map pre_leaf (pre_hooks_at (instrumented doctest_net ["Sequential"] empty_registry) [2; 0])
     = []
     ∧ length (post_hooks_at (instrumented doctest_net ["Sequential"] empty_registry) [2; 0])
       = 0).
Proof.
  split.
  - apply (apply_filtered_leaf_classification doctest_net ["Sequential"] [2]
             (Sequential [Linear 2 3 1000 2; ReLU])).
    reflexivity.
  - apply (apply_filtered_leaf_classification doctest_net ["Sequential"] [2; 0]
             (Linear 2 3 1000 2)).
    reflexivity.
Defined.

(** C4 as the claim words it fails at the root and below a leaf class: the
    root of the doctest network has children and its class is in
    [leaf_types], and it is hooked with [leaf=False]; the [Linear] below the
    inner [Sequential] has no children and is not hooked as a leaf. *)
Lemma apply_filtered_root_counterexample :
  is_leaf_kind ["Sequential"] doctest_net = true
  ∧ map pre_leaf (pre_hooks_at (instrumented doctest_net ["Sequential"] empty_registry) [])
    ≠ [no_children doctest_net || is_leaf_kind ["Sequential"] doctest_net]
  ∧ subtree doctest_net [2; 0] = Some (Linear 2 3 1000 2)
  ∧ map pre_leaf (pre_hooks_at (instrumented doctest_net ["Sequential"] empty_registry) [2; 0])
    ≠ [no_children (Linear 2 3 1000 2) || is_leaf_kind ["Sequential"] (Linear 2 3 1000 2)].
Proof. vm_compute. repeat split; discriminate. Qed.

(** *** Removing the hooks *)








Section TrackFacts.
Context {T SD : Type} `{!Tracker T SD} `{!Empty SD}.


End TrackFacts.


(** ** Running the instrumented network *)

Lemma pop_snoc {A : Type} (l : list A) (x : A) : pop (l ++ [x]) = Some (l, x).
Proof. unfold pop. by rewrite reverse_snoc, reverse_involutive. Qed.

Lemma pop_nil {A : Type} : pop ([] : list A) = None.
Proof. reflexivity. Qed.

Lemma replay_snoc (evs : list Event) (ev : Event) :
  replay (evs ++ [ev]) = replay_step (replay evs) ev.
Proof. unfold replay. by rewrite foldl_snoc. Qed.

Lemma pre_trackers_snoc (evs : list Event) (ev : Event) :
  pre_trackers (evs ++ [ev])
  = pre_trackers evs ++ match ev with EvPre _ r => [r] | EvPost _ _ => [] end.
Proof. unfold pre_trackers. rewrite omap_app. by destruct ev. Qed.

Lemma count_post_snoc (evs : list Event) (ev : Event) :
  count_post (evs ++ [ev]) = count_post evs + (if is_pre ev then 0 else 1).
Proof.
  unfold count_post. rewrite List.filter_app, length_app. by destruct ev.
Qed.



Lemma strict_ancestors_snoc (node : list nat) (i : nat) :
  strict_ancestors (node ++ [i]) = strict_ancestors node ++ [node].
Proof.
  unfold strict_ancestors. rewrite length_app. cbn [length].
  rewrite Nat.add_1_r, seq_S, map_app. cbn. f_equal.
  - apply map_ext_in. intros k Hk%in_seq. by rewrite take_app_le by lia.
  - by rewrite take_app_length.
Qed.

Lemma hooked_ancestors_snoc (reg : Registry) (node : list nat) (i : nat) :
  hooked_ancestors reg (node ++ [i])
  = hooked_ancestors reg node + (if hooked reg node then 1 else 0).
Proof.
  unfold hooked_ancestors. rewrite strict_ancestors_snoc, List.filter_app, length_app.
  cbn. by destruct (hooked reg node).
Qed.

Lemma store_update_lookup {T : Type} (st : list (TrackerObj T)) (r r' : nat)
    (o o' o1 : TrackerObj T) :
  st !! r = Some o → st !! r' = Some o1 →
  t_count o' = t_count o → t_depth o' = t_depth o →
  ∃ o2, <[r := o']> st !! r' = Some o2 ∧ t_count o2 = t_count o1 ∧ t_depth o2 = t_depth o1.
Proof.
  intros Hr Hr' Hc Hd. destruct (decide (r = r')) as [<-|Hne].
  - exists o'. rewrite list_lookup_insert_eq by (by eapply lookup_lt_Some).
    replace o1 with o by congruence. done.
  - exists o1. by rewrite list_lookup_insert_ne.
Qed.

Section RunFacts.
Context {T SD : Type} `{!Tracker T SD}.
Variable reg : Registry.
Hypothesis Htotal : tracker_total (T:=T) (SD:=SD).

Lemma pre_hook_inv (leaf : bool) (node : list nat) (module : nn_Module) (input : PyObj)
    (s : Session T SD) :
  session_inv reg s → length (tracker_stack s) = hooked_ancestors reg node →
  ∃ s', pre_hook leaf node module input s = (s', inr ())
        ∧ session_inv reg s'
        ∧ tracker_stack s' = tracker_stack s ++ [length (store s)]
        ∧ (∀ open, replay (events s) = Some open →
                   replay (events s') = Some (open ++ [(node, length (store s))])).
Proof using Htotal.
  intros (H1 & (open & Hrep & Hmap) & H3 & H4 & H5 & H6) Hdepth.
  destruct Htotal as (Hf & Hp & _). unfold pre_hook.
  destruct (Hf (length (all_trackers s)) (length (tracker_stack s)) leaf (shared_dict s))
    as (sd1 & t & ->).
  destruct (Hp t module input sd1) as (sd2 & t' & ->).
  eexists. split; [reflexivity|]. cbn [tracker_stack events t_count t_depth t_leaf].
  split; [|split; [done|]].
  - unfold session_inv. cbn [all_trackers events tracker_stack store].
    split; [|split; [|split; [|split; [|split]]]].
    + by rewrite pre_trackers_snoc, H1.
    + exists (open ++ [(node, length (store s))]). rewrite replay_snoc, Hrep. cbn.
      by rewrite map_app, Hmap.
    + rewrite count_post_snoc, !length_app. cbn. lia.
    + intros i r [Hi|[Hlen Hi]]%lookup_app_Some.
      * destruct (H4 i r Hi) as (o & Ho & Hc). exists o. split; [|done].
        by apply lookup_app_l_Some.
      * apply list_lookup_singleton_Some in Hi as [Hi <-].
        eexists. split; [by rewrite lookup_app_r, Nat.sub_diag|]. cbn. lia.
    + intros k node' r [Hk|[Hlen Hk]]%lookup_app_Some.
      * destruct (H5 k node' r Hk) as (o & open' & Ho & Hr & Hd & Ha).
        exists o, open'. split; [by apply lookup_app_l_Some|].
        apply lookup_lt_Some in Hk. by rewrite take_app_le by lia.
      * apply list_lookup_singleton_Some in Hk as [Hk [= <- <-]].
        assert (k = length (events s)) as -> by lia.
        eexists _, open. split; [by rewrite lookup_app_r, Nat.sub_diag|].
        rewrite take_app_length. split; [done|]. cbn.
        rewrite <- Hmap, length_map in Hdepth |- *. done.
    + intros r [Hr|Hr]%elem_of_app; rewrite length_app; cbn.
      * apply H6 in Hr. lia.
      * apply list_elem_of_singleton in Hr as ->. lia.
  - intros open' Hrep'. rewrite replay_snoc, Hrep'. done.
Qed.

Lemma hook_inv (node : list nat) (module : nn_Module) (input output : PyObj)
    (s : Session T SD) (st0 : list nat) (r : nat) (open0 : list (list nat * nat)) :
  session_inv reg s → tracker_stack s = st0 ++ [r] →
  replay (events s) = Some (open0 ++ [(node, r)]) →
  ∃ s', hook node module input output s = (s', inr ())
        ∧ session_inv reg s'
        ∧ tracker_stack s' = st0
        ∧ replay (events s') = Some open0.
Proof using Htotal.
  intros (H1 & (open & Hrep & Hmap) & H3 & H4 & H5 & H6) Hstack Hrep0.
  destruct Htotal as (_ & _ & Hq). unfold hook. rewrite Hstack, pop_snoc.
  assert (is_Some (store s !! r)) as [o Ho].
  { apply lookup_lt_is_Some, H6. rewrite Hstack, elem_of_app. right. by left. }
  rewrite Ho.
  destruct (Hq (t_self o) module input output (shared_dict s)) as (sd' & t' & ->).
  assert (Hnew : replay (events s ++ [EvPost node r]) = Some open0).
  { rewrite replay_snoc, Hrep0. cbn. rewrite pop_snoc. by rewrite bool_decide_eq_true_2. }
  eexists. split; [reflexivity|]. cbn [tracker_stack events].
  split; [|split; done].
  unfold session_inv. cbn [all_trackers events tracker_stack store].
  rewrite Hrep in Hrep0. injection Hrep0 as ->.
  rewrite map_app in Hmap. cbn in Hmap. rewrite Hstack in Hmap.
  apply app_inj_tail in Hmap as [Hmap _].
  split; [|split; [|split; [|split; [|split]]]].
  - by rewrite pre_trackers_snoc, app_nil_r.
  - by exists open0.
  - rewrite count_post_snoc. rewrite Hstack, length_app in H3. cbn in *. lia.
  - intros i r' Hi. destruct (H4 i r' Hi) as (o1 & Ho1 & Hc).
    destruct (store_update_lookup (store s) r r' o
                (MkObj (t_count o) (t_depth o) (t_leaf o) t') o1 Ho Ho1 eq_refl eq_refl)
      as (o2 & Ho2 & Hc2 & _).
    exists o2. split; [done|]. lia.
  - intros k node' r' [Hk|[Hlen Hk]]%lookup_app_Some.
    + destruct (H5 k node' r' Hk) as (o1 & open' & Ho1 & Hr & Hd & Ha).
      destruct (store_update_lookup (store s) r r' o
                  (MkObj (t_count o) (t_depth o) (t_leaf o) t') o1 Ho Ho1 eq_refl eq_refl)
        as (o2 & Ho2 & _ & Hd2).
      exists o2, open'. split; [done|].
      apply lookup_lt_Some in Hk. rewrite take_app_le by lia.
      split; [done|]. split; congruence.
    + by apply list_lookup_singleton_Some in Hk as [_ ?].
  - intros r' Hr'. rewrite length_insert. apply H6. rewrite Hstack, elem_of_app. by left.
Qed.

End RunFacts.

Section CallFacts.
Context {T SD : Type} `{!Tracker T SD}.
Variable reg : Registry.
Variable fwd : nn_Module → PyObj → exn + PyObj.
Hypothesis Htotal : tracker_total (T:=T) (SD:=SD).
Hypothesis Hfwd : forward_total fwd.
Hypothesis Hpaired : paired reg.

Lemma call_unfold (c : string) (ps : list nn_Parameter) (ch : list nn_Module)
    (node : list nat) (x : PyObj) :
  call (T:=T) (SD:=SD) reg fwd (Mod c ps ch) node x
  = (_ <- for_each (λ e, pre_hook (pre_leaf e) node (Mod c ps ch) (PTuple [x]))
                   (pre_hooks_at reg node) ;;
     output <- match ch with
               | [] => λ s, (s, fwd (Mod c ps ch) x)
               | _ => forward_children reg fwd node ch 0 x
               end ;;
     _ <- for_each (λ _, hook node (Mod c ps ch) (PTuple [x]) output)
                   (post_hooks_at reg node) ;;
     ret output).
Proof. by destruct ch. Qed.



End CallFacts.

(** *** One session over the whole network *)

Lemma hooking_length (leaf_types : list string) (net : nn_Module) (q : list nat) :
  length (hooking leaf_types net q) ≤ 1.
Proof.
  unfold hooking. destruct (subtree net q); [|cbn; lia].
  destruct (below_leaf_kind leaf_types net q); cbn; lia.
Qed.

Lemma instrumented_paired (net : nn_Module) (leaf_types : list string) :
  paired (instrumented net leaf_types empty_registry).
Proof.
  intros q. destruct (instrumented_hooks_at net leaf_types empty_registry q) as [Hpre Hpost].
  apply (f_equal length) in Hpre, Hpost. cbn in Hpre, Hpost.
  rewrite !length_map in Hpre, Hpost. rewrite Hpre, Hpost.
  split; [apply length_map | apply hooking_length].
Qed.

Lemma session_inv_init {T SD : Type} (reg : Registry) (sd : SD) :
  session_inv (T:=T) reg (MkSession sd [] [] [] []).
Proof.
  unfold session_inv. cbn. repeat split; try done.
  - by exists [].
  - intros r Hr. by apply elem_of_nil in Hr.
Qed.

Section TrackRun.
Context {T SD : Type} `{!Tracker T SD} `{!Empty SD}.




End TrackRun.

Lemma base_Tracker_total {SD : Type} : tracker_total (T:=nat * nat * bool) (SD:=SD).
Proof. repeat split; intros; eexists _, _; reflexivity. Qed.

Lemma doctest_fwd_total : forward_total doctest_fwd.
Proof.
  intros m x. unfold doctest_fwd. destruct x as [| | |[|b sh]|]; try by eexists.
  destruct (_parameters m) as [|? [|? [|? ?]]]; by eexists.
Qed.



(** ** tracker_list *)

Section TrackerListFacts.
Context {W D : Type} `{!Empty D}.

Lemma setdefault_spec (i : nat) (sd sd1 : gmap nat D) (sub : D) :
  TrackerList.setdefault i sd = (sd1, sub) →
  sub = default ∅ (sd !! i) ∧ sd1 !! i = Some sub ∧ ∀ j, j ≠ i → sd1 !! j = sd !! j.
Proof.
  unfold TrackerList.setdefault. destruct (sd !! i) as [d|] eqn:Hi; intros [= <- <-].
  - done.
  - split; [done|]. split; [apply lookup_insert_eq|].
    intros j Hj. by apply lookup_insert_ne.
Qed.

Lemma build_spec (tfs : list (Tracker W D)) (count depth : nat) (leaf : bool) :
  ∀ i acc sd sd' insts,
    TrackerList.build tfs i count depth leaf acc sd = (sd', inr insts) →
    ∃ news,
      insts = acc ++ news
      ∧ length news = length tfs
      ∧ (∀ k tf, tfs !! k = Some tf →
           ∃ sub' w,
             @tracker_factory W D tf count depth leaf (default ∅ (sd !! (i + k))) = (sub', inr w)
             ∧ news !! k = Some (tf, w)
             ∧ sd' !! (i + k) = Some sub')
      ∧ (∀ j, j < i ∨ i + length tfs ≤ j → sd' !! j = sd !! j).
Proof.
  induction tfs as [|tf tfs IH]; intros i acc sd sd' insts Hb; cbn [TrackerList.build] in Hb.
  - injection Hb as <- <-. exists []. rewrite app_nil_r. repeat split; try done.
  - destruct (TrackerList.setdefault i sd) as [sd1 sub] eqn:Hsd.
    apply setdefault_spec in Hsd as (-> & Hsub & Hother).
    destruct (@tracker_factory W D tf count depth leaf (default ∅ (sd !! i)))
      as [sub' [e|w]] eqn:Hf; [done|].
    apply IH in Hb as (news & -> & Hlen & Hk & Hframe).
    exists ((tf, w) :: news). rewrite <- app_assoc. cbn [app length].
    split; [done|]. split; [by rewrite Hlen|]. split.
    + intros [|k] tf' Htf; cbn in Htf.
      * injection Htf as <-. rewrite Nat.add_0_r. exists sub', w.
        split; [done|]. split; [done|].
        rewrite Hframe by lia. apply lookup_insert_eq.
      * destruct (Hk k tf' Htf) as (sub'' & w' & Hf' & Hn & Hs).
        replace (S i + k) with (i + S k) in Hf', Hs by lia.
        rewrite lookup_insert_ne, Hother in Hf' by lia.
        exists sub'', w'. done.
    + intros j Hj. rewrite Hframe by lia.
      rewrite lookup_insert_ne by lia. apply Hother. lia.
Qed.

Lemma fan_out_spec (method : Tracker W D → W → D → D * (exn + W))
    (insts : list (Tracker W D * W)) :
  (∀ k cls w, insts !! k = Some (cls, w) → ∀ d, ∃ d' w', method cls w d = (d', inr w')) →
  ∀ i sd,
    ∃ sd' insts',
      TrackerList.fan_out method insts i sd = (sd', seq i (length insts), inr insts')
      ∧ (∀ k cls w, insts !! k = Some (cls, w) →
           ∃ sub' w', method cls w (default ∅ (sd !! (i + k))) = (sub', inr w')
                      ∧ insts' !! k = Some (cls, w')
                      ∧ sd' !! (i + k) = Some sub')
      ∧ (∀ j, j < i ∨ i + length insts ≤ j → sd' !! j = sd !! j).
Proof.
  induction insts as [|[cls w] insts IH]; intros Htot i sd; cbn [TrackerList.fan_out].
  - exists sd, []. repeat split; try done.
  - destruct (Htot 0 cls w eq_refl (default ∅ (sd !! i))) as (sub' & w' & Hm). rewrite Hm.
    destruct (IH (λ k, Htot (S k)) (S i) (<[i := sub']> sd))
      as (sd' & insts' & -> & Hk & Hframe).
    exists sd', ((cls, w') :: insts'). split; [done|]. split.
    + intros [|k] cls' w0 Hl; cbn in Hl.
      * injection Hl as <- <-. rewrite Nat.add_0_r. exists sub', w'.
        split; [done|]. split; [done|]. rewrite Hframe by lia. apply lookup_insert_eq.
      * destruct (Hk k cls' w0 Hl) as (sub'' & w'' & Hm' & Hn & Hs).
        replace (S i + k) with (i + S k) in Hm', Hs by lia.
        rewrite lookup_insert_ne in Hm' by lia. exists sub'', w''. done.
    + intros j Hj. cbn [length] in Hj. rewrite Hframe by lia. apply lookup_insert_ne. lia.
Qed.

(** Also when a wrapped method raises, the calls made are the first ones, in
    the order of the positions. *)
Lemma fan_out_calls_prefix (method : Tracker W D → W → D → D * (exn + W))
    (insts : list (Tracker W D * W)) (i : nat) (sd : gmap nat D) :
  ∃ n, (TrackerList.fan_out method insts i sd).1.2 = seq i n ∧ n ≤ length insts.
Proof.
  revert i sd. induction insts as [|[cls w] insts IH]; intros i sd; cbn [TrackerList.fan_out].
  - exists 0. done.
  - destruct (method cls w (default ∅ (sd !! i))) as [sub' [e|w']].
    + exists 1. cbn. split; [done|lia].
    + destruct (IH (S i) (<[i := sub']> sd)) as (n & Hn & Hle).
      destruct (TrackerList.fan_out method insts (S i) (<[i:=sub']> sd)) as [[sd' calls] [e|r]];
        cbn in *; exists (S n); rewrite Hn; (split; [done|lia]).
Qed.

Lemma getitem_lookup (self : @TrackerList.t W D) (i : nat) (cls : Tracker W D) (w : W) :
  TrackerList.instances self !! i = Some (cls, w) →
  TrackerList.__getitem__ self (Z.of_nat i) = inr w
  ∧ TrackerList.__getitem__ self
      (Z.of_nat i - Z.of_nat (length (TrackerList.instances self))) = inr w.
Proof.
  intros Hi. pose proof (lookup_lt_Some _ _ _ Hi) as Hlt. unfold TrackerList.__getitem__.
  split.
  - rewrite (proj2 (Z.ltb_ge _ _)) by lia.
    rewrite (proj2 (Z.leb_le _ _)) by lia. rewrite (proj2 (Z.ltb_lt _ _)) by lia.
    cbn. by rewrite Nat2Z.id, Hi.
  - rewrite (proj2 (Z.ltb_lt _ 0)) by lia.
    replace (Z.of_nat i - Z.of_nat (length (TrackerList.instances self))
             + Z.of_nat (length (TrackerList.instances self)))%Z with (Z.of_nat i) by lia.
    rewrite (proj2 (Z.leb_le _ _)) by lia. rewrite (proj2 (Z.ltb_lt _ _)) by lia.
    cbn. by rewrite Nat2Z.id, Hi.
Qed.

Lemma fans_out_total (method : Tracker W D → W → D → D * (exn + W))
    (self : @TrackerList.t W D) (sd : gmap nat D) :
  (∀ k cls w, TrackerList.instances self !! k = Some (cls, w) →
              ∀ d, ∃ d' w', method cls w d = (d', inr w')) →
  fans_out method self sd
    (match TrackerList.fan_out method (TrackerList.instances self) 0 sd with
     | (sd', _, inl e) => (sd', inl e)
     | (sd', _, inr insts) => (sd', inr (TrackerList.Mk insts))
     end).
Proof.
  intros Htot.
  destruct (fan_out_spec method (TrackerList.instances self) Htot 0 sd)
    as (sd' & insts' & Hrun & Hk & _).
  exists sd', insts'. rewrite Hrun. done.
Qed.

(** C6: an instance constructed by the combined class has one wrapped
    instance per factory, in the order of the factories; the wrapped instance
    at position [i] was constructed by factory [i] with the arguments of the
    combined instance and the sub dict at key [i] of the shared dict, and only
    it has changed that sub dict; when the methods of the wrapped instances do
    not raise, [pre] and [post] call the method of every wrapped instance in
    the order of the positions, each on its own sub dict; [self[i]] is the
    wrapped instance at position [i]. *)
Theorem tracker_list_fan_out (tracker_factories : list (Tracker W D))
    (count depth : nat) (leaf : bool) (shared_dict sd' : gmap nat D)
    (self : @TrackerList.t W D)
    (module : nn_Module) (input output : PyObj) (sd0 : gmap nat D) :
  @tracker_factory _ _ (tracker_list tracker_factories) count depth leaf shared_dict
  = (sd', inr self) →
  wrapped_total self →
  (length (TrackerList.instances self) = length tracker_factories
   ∧ (∀ i tf, tracker_factories !! i = Some tf →
        ∃ sub' w,
          @tracker_factory W D tf count depth leaf (default ∅ (shared_dict !! i))
          = (sub', inr w)
          ∧ TrackerList.instances self !! i = Some (tf, w)
          ∧ sd' !! i = Some sub')
   ∧ (∀ j, length tracker_factories ≤ j → sd' !! j = shared_dict !! j))
  ∧ fans_out (λ cls w, @tracker_pre W D cls w module input) self sd0
      (@tracker_pre _ _ (tracker_list tracker_factories) self module input sd0)
  ∧ fans_out (λ cls w, @tracker_post W D cls w module input output) self sd0
      (@tracker_post _ _ (tracker_list tracker_factories) self module input output sd0)
  ∧ (∀ i cls w, TrackerList.instances self !! i = Some (cls, w) →
       TrackerList.__getitem__ self (Z.of_nat i) = inr w).
Proof.
  cbn [tracker_factory tracker_pre tracker_post tracker_list].
  unfold TrackerList.__init__, TrackerList.pre, TrackerList.post.
  intros Hinit Htot.
  destruct (TrackerList.build tracker_factories 0 count depth leaf [] shared_dict)
    as [sd1 [e|insts]] eqn:Hb; [done|]. injection Hinit as <- <-.
  apply build_spec in Hb as (news & -> & Hlen & Hk & Hframe). cbn [app] in *.
  split; [|split; [|split]].
  - split; [done|]. split; [exact Hk|]. intros j Hj. apply Hframe. lia.
  - apply fans_out_total. intros k cls w Hl d. by destruct (Htot k cls w Hl) as [Hp _].
  - apply fans_out_total. intros k cls w Hl d. by destruct (Htot k cls w Hl) as [_ Hq].
  - intros i cls w Hl. by apply (getitem_lookup (TrackerList.Mk news) i cls w).
Qed.

End TrackerListFacts.

(** [tracker_list(ShapeTracker, ParameterTracker)] at the root of the doctest
    network. *)
Lemma tracker_list_fan_out_witness :
  fans_out (λ cls w, @tracker_pre _ _ cls w doctest_net (PTuple [PTensor [7; 3]]))
    (TrackerList.Mk [(Shape_cls, inl (ShapeTracker.__init__ 0 0 false));
                     (Param_cls, inr (ParameterTracker.__init__ 0 0 false))])
    (<[1 := ∅]> (<[0 := ∅]> ∅))
    (TrackerList.pre
       (TrackerList.Mk [(Shape_cls, inl (ShapeTracker.__init__ 0 0 false));
                        (Param_cls, inr (ParameterTracker.__init__ 0 0 false))])
       doctest_net (PTuple [PTensor [7; 3]]) (<[1 := ∅]> (<[0 := ∅]> ∅)))
  ∧ TrackerList.__getitem__
      (TrackerList.Mk [(Shape_cls, inl (ShapeTracker.__init__ 0 0 false));
                       (Param_cls, inr (ParameterTracker.__init__ 0 0 false))]) 1
    = inr (inr (ParameterTracker.__init__ 0 0 false)).
Proof.
  assert (Heq : @tracker_factory _ _ (tracker_list [Shape_cls; Param_cls]) 0 0 false ∅
                = (<[1 := ∅]> (<[0 := ∅]> ∅),
                   inr (TrackerList.Mk
                          [(Shape_cls, inl (ShapeTracker.__init__ 0 0 false));
                           (Param_cls, inr (ParameterTracker.__init__ 0 0 false))]))).
  { vm_compute. reflexivity. }
  assert (Htot : wrapped_total
                   (TrackerList.Mk
                      [(Shape_cls, inl (ShapeTracker.__init__ 0 0 false));
                       (Param_cls, inr (ParameterTracker.__init__ 0 0 false))])).
  { intros [|[|i]] cls w Hl; cbn in Hl; [| |discriminate];
      injection Hl as <- <-; split; intros; eexists _, _; reflexivity. }
  pose proof (tracker_list_fan_out [Shape_cls; Param_cls] 0 0 false ∅ _ _
                doctest_net (PTuple [PTensor [7; 3]]) (PTensor [7; 2])
                (<[1 := ∅]> (<[0 := ∅]> ∅)) Heq Htot) as (_ & Hpre & _ & Hget).
  split; [exact Hpre | exact (Hget 1 Param_cls _ eq_refl)].
Defined.

(** ** The doctests of the source, run on the embedding *)

Example doctest_track_ShapeTracker :
  doctest_ShapeTracker.2 = inr (PTensor [7; 2])
  ∧ map (λ o, (t_count o, t_depth o, ShapeTracker.module_name (t_self o),
               ShapeTracker.input_shape (t_self o), ShapeTracker.output_shape (t_self o)))
        (store (session doctest_ShapeTracker.1))
    = [(0, 0, Some "Sequential", Some (VTuple [VList [VInt 7; VInt 3]]),
        Some (VList [VInt 7; VInt 2]));
       (1, 1, Some "Linear", Some (VTuple [VList [VInt 7; VInt 3]]),
        Some (VList [VInt 7; VInt 1000]));
       (2, 1, Some "ReLU", Some (VTuple [VList [VInt 7; VInt 1000]]),
        Some (VList [VInt 7; VInt 1000]));
       (3, 1, Some "Sequential", Some (VTuple [VList [VInt 7; VInt 1000]]),
        Some (VList [VInt 7; VInt 2]));
       (4, 2, Some "Linear", Some (VTuple [VList [VInt 7; VInt 1000]]),
        Some (VList [VInt 7; VInt 2]));
       (5, 2, Some "ReLU", Some (VTuple [VList [VInt 7; VInt 2]]),
        Some (VList [VInt 7; VInt 2]))]
  ∧ all_trackers (session doctest_ShapeTracker.1) = [0; 1; 2; 3; 4; 5]
  ∧ _forward_pre_hooks (registry doctest_ShapeTracker.1) = []
  ∧ _forward_hooks (registry doctest_ShapeTracker.1) = [].
Proof. vm_compute. repeat split; reflexivity. Qed.

Example doctest_track_ParameterTracker :
  map (λ o, ParameterTracker.num_params (t_self o))
      (store (session doctest_ParameterTracker.1))
  = [Some 0; Some 4000; Some 0; Some 0; Some 2002; Some 0].
Proof. vm_compute. reflexivity. Qed.

(** [a in s, b in s] before and after [s.add(a)], [s.add(b)] and [del a];
    then an object that takes over the address of [a]. *)
Example doctest_IDBasedWeakSet :
  let a := MkObject 10 0 true in
  let b := MkObject 20 1 true in
  let c := MkObject 10 2 true in
  let member ops x :=
    (λ st, _IDBasedWeakSet.__contains__ (heap st) (wset st) x) <$> heap_run heap_init ops in
  member [Alloc a; Alloc b] a = Some false
  ∧ member [Alloc a; Alloc b] b = Some false
  ∧ member [Alloc a; Alloc b; Add a] a = Some true
  ∧ member [Alloc a; Alloc b; Add a] b = Some false
  ∧ member [Alloc a; Alloc b; Add a; Add b] b = Some true
  ∧ member [Alloc a; Alloc b; Add a; Add b; Reclaim a] a = Some false
  ∧ member [Alloc a; Alloc b; Add a; Add b; Reclaim a; Alloc c] c = Some false
  ∧ member [Alloc a; Alloc b; Add a; Add b; Reclaim a; Alloc c] b = Some true.
Proof. vm_compute. repeat split; reflexivity. Qed.

(** The faulty tracker: the exception of [tracker.pre] leaves the session, one
    tracker is recorded, and no hook stays behind. *)
Example faulty_session_result :
  faulty_session.2 = inl (UserError 2)
  ∧ all_trackers (session faulty_session.1) = [0]
  ∧ tracker_stack (session faulty_session.1) = [0]
  ∧ _forward_pre_hooks (registry faulty_session.1) = []
  ∧ _forward_hooks (registry faulty_session.1) = [].
Proof. vm_compute. repeat split; reflexivity. Qed.

(** * Further properties *)

(** ** ShapeTracker.get_shape *)

Lemma PyObj_ind' (P : PyObj → Prop) :
  (∀ es, Forall P es → P (PTuple es)) →
  (∀ es, Forall P es → P (PList es)) →
  (∀ items, Forall (λ kv, P kv.2) items → P (PDict items)) →
  (∀ shape, P (PTensor shape)) →
  (∀ tag, P (PObject tag)) →
  ∀ obj, P obj.
Proof.
  intros Ht Hl Hd Hs Ho. fix IH 1. intros [es|es|items|shape|tag].
  - apply Ht. induction es as [|e es IHes]; constructor; [apply IH | exact IHes].
  - apply Hl. induction es as [|e es IHes]; constructor; [apply IH | exact IHes].
  - apply Hd. induction items as [|[k v] items IHi]; constructor; [apply IH | exact IHi].
  - apply Hs.
  - apply Ho.
Qed.

Lemma get_shape_not_None (obj : PyObj) :
  is_not_None (ShapeTracker.get_shape obj) = negb (shapeless obj).
Proof. by destruct obj. Qed.

Lemma filter_nonempty_existsb {A : Type} (f : A → bool) (l : list A) :
  negb (bool_decide (length (List.filter f l) = 0)) = existsb f l.
Proof.
  induction l as [|a l IH]; [done|]. cbn. destruct (f a); [done|]. exact IH.
Qed.

Lemma truthy_get_shape (obj : PyObj) :
  truthy (ShapeTracker.get_shape obj) = keeps obj.
Proof.
  induction obj as [es IH|es IH|items IH|shape|tag] using PyObj_ind'; cbn.
  - rewrite List.filter_map_swap, length_map, filter_nonempty_existsb.
    induction IH as [|e es He _ IHes]; [done|]. cbn. by rewrite He, IHes.
  - rewrite List.filter_map_swap, length_map, filter_nonempty_existsb.
    induction IH as [|e es He _ IHes]; [done|]. cbn. by rewrite He, IHes.
  - clear IH. induction items as [|[k v] items IHi]; [done|]. cbn.
    rewrite get_shape_not_None. destruct (shapeless v); cbn; [exact IHi|done].
  - by rewrite length_map.
  - done.
Qed.

Lemma filter_truthy_get_shape (es : list PyObj) :
  List.filter truthy (map ShapeTracker.get_shape es)
  = map ShapeTracker.get_shape (List.filter keeps es).
Proof.
  rewrite List.filter_map_swap. f_equal. apply List.filter_ext. intros e. apply truthy_get_shape.
Qed.

(** X1: the elements that [get_shape] drops from a tuple or list are exactly
    those that are shapeless objects, tensors without dimensions, sequences
    that keep no element, or dicts with only shapeless values; the others
    stay, in order. *)
Theorem get_shape_sequence_keeps (es : list PyObj) :
  ShapeTracker.get_shape (PTuple es)
  = VTuple (map ShapeTracker.get_shape (List.filter keeps es))
  ∧ ShapeTracker.get_shape (PList es)
    = VList (map ShapeTracker.get_shape (List.filter keeps es))
  ∧ (∀ e, truthy (ShapeTracker.get_shape e) = keeps e).
Proof.
  split; [|split].
  - cbn. by rewrite filter_truthy_get_shape.
  - cbn. by rewrite filter_truthy_get_shape.
  - apply truthy_get_shape.
Qed.

(** X2: a dict result has exactly the keys whose value is not a shapeless
    object, in the order of the dict, each with the resolved value; so a key
    whose value is a tensor without dimensions or an empty sequence stays. *)
Theorem get_shape_dict_keys (items : list (string * PyObj)) :
  ShapeTracker.get_shape (PDict items)
  = VDict (map (λ kv, (kv.1, ShapeTracker.get_shape kv.2))
               (List.filter (λ kv, negb (shapeless kv.2)) items)).
Proof.
  cbn. f_equal. induction items as [|[k v] items IH]; [done|]. cbn.
  rewrite get_shape_not_None. destruct (shapeless v); cbn; by rewrite IH.
Qed.

Lemma truthy_filled (v : PyVal) : truthy v = true → filled v = true.
Proof. by destruct v. Qed.

(** X3: whatever the object, the result of [get_shape] is clean: no tuple or
    list in it, at any depth, holds [None] or an empty tuple, list or dict,
    and no dict in it holds [None]. *)
Theorem get_shape_clean (obj : PyObj) : clean (ShapeTracker.get_shape obj) = true.
Proof.
  induction obj as [es IH|es IH|items IH|shape|tag] using PyObj_ind'; cbn.
  - induction IH as [|e es He _ IHes]; [done|]. cbn.
    destruct (truthy (ShapeTracker.get_shape e)) eqn:Ht; [|exact IHes].
    cbn. by rewrite (truthy_filled _ Ht), He, IHes.
  - induction IH as [|e es He _ IHes]; [done|]. cbn.
    destruct (truthy (ShapeTracker.get_shape e)) eqn:Ht; [|exact IHes].
    cbn. by rewrite (truthy_filled _ Ht), He, IHes.
  - induction IH as [|[k v] items Hv _ IHi]; [done|]. cbn in *.
    destruct (is_not_None (ShapeTracker.get_shape v)) eqn:Hn; [|exact IHi].
    cbn. by rewrite Hn, Hv, IHi.
  - induction shape as [|n shape IHs]; [done|]. cbn. exact IHs.
  - done.
Qed.


(** ** _IDBasedWeakSet: construction and [add] *)

Lemma add_contains (h : gmap nat PyObject) (s s' : _IDBasedWeakSet.t) (x y : PyObject) :
  _IDBasedWeakSet.add s (Some y) = inr s' → alive h y = true → alive h x = true →
  (_IDBasedWeakSet.__contains__ h s' x = true
   ↔ x = y ∨ _IDBasedWeakSet.__contains__ h s x = true).
Proof.
  unfold _IDBasedWeakSet.add. destruct (weakrefable y); [|done]. intros [= <-] Hy Hx.
  rewrite !contains_spec. cbn. destruct (decide (py_id y = py_id x)) as [Heq|Hne].
  - assert (x = y) as -> by (by apply (alive_same_id h)).
    rewrite lookup_insert_eq. naive_solver.
  - rewrite lookup_insert_ne by done. naive_solver.
Qed.

Lemma add_all_contains (h : gmap nat PyObject) (items : list (option PyObject)) :
  ∀ s s', _IDBasedWeakSet.add_all s items = inr s' →
    (∀ y, Some y ∈ items → alive h y = true) →
    ∀ x, alive h x = true →
      (_IDBasedWeakSet.__contains__ h s' x = true
       ↔ Some x ∈ items ∨ _IDBasedWeakSet.__contains__ h s x = true).
Proof.
  induction items as [|i items IH]; intros s s' Hall Halive x Hx; cbn in Hall.
  - injection Hall as <-. rewrite elem_of_nil. naive_solver.
  - destruct (_IDBasedWeakSet.add s i) as [e|s1] eqn:Hadd; [done|].
    destruct i as [y|]; [|done].
    assert (Hitems : ∀ z, Some z ∈ items → alive h z = true).
    { intros z Hz. apply Halive. by right. }
    assert (Hy : alive h y = true) by (apply Halive; by left).
    rewrite (IH s1 s' Hall Hitems x Hx), (add_contains h s s1 x y Hadd Hy Hx), elem_of_cons.
    naive_solver.
Qed.

Lemma add_all_succeeds (items : list (option PyObject)) (s : _IDBasedWeakSet.t) :
  (∃ s', _IDBasedWeakSet.add_all s items = inr s')
  ↔ Forall (λ i, ∃ x, i = Some x ∧ weakrefable x = true) items.
Proof.
  revert s. induction items as [|i items IH]; intros s; cbn.
  - split; [constructor | eauto].
  - rewrite Forall_cons. destruct i as [y|]; cbn.
    + destruct (weakrefable y) eqn:Hw.
      * rewrite IH. split; [intros H; split; eauto | by intros [_ H]].
      * split; [by intros [s' ?] | intros [(x & [= <-] & ?) _]; congruence].
    + split; [by intros [s' ?] | by intros [(x & ? & _) _]].
Qed.

(** X4: [_IDBasedWeakSet(items)] succeeds exactly when no item is [None] and
    every item supports weak references; for items that are alive (the caller
    holds them), the new set then contains exactly the items. *)
Theorem weak_set_init_contains (h : gmap nat PyObject) (items : list (option PyObject)) :
  ((∃ s, _IDBasedWeakSet.__init__ items = inr s)
   ↔ Forall (λ i, ∃ x, i = Some x ∧ weakrefable x = true) items)
  ∧ (∀ s, _IDBasedWeakSet.__init__ items = inr s →
       (∀ y, Some y ∈ items → alive h y = true) →
       ∀ x, _IDBasedWeakSet.__contains__ h s x = true ↔ Some x ∈ items).
Proof.
  split; [apply add_all_succeeds|].
  intros s Hs Halive x. split.
  - intros Hc. pose proof Hc as [_ Hx]%contains_spec.
    apply (add_all_contains h items _ s Hs Halive x Hx) in Hc as [Hc|Hc]; [done|].
    apply contains_spec in Hc as [Hd _]. cbn in Hd. by rewrite lookup_empty in Hd.
  - intros Hin. apply (add_all_contains h items _ s Hs Halive x); [by apply Halive|by left].
Qed.

Lemma weak_set_init_contains_witness :
  _IDBasedWeakSet.__contains__
    {[ 10 := MkObject 10 0 true; 20 := MkObject 20 1 true ]}
    (_IDBasedWeakSet.Mk {[ 10 := WeakRef (MkObject 10 0 true);
                           20 := WeakRef (MkObject 20 1 true) ]})
    (MkObject 20 1 true) = true.
Proof.
  apply (proj2 (weak_set_init_contains
                  {[ 10 := MkObject 10 0 true; 20 := MkObject 20 1 true ]}
                  [Some (MkObject 10 0 true); Some (MkObject 20 1 true)])
               (_IDBasedWeakSet.Mk {[ 10 := WeakRef (MkObject 10 0 true);
                                      20 := WeakRef (MkObject 20 1 true) ]})).
  - vm_compute. reflexivity.
  - intros y Hy.
    apply elem_of_cons in Hy as [[= ->]|Hy]; [reflexivity|].
    apply list_elem_of_singleton in Hy as [= ->]. reflexivity.
  - apply elem_of_cons. right. apply elem_of_cons. by left.
Defined.

(** X5: [add(x)] changes the answer only for objects with the id of [x]: any
    other object that was recorded under that id is forgotten, objects with
    other ids are as before; adding [x] again changes nothing. *)
Theorem weak_set_add_frame (h : gmap nat PyObject) (s s' : _IDBasedWeakSet.t) (x : PyObject) :
  _IDBasedWeakSet.add s (Some x) = inr s' →
  (∀ y, py_id y ≠ py_id x →
        _IDBasedWeakSet.__contains__ h s' y = _IDBasedWeakSet.__contains__ h s y)
  ∧ (∀ y, py_id y = py_id x → y ≠ x → _IDBasedWeakSet.__contains__ h s' y = false)
  ∧ _IDBasedWeakSet.add s' (Some x) = inr s'.
Proof.
  unfold _IDBasedWeakSet.add. destruct (weakrefable x); [|done]. intros [= <-].
  split; [|split].
  - intros y Hy. unfold _IDBasedWeakSet.__contains__. cbn. by rewrite lookup_insert_ne.
  - intros y Hid Hne. apply contains_false. cbn. rewrite Hid, lookup_insert_eq.
    intros [[= ?] _]. done.
  - cbn. by rewrite insert_insert_eq.
Qed.

Lemma weak_set_add_frame_witness :
  _IDBasedWeakSet.__contains__ ∅
    (_IDBasedWeakSet.Mk (<[5 := WeakRef (MkObject 5 1 true)]>
                           {[ 5 := WeakRef (MkObject 5 0 true) ]}))
    (MkObject 5 0 true) = false.
Proof.
  pose proof (weak_set_add_frame ∅
                (_IDBasedWeakSet.Mk {[ 5 := WeakRef (MkObject 5 0 true) ]})
                _ (MkObject 5 1 true) eq_refl) as (_ & Hsame & _).
  apply (Hsame (MkObject 5 0 true)); [reflexivity | discriminate].
Defined.


(** ** tracker_list: exceptions and bounds *)

Section TrackerListErrors.
Context {W D : Type} `{!Empty D}.

Lemma fan_out_raises (method : Tracker W D → W → D → D * (exn + W))
    (insts : list (Tracker W D * W)) :
  ∀ i sd sd' calls e,
    TrackerList.fan_out method insts i sd = (sd', calls, inl e) →
    ∃ k cls w sub',
      insts !! k = Some (cls, w)
      ∧ calls = seq i (S k)
      ∧ method cls w (default ∅ (sd !! (i + k))) = (sub', inl e)
      ∧ sd' !! (i + k) = Some sub'
      ∧ (∀ j, i + k < j → sd' !! j = sd !! j)
      ∧ (∀ j cls' w', j < k → insts !! j = Some (cls', w') →
           ∃ d' w'', method cls' w' (default ∅ (sd !! (i + j))) = (d', inr w'')).
Proof.
  induction insts as [|[cls w] insts IH]; intros i sd sd' calls e Hrun;
    cbn [TrackerList.fan_out] in Hrun; [done|].
  destruct (method cls w (default ∅ (sd !! i))) as [sub' [e'|w']] eqn:Hm.
  - injection Hrun as <- <- <-. exists 0, cls, w, sub'. rewrite Nat.add_0_r.
    split; [done|]. split; [done|]. split; [done|]. split; [apply lookup_insert_eq|].
    split; [intros j Hj; apply lookup_insert_ne; lia | intros; lia].
  - destruct (TrackerList.fan_out method insts (S i) (<[i:=sub']> sd))
      as [[sd1 calls1] [e1|r1]] eqn:Hrest; [|done].
    injection Hrun as <- <- <-.
    destruct (IH _ _ _ _ _ Hrest) as (k & cls' & w0 & sub0 & Hl & -> & Hk & Hs & Hframe & Hok).
    replace (S i + k) with (i + S k) in Hk, Hs, Hframe by lia.
    rewrite lookup_insert_ne in Hk by lia.
    exists (S k), cls', w0, sub0. split; [done|]. split; [done|]. split; [done|].
    split; [done|]. split.
    + intros j Hj. rewrite Hframe by lia. apply lookup_insert_ne. lia.
    + intros [|j] cls2 w2 Hj Hl2; cbn in Hl2.
      * injection Hl2 as <- <-. rewrite Nat.add_0_r. eauto.
      * destruct (Hok j cls2 w2 ltac:(lia) Hl2) as (d' & w'' & Hm').
        replace (S i + j) with (i + S j) in Hm' by lia.
        rewrite lookup_insert_ne in Hm' by lia. eauto.
Qed.

(** X6: when [pre] of the combined tracker raises, the exception is the one
    that the method of the first failing wrapped instance raised, on its own
    sub dict; the instances before it returned, the instances after it were
    not called, and their sub dicts are as before. *)
Theorem tracker_list_pre_raises (tracker_factories : list (Tracker W D))
    (self : @TrackerList.t W D) (module : nn_Module) (input : PyObj)
    (sd sd' : gmap nat D) (e : exn) :
  @tracker_pre _ _ (tracker_list tracker_factories) self module input sd = (sd', inl e) →
  ∃ k cls w sub',
    TrackerList.instances self !! k = Some (cls, w)
    ∧ (TrackerList.fan_out (λ cls w, @tracker_pre W D cls w module input)
         (TrackerList.instances self) 0 sd).1.2 = seq 0 (S k)
    ∧ @tracker_pre W D cls w module input (default ∅ (sd !! k)) = (sub', inl e)
    ∧ sd' !! k = Some sub'
    ∧ (∀ j, k < j → sd' !! j = sd !! j)
    ∧ (∀ j cls' w', j < k → TrackerList.instances self !! j = Some (cls', w') →
         ∃ d' w'', @tracker_pre W D cls' w' module input (default ∅ (sd !! j)) = (d', inr w'')).
Proof.
  cbn [tracker_pre tracker_list]. unfold TrackerList.pre. intros Hrun.
  destruct (TrackerList.fan_out _ (TrackerList.instances self) 0 sd)
    as [[sd1 calls] [e1|r]] eqn:Hfan; [|done].
  injection Hrun as <- <-.
  destruct (fan_out_raises _ _ _ _ _ _ _ Hfan) as (k & cls & w & sub' & H). cbn in H.
  exists k, cls, w, sub'. exact H.
Qed.

Lemma build_raises (tfs : list (Tracker W D)) (count depth : nat) (leaf : bool) :
  ∀ i acc sd sd' e,
    TrackerList.build tfs i count depth leaf acc sd = (sd', inl e) →
    ∃ k tf sub',
      tfs !! k = Some tf
      ∧ @tracker_factory W D tf count depth leaf (default ∅ (sd !! (i + k))) = (sub', inl e)
      ∧ sd' !! (i + k) = Some sub'
      ∧ (∀ j, i + k < j → sd' !! j = sd !! j).
Proof.
  induction tfs as [|tf tfs IH]; intros i acc sd sd' e Hb; cbn [TrackerList.build] in Hb;
    [done|].
  destruct (TrackerList.setdefault i sd) as [sd1 sub] eqn:Hsd.
  apply setdefault_spec in Hsd as (-> & Hsub & Hother).
  destruct (@tracker_factory W D tf count depth leaf (default ∅ (sd !! i)))
    as [sub' [e'|w]] eqn:Hf.
  - injection Hb as <- <-. exists 0, tf, sub'. rewrite Nat.add_0_r.
    split; [done|]. split; [done|]. split; [apply lookup_insert_eq|].
    intros j Hj. rewrite lookup_insert_ne by lia. apply Hother. lia.
  - destruct (IH _ _ _ _ _ Hb) as (k & tf' & sub0 & Hl & Hk & Hs & Hframe).
    replace (S i + k) with (i + S k) in Hk, Hs, Hframe by lia.
    rewrite lookup_insert_ne, Hother in Hk by lia.
    exists (S k), tf', sub0. split; [done|]. split; [done|]. split; [done|].
    intros j Hj. rewrite Hframe by lia. rewrite lookup_insert_ne by lia. apply Hother. lia.
Qed.

(** X7: when the constructor of the combined tracker raises, the exception is
    the one raised by the first failing factory, called on the sub dict at its
    position; no sub dict is created for the factories after it. *)
Theorem tracker_list_init_raises (tracker_factories : list (Tracker W D))
    (count depth : nat) (leaf : bool) (sd sd' : gmap nat D) (e : exn) :
  @tracker_factory _ _ (tracker_list tracker_factories) count depth leaf sd = (sd', inl e) →
  ∃ k tf sub',
    tracker_factories !! k = Some tf
    ∧ @tracker_factory W D tf count depth leaf (default ∅ (sd !! k)) = (sub', inl e)
    ∧ sd' !! k = Some sub'
    ∧ (∀ j, k < j → sd' !! j = sd !! j).
Proof.
  cbn [tracker_factory tracker_list]. unfold TrackerList.__init__. intros Hrun.
  destruct (TrackerList.build tracker_factories 0 count depth leaf [] sd)
    as [sd1 [e1|insts]] eqn:Hb; [|done].
  injection Hrun as <- <-. exact (build_raises _ _ _ _ _ _ _ _ _ Hb).
Qed.

(** X8: [self[item]] returns a wrapped instance exactly for
    [-n <= item < n], where [n] is the number of wrapped instances, namely the
    one at position [item mod n]; any other index raises [IndexError]. *)
Theorem tracker_list_getitem_bounds (self : @TrackerList.t W D) (item : Z) :
  let n := Z.of_nat (length (TrackerList.instances self)) in
  ((- n ≤ item < n)%Z →
     ∃ cls w, TrackerList.instances self !! Z.to_nat (item `mod` n) = Some (cls, w)
              ∧ TrackerList.__getitem__ self item = inr w)
  ∧ (¬ (- n ≤ item < n)%Z → TrackerList.__getitem__ self item = inl IndexError).
Proof.
  cbn zeta. unfold TrackerList.__getitem__.
  set (n := Z.of_nat (length (TrackerList.instances self))). split.
  - intros Hb.
    assert (Hi : (item `mod` n = if (item <? 0)%Z then item + n else item)%Z).
    { destruct (Z.ltb_spec item 0).
      - symmetry. apply (Z.mod_unique_pos _ _ (-1)); lia.
      - apply Z.mod_small. lia. }
    rewrite <- Hi.
    assert (0 ≤ item `mod` n < n)%Z as [H0 Hn] by (apply Z.mod_pos_bound; lia).
    rewrite (proj2 (Z.leb_le _ _)) by lia. rewrite (proj2 (Z.ltb_lt _ _)) by lia. cbn.
    destruct (TrackerList.instances self !! Z.to_nat (item `mod` n)) as [[cls w]|] eqn:Hl.
    + eauto.
    + apply lookup_ge_None in Hl. lia.
  - intros Hb. destruct (Z.ltb_spec item 0).
    + rewrite (proj2 (Z.leb_gt _ _)) by lia. done.
    + rewrite (proj2 (Z.leb_le _ _)) by lia. rewrite (proj2 (Z.ltb_ge _ _)) by lia. done.
Qed.

End TrackerListErrors.

Lemma tracker_list_pre_raises_witness :
  ∃ k cls w sub',
    [(Shape_cls, inl (ShapeTracker.__init__ 0 0 false));
     (Shape_cls, inr (ParameterTracker.__init__ 0 0 false))] !! k = Some (cls, w)
    ∧ @tracker_pre _ _ cls w doctest_net (PTuple [PTensor [7; 3]])
        (default ∅ ((∅ : gmap nat (gmap string nat)) !! k)) = (sub', inl TypeError).
Proof.
  destruct (tracker_list_pre_raises [Shape_cls; Shape_cls]
              (TrackerList.Mk [(Shape_cls, inl (ShapeTracker.__init__ 0 0 false));
                               (Shape_cls, inr (ParameterTracker.__init__ 0 0 false))])
              doctest_net (PTuple [PTensor [7; 3]]) ∅
              (<[1 := ∅]> (<[0 := ∅]> ∅)) TypeError)
    as (k & cls & w & sub' & Hl & _ & Hm & _).
  - vm_compute. reflexivity.
  - exists k, cls, w, sub'. split; [exact Hl | exact Hm].
Defined.

Lemma tracker_list_init_raises_witness :
  ∃ k tf sub',
    [faulty_Tracker; faulty_Tracker] !! k = Some tf
    ∧ @tracker_factory _ _ tf 2 0 false
        (default ∅ ((∅ : gmap nat (gmap string nat)) !! k)) = (sub', inl (UserError 1)).
Proof.
  destruct (tracker_list_init_raises [faulty_Tracker; faulty_Tracker] 2 0 false ∅
              (<[0 := ∅]> ∅) (UserError 1))
    as (k & tf & sub' & Hl & Hf & _).
  - vm_compute. reflexivity.
  - exists k, tf, sub'. split; [exact Hl | exact Hf].
Defined.


(** ** track: the registry before and after *)

Lemma filter_filter_andb {A : Type} (f g : A → bool) (l : list A) :
  List.filter f (List.filter g l) = List.filter (λ x, g x && f x) l.
Proof.
  induction l as [|a l IH]; [done|]. cbn. destruct (g a); cbn; [|exact IH].
  destruct (f a); by rewrite IH.
Qed.

Lemma filter_all_true {A : Type} (f : A → bool) (l : list A) :
  (∀ x, x ∈ l → f x = true) → List.filter f l = l.
Proof.
  induction l as [|a l IH]; intros H; [done|]. cbn.
  rewrite (H a) by (by left). f_equal. apply IH. intros x Hx. apply H. by right.
Qed.

Lemma filter_all_false {A : Type} (f : A → bool) (l : list A) :
  (∀ x, x ∈ l → f x = false) → List.filter f l = [].
Proof.
  induction l as [|a l IH]; intros H; [done|]. cbn.
  rewrite (H a) by (by left). apply IH. intros x Hx. apply H. by right.
Qed.

Lemma remove_all_tables (hooks : list RemovableHandle) (reg : Registry) :
  _forward_pre_hooks (foldl (λ r h, remove h r) reg hooks)
  = List.filter (λ e, negb (bool_decide (PreHandle (pre_handle e) ∈ hooks)))
      (_forward_pre_hooks reg)
  ∧ _forward_hooks (foldl (λ r h, remove h r) reg hooks)
    = List.filter (λ e, negb (bool_decide (PostHandle (post_handle e) ∈ hooks)))
        (_forward_hooks reg)
  ∧ next_id (foldl (λ r h, remove h r) reg hooks) = next_id reg.
Proof.
  revert reg. induction hooks as [|h hooks IH]; intros reg; cbn [foldl].
  - split; [|split; [|done]]; symmetry; apply filter_all_true; intros e _;
      by rewrite bool_decide_eq_false_2 by apply not_elem_of_nil.
  - destruct (IH (remove h reg)) as (-> & -> & ->).
    destruct h as [id|id]; cbn; (split; [|split; [|done]]).
    + rewrite filter_filter_andb. apply List.filter_ext. intros e.
      apply eq_true_iff_eq.
      rewrite andb_true_iff, !negb_true_iff, !bool_decide_eq_false, Nat.eqb_neq, elem_of_cons.
      naive_solver.
    + apply List.filter_ext. intros e. apply eq_true_iff_eq.
      rewrite !negb_true_iff, !bool_decide_eq_false, elem_of_cons. naive_solver.
    + apply List.filter_ext. intros e. apply eq_true_iff_eq.
      rewrite !negb_true_iff, !bool_decide_eq_false, elem_of_cons. naive_solver.
    + rewrite filter_filter_andb. apply List.filter_ext. intros e.
      apply eq_true_iff_eq.
      rewrite andb_true_iff, !negb_true_iff, !bool_decide_eq_false, Nat.eqb_neq, elem_of_cons.
      naive_solver.
Qed.

Lemma grown_init (reg0 : Registry) : grown reg0 (reg0, []).
Proof. exists [], []. cbn. rewrite !app_nil_r. repeat split; try done; try constructor. Qed.

Lemma grown_register_hook (reg0 : Registry) (p : list nat) (b : bool)
    (st : Registry * list RemovableHandle) :
  grown reg0 st → grown reg0 (register_hook p b st).
Proof.
  intros (ap & aq & Hp & Hq & Hap & Haq & Hids & Hnext).
  exists (ap ++ [MkPre (next_id st.1) p b]), (aq ++ [MkPost (S (next_id st.1)) p]).
  cbn. rewrite Hp, Hq, <- !app_assoc. split; [done|]. split; [done|].
  rewrite !Forall_app, !Forall_singleton. cbn. split; [split|split; [split|split]].
  - eapply Forall_impl; [exact Hap|]. intros e He. cbn beta in *.
    apply elem_of_app. by left.
  - apply elem_of_app. right. by left.
  - eapply Forall_impl; [exact Haq|]. intros e He. cbn beta in *.
    apply elem_of_app. by left.
  - apply elem_of_app. right. right. by left.
  - rewrite !map_app, !length_app, Hids. cbn.
    rewrite seq_app. cbn. by rewrite Hnext, Nat.add_comm.
  - rewrite !length_app. cbn. lia.
Qed.

Lemma grown_plan (reg0 : Registry) (node : list nat) (l : list (list nat * bool))
    (st : Registry * list RemovableHandle) :
  grown reg0 st →
  grown reg0 (foldl (plan_step register_hook node) st l)
  ∧ length (foldl (plan_step register_hook node) st l).2 = length st.2 + 2 * length l.
Proof.
  revert st. induction l as [|e l IH]; intros st Hst; cbn [foldl].
  - split; [done|]. cbn. lia.
  - destruct (IH (plan_step register_hook node st e)) as [Hg Hlen].
    { by apply grown_register_hook. }
    split; [done|]. rewrite Hlen. cbn. rewrite !length_app. cbn. lia.
Qed.

Lemma plan_length_le (leaf_types : list string) (m : nn_Module) :
  length (plan leaf_types m) ≤ length (modules m)
  ∧ length (plan [] m) = length (modules m).
Proof.
  induction m as [c ps ch IH] using nn_Module_ind'.
  rewrite !plan_unfold, !length_app. cbn [modules length].
  assert (Hloop : ∀ i, length (plan_loop leaf_types ch i) ≤ length (concat (map modules ch))
                       ∧ length (plan_loop [] ch i) = length (concat (map modules ch))).
  { induction IH as [|c' ch' [Hle Heq] _ IHch]; intros i; [done|].
    cbn [plan_loop map concat]. fold (plan_loop leaf_types). fold (plan_loop []).
    rewrite !length_app. destruct (IHch (S i)) as [Hle' Heq']. split.
    - destruct (is_leaf_kind leaf_types c').
      + destruct c'. cbn. lia.
      + rewrite length_map. lia.
    - unfold is_leaf_kind. rewrite bool_decide_eq_false_2 by apply not_elem_of_nil.
      rewrite length_map. lia. }
  destruct (Hloop 0). lia.
Qed.

(** X9: the session registers two hooks per hooked module, at most two per
    module of the network and exactly two per module when [leaf_types] is
    empty; their handles carry consecutive ids, from the counter of the
    registry on, so no two of them are equal and none is the id of a hook
    that was there before. *)
Theorem session_hooks_ids (net : nn_Module) (leaf_types : list string) (reg : Registry) :
  map handle_id (session_hooks net leaf_types reg)
  = seq (next_id reg) (length (session_hooks net leaf_types reg))
  ∧ length (session_hooks net leaf_types reg) = 2 * length (plan leaf_types net)
  ∧ length (session_hooks net leaf_types reg) ≤ 2 * length (modules net)
  ∧ length (session_hooks net [] reg) = 2 * length (modules net)
  ∧ next_id (instrumented net leaf_types reg)
    = next_id reg + length (session_hooks net leaf_types reg).
Proof.
  unfold session_hooks, instrumented. rewrite !apply_filtered_plan.
  destruct (grown_plan reg [] (plan leaf_types net) (reg, []) (grown_init reg))
    as [(ap & aq & _ & _ & _ & _ & Hids & Hnext) Hlen].
  destruct (grown_plan reg [] (plan [] net) (reg, []) (grown_init reg)) as [_ Hlen0].
  cbn in Hlen, Hlen0. destruct (plan_length_le leaf_types net) as [Hle Heq].
  repeat split; try done; lia.
Qed.

Section RestoreFacts.
Context {T SD : Type} `{!Empty SD}.

Lemma track_tables_restored {A : Type} (net : nn_Module) (leaf_types : list string)
    (body : M (World T SD) A) (reg : Registry) :
  registry_wf reg →
  (∀ w, registry (body w).1 = registry w) →
  _forward_pre_hooks (registry (track net leaf_types body reg).1) = _forward_pre_hooks reg
  ∧ _forward_hooks (registry (track net leaf_types body reg).1) = _forward_hooks reg.
Proof.
  intros [Hwp Hwq] Hbody. unfold track.
  pose proof (grown_plan reg [] (plan leaf_types net) (reg, []) (grown_init reg)) as [Hg _].
  rewrite <- (apply_filtered_plan leaf_types register_hook net [] (reg, [])) in Hg.
  destruct (apply_filtered leaf_types net [] register_hook (reg, [])) as [reg1 hooks].
  destruct Hg as (ap & aq & Hp & Hq & Hap & Haq & Hids & _). cbn [fst snd] in *.
  specialize (Hbody (MkWorld reg1 (MkSession ∅ [] [] [] []))).
  destruct (body (MkWorld reg1 (MkSession ∅ [] [] [] []))) as [w r].
  cbn [fst snd registry] in *. rewrite Hbody.
  destruct (remove_all_tables hooks reg1) as (-> & -> & _).
  rewrite Hp, Hq, !List.filter_app.
  assert (Hold : ∀ h, h ∈ hooks → next_id reg ≤ handle_id h).
  { intros h Hh. apply (list_elem_of_fmap_2 handle_id) in Hh.
    change (handle_id <$> hooks) with (map handle_id hooks) in Hh.
    rewrite Hids in Hh. apply list_elem_of_In, in_seq in Hh. lia. }
  split.
  - rewrite filter_all_true, filter_all_false; [apply app_nil_r| |].
    + intros e He. apply negb_false_iff, bool_decide_eq_true.
      by apply (proj1 (Forall_forall _ _) Hap).
    + intros e He. apply negb_true_iff, bool_decide_eq_false. intros Hin%Hold. cbn in Hin.
      apply (proj1 (Forall_forall _ _) Hwp) in He. lia.
  - rewrite filter_all_true, filter_all_false; [apply app_nil_r| |].
    + intros e He. apply negb_false_iff, bool_decide_eq_true.
      by apply (proj1 (Forall_forall _ _) Haq).
    + intros e He. apply negb_true_iff, bool_decide_eq_false. intros Hin%Hold. cbn in Hin.
      apply (proj1 (Forall_forall _ _) Hwq) in He. lia.
Qed.

(** X10: when the ids in the registry were handed out by its counter and the
    block leaves the registry alone, both hook dicts are after [track] what
    they were before: the session's hooks are gone and no other hook is, also
    when the block raises. *)
Theorem track_restores_registry {A : Type} (net : nn_Module) (leaf_types : list string)
    (body : M (World T SD) A) (reg : Registry) :
  registry_wf reg →
  (∀ w, registry (body w).1 = registry w) →
  _forward_pre_hooks (registry (track net leaf_types body reg).1) = _forward_pre_hooks reg
  ∧ _forward_hooks (registry (track net leaf_types body reg).1) = _forward_hooks reg.
Proof. apply track_tables_restored. Qed.

End RestoreFacts.


(** ** Runs in which tracker methods or [forward] raise *)

Lemma count_pre_snoc (evs : list Event) (ev : Event) :
  count_pre (evs ++ [ev]) = count_pre evs + (if is_pre ev then 1 else 0).
Proof. unfold count_pre. rewrite List.filter_app, length_app. by destruct ev. Qed.

Section RobustFacts.
Context {T SD : Type} `{!Tracker T SD}.
Variable reg : Registry.
Variable fwd : nn_Module → PyObj → exn + PyObj.
Variable P : exn → Prop.
Hypothesis Huser : user_raises (T:=T) (SD:=SD) fwd P.
Hypothesis Hpaired : paired reg.

Lemma pre_hook_safe (leaf : bool) (node : list nat) (module : nn_Module) (input : PyObj)
    (s : Session T SD) :
  robust_inv s →
  robust_inv (pre_hook leaf node module input s).1
  ∧ all_trackers s `prefix_of` all_trackers (pre_hook leaf node module input s).1
  ∧ match (pre_hook leaf node module input s).2 with
    | inr _ => ∃ t, tracker_stack (pre_hook leaf node module input s).1
                    = tracker_stack s ++ [t]
    | inl e => P e ∧ tracker_stack (pre_hook leaf node module input s).1 = tracker_stack s
    end.
Proof using Huser.
  intros (H1 & H2 & H3 & H4). destruct Huser as (Hf & Hp & _). unfold pre_hook.
  destruct (tracker_factory _ _ _ _) as [sd1 [e|t]] eqn:Ef; cbn [fst snd all_trackers tracker_stack].
  - split; [done|]. split; [done|]. split; [by eapply Hf|done].
  - destruct (tracker_pre t module input sd1) as [sd2 [e|t']] eqn:Ep; cbn [fst snd all_trackers tracker_stack].
    + split; [|split; [done|split; [by eapply Hp|done]]].
      unfold robust_inv; cbn [all_trackers tracker_stack events store];
      split; [|split; [|split; [done|]]].
      * rewrite count_post_snoc. cbn. lia.
      * intros i r Hi. destruct (H2 i r Hi) as (o & Ho & Hc). exists o.
        split; [by apply lookup_app_l_Some|done].
      * rewrite count_pre_snoc. cbn. lia.
    + split; [|split; [by apply prefix_app_r|eauto]].
      unfold robust_inv; cbn [all_trackers tracker_stack events store];
      split; [|split; [|split]].
      * rewrite count_post_snoc, !length_app. cbn. lia.
      * intros i r [Hi|[Hlen Hi]]%lookup_app_Some.
        -- destruct (H2 i r Hi) as (o & Ho & Hc). exists o.
           split; [by apply lookup_app_l_Some|done].
        -- apply list_lookup_singleton_Some in Hi as [Hi <-].
           eexists. split; [by rewrite lookup_app_r, Nat.sub_diag|]. cbn. lia.
      * intros r [Hr|Hr]%elem_of_app; apply elem_of_app; [left; by apply H3|by right].
      * rewrite count_pre_snoc, length_app. cbn. lia.
Qed.

Lemma hook_safe (node : list nat) (module : nn_Module) (input output : PyObj)
    (s : Session T SD) (st0 : list nat) (t : nat) :
  robust_inv s → tracker_stack s = st0 ++ [t] →
  robust_inv (hook node module input output s).1
  ∧ all_trackers (hook node module input output s).1 = all_trackers s
  ∧ tracker_stack (hook node module input output s).1 = st0
  ∧ match (hook node module input output s).2 with
    | inr _ => True
    | inl e => P e
    end.
Proof using Huser.
  intros (H1 & H2 & H3 & H4) Hst. destruct Huser as (_ & _ & Hq & _). unfold hook.
  rewrite Hst, pop_snoc.
  assert (∃ o, store s !! t = Some o) as [o Ho].
  { assert (t ∈ all_trackers s) as [i Hi]%list_elem_of_lookup_1.
    { apply H3. rewrite Hst. apply elem_of_app. right. by left. }
    destruct (H2 i t Hi) as (o & Ho & _). eauto. }
  rewrite Ho. rewrite Hst, length_app in H1. cbn in H1.
  assert (Hsub : ∀ r, r ∈ st0 → r ∈ all_trackers s).
  { intros r Hr. apply H3. rewrite Hst. apply elem_of_app. by left. }
  destruct (tracker_post (t_self o) module input output (shared_dict s))
    as [sd' [e|t']] eqn:Eq; cbn [fst snd all_trackers tracker_stack].
  - split; [|split; [done|split; [done|by eapply Hq]]].
    unfold robust_inv; cbn [all_trackers tracker_stack events store];
      split; [|split; [done|split; [done|]]].
    + rewrite count_post_snoc. cbn. lia.
    + rewrite count_pre_snoc. cbn. lia.
  - split; [|done].
    unfold robust_inv; cbn [all_trackers tracker_stack events store];
      split; [|split; [|split; [done|]]].
    + rewrite count_post_snoc. cbn. lia.
    + intros i r Hi. destruct (H2 i r Hi) as (o1 & Ho1 & Hc).
      destruct (store_update_lookup (store s) t r o
                  (MkObj (t_count o) (t_depth o) (t_leaf o) t') o1 Ho Ho1 eq_refl eq_refl)
        as (o2 & Ho2 & Hc2 & _).
      exists o2. split; [done|]. lia.
    + rewrite count_pre_snoc. cbn. lia.
Qed.

Lemma safe_outcome_bind {A B : Type} (m : M (Session T SD) A) (k : A → M (Session T SD) B)
    (s : Session T SD) :
  safe_outcome P s (m s) →
  (∀ a s1, m s = (s1, inr a) → safe_outcome P s1 (k a s1)) →
  safe_outcome P s (bind m k s).
Proof using Type.
  intros (Hinv & Hpre & Hout) Hk. unfold bind.
  destruct (m s) as [s1 [e|a]] eqn:Em; cbn in *.
  - done.
  - destruct (Hk a s1 eq_refl) as (Hinv2 & Hpre2 & Hout2).
    split; [done|]. split; [by etrans|].
    destruct (k a s1) as [s2 [e|b]]; cbn in *; [|congruence].
    by rewrite <- Hout.
Qed.

Lemma forward_children_safe (node : list nat) (ms : list nn_Module) :
  Forall (λ c, ∀ node x s, robust_inv s → safe_outcome P s (call reg fwd c node x s)) ms →
  ∀ i x s, robust_inv s → safe_outcome P s (forward_children reg fwd node ms i x s).
Proof using Type.
  induction 1 as [|c ms Hc _ IH]; intros i x s Hinv.
  - cbn. done.
  - cbn [forward_children]. fold (forward_children (T:=T) (SD:=SD) reg fwd node).
    apply safe_outcome_bind; [by apply Hc|].
    intros y s1 Hy. apply IH. specialize (Hc (node ++ [i]) x s Hinv).
    rewrite Hy in Hc. by destruct Hc.
Qed.

Lemma call_node_safe (c : string) (ps : list nn_Parameter) (ch : list nn_Module)
    (node : list nat) (x : PyObj) (body : M (Session T SD) PyObj) (s : Session T SD) :
  (∀ s1, robust_inv s1 → safe_outcome P s1 (body s1)) →
  robust_inv s →
  safe_outcome P s
    ((_ <- for_each (λ e, pre_hook (pre_leaf e) node (Mod c ps ch) (PTuple [x]))
                    (pre_hooks_at reg node) ;;
      output <- body ;;
      _ <- for_each (λ _, hook node (Mod c ps ch) (PTuple [x]) output)
                    (post_hooks_at reg node) ;;
      ret output) s).
Proof using Huser Hpaired.
  intros Hbody Hinv. destruct (Hpaired node) as [Hlen Hle].
  destruct (pre_hooks_at reg node) as [|e [|e' l]] eqn:Hpre; cbn in Hle; [| |lia].
  - destruct (post_hooks_at reg node) as [|? ?] eqn:Hpost; [|done]. cbn [for_each].
    pose proof (Hbody s Hinv) as (Hinv2 & Hpre2 & Hout2).
    unfold bind, ret.
    destruct (body s) as [s2 [e2|y]]; cbn [fst snd] in *; done.
  - destruct (post_hooks_at reg node) as [|e' [|? ?]] eqn:Hpost; [done| |done].
    cbn [for_each].
    pose proof (pre_hook_safe (pre_leaf e) node (Mod c ps ch) (PTuple [x]) s Hinv)
      as (Hinv1 & Hpre1 & Hout1).
    unfold bind at 1. unfold bind at 1.
    destruct (pre_hook (pre_leaf e) node (Mod c ps ch) (PTuple [x]) s) as [s1 [e1|[]]];
      cbn [fst snd ret] in *.
    + destruct Hout1 as [HP Hst]. split; [done|]. split; [done|]. cbn. by rewrite Hst.
    + destruct Hout1 as [t Hst1].
      pose proof (Hbody s1 Hinv1) as (Hinv2 & Hpre2 & Hout2).
      unfold bind at 1.
      destruct (body s1) as [s2 [e2|y]]; cbn [fst snd] in *.
      * destruct Hout2 as [HP Hst2]. split; [done|]. split; [by etrans|]. cbn.
        split; [done|]. etrans; [|exact Hst2]. rewrite Hst1. by apply prefix_app_r.
      * rewrite Hst1 in Hout2.
        pose proof (hook_safe node (Mod c ps ch) (PTuple [x]) y s2 (tracker_stack s) t
                      Hinv2 Hout2) as (Hinv3 & Hall3 & Hst3 & Hout3).
        unfold bind, ret.
        destruct (hook node (Mod c ps ch) (PTuple [x]) y s2) as [s3 [e3|[]]];
          cbn [fst snd] in *.
        -- unfold safe_outcome. cbn [fst snd]. rewrite Hall3, Hst3.
           split; [done|]. split; [by etrans|done].
        -- unfold safe_outcome. cbn [fst snd]. rewrite Hall3, Hst3.
           split; [done|]. split; [by etrans|done].
Qed.

Lemma call_safe (m : nn_Module) (node : list nat) (x : PyObj) (s : Session T SD) :
  robust_inv s → safe_outcome P s (call reg fwd m node x s).
Proof using Huser Hpaired.
  revert node x s. induction m as [c ps ch IH] using nn_Module_ind'.
  intros node x s Hinv. rewrite call_unfold. apply call_node_safe; [|done].
  intros s1 Hinv1. destruct ch as [|c' ch'].
  - split; [done|]. split; [done|]. cbn.
    destruct (fwd (Mod c ps []) x) as [e|y] eqn:Ef; [|done].
    split; [|done]. destruct Huser as (_ & _ & _ & Hfw). by eapply Hfw.
  - by apply forward_children_safe.
Qed.

End RobustFacts.

Lemma robust_inv_init {T SD : Type} (sd : SD) :
  robust_inv (T:=T) (MkSession sd [] [] [] []).
Proof.
  unfold robust_inv. cbn. split; [done|]. split; [done|]. split; [|done].
  intros r Hr. by apply elem_of_nil in Hr.
Qed.

Section RobustTrack.
Context {T SD : Type} `{!Tracker T SD} `{!Empty SD}.

(** X11: a session over a network, whatever the tracker class and [forward]
    do.  An exception that leaves the run was raised by the tracker class or
    by [forward]: the hooks themselves never fail, the call stack is never
    empty when a tracker is popped and every reference on it has its object.
    After the run, returned or raised, the tracker at position [i] of the
    result list has count [i], every recorded tracker is either still on the
    call stack or was handed to [tracker.post], and after a return the stack
    is empty. *)
Theorem track_run_robust (net : nn_Module) (leaf_types : list string)
    (fwd : nn_Module → PyObj → exn + PyObj) (x : PyObj) (P : exn → Prop) :
  user_raises (T:=T) (SD:=SD) fwd P →
  let out := track net leaf_types (run_net fwd net x) empty_registry in
  robust_inv (session out.1)
  ∧ match out.2 with
    | inr _ => tracker_stack (session out.1) = []
    | inl e => P e
    end.
Proof.
  intros Huser. cbn zeta.
  pose proof (instrumented_paired net leaf_types) as Hpaired.
  unfold track, run_net. unfold instrumented in *.
  destruct (apply_filtered leaf_types net [] register_hook (empty_registry, []))
    as [reg1 hooks]. cbn [fst registry session] in *.
  pose proof (call_safe reg1 fwd P Huser Hpaired net [] x (MkSession ∅ [] [] [] [])
                (robust_inv_init ∅)) as (Hinv & _ & Hout).
  destruct (call reg1 fwd net [] x (MkSession ∅ [] [] [] [])) as [s' [e|y]];
    cbn [fst snd session] in *.
  - split; [done|]. by destruct Hout.
  - done.
Qed.

End RobustTrack.

(** The faulty tracker raises only [UserError]: no [IndexError] leaves the
    session. *)
Lemma track_run_robust_witness :
  robust_inv (session faulty_session.1)
  ∧ match faulty_session.2 with
    | inr _ => tracker_stack (session faulty_session.1) = []
    | inl e => ∃ tag, e = UserError tag
    end.
Proof.
  apply (@track_run_robust nat (gmap string nat) faulty_Tracker _ doctest_net []
           doctest_fwd (PTensor [7; 3]) (λ e, ∃ tag, e = UserError tag)).
  split; [|split; [|split]].
  - intros count depth leaf sd sd' e. cbn. destruct (count =? 2); intros [= <- <-]. eauto.
  - intros t module input sd sd' e. cbn. destruct (t =? 1); intros [= <- <-]. eauto.
  - intros t module input output sd sd' e. cbn. intros [=].
  - intros m x e He. destruct (doctest_fwd_total m x) as [y Hy]. congruence.
Defined.


(** ** Two sessions in a row *)

Lemma for_each_map {S X Y : Type} (g : X → Y) (f : Y → M S unit) (l : list X) :
  for_each (λ e, f (g e)) l = for_each f (map g l).
Proof. induction l as [|a l IH]; [done|]. cbn. by rewrite IH. Qed.

Lemma for_each_const {S X Y : Type} (h : M S unit) (l : list X) (l' : list Y) :
  length l = length l' → for_each (λ _, h) l = for_each (λ _, h) l'.
Proof.
  revert l'. induction l as [|a l IH]; intros [|a' l'] Hlen; try done.
  cbn. rewrite (IH l'); [done|]. cbn in Hlen. lia.
Qed.

Lemma bind_pointwise {S A B : Type} (m1 m2 : M S A) (k1 k2 : A → M S B) (s : S) :
  m1 s = m2 s → (∀ a s', k1 a s' = k2 a s') → bind m1 k1 s = bind m2 k2 s.
Proof. intros Hm Hk. unfold bind. rewrite Hm. destruct (m2 s) as [s' [e|a]]; [done|apply Hk]. Qed.

Lemma run_net_registry {T SD : Type} `{!Tracker T SD}
    (fwd : nn_Module → PyObj → exn + PyObj) (net : nn_Module) (x : PyObj) (w : World T SD) :
  registry (run_net fwd net x w).1 = registry w.
Proof. unfold run_net. by destruct (call (registry w) fwd net [] x (session w)). Qed.

Section ViewFacts.
Context {T SD : Type} `{!Tracker T SD}.
Variable fwd : nn_Module → PyObj → exn + PyObj.
Variables reg1 reg2 : Registry.
Hypothesis Hview : ∀ node,
  map pre_leaf (pre_hooks_at reg1 node) = map pre_leaf (pre_hooks_at reg2 node)
  ∧ length (post_hooks_at reg1 node) = length (post_hooks_at reg2 node).

Lemma forward_children_views (node : list nat) (ms : list nn_Module) :
  Forall (λ c, ∀ node x s,
            call (T:=T) (SD:=SD) reg1 fwd c node x s = call reg2 fwd c node x s) ms →
  ∀ i x s, forward_children (T:=T) (SD:=SD) reg1 fwd node ms i x s
           = forward_children reg2 fwd node ms i x s.
Proof using Type.
  induction 1 as [|c ms Hc _ IH]; intros i x s; [done|].
  cbn [forward_children]. fold (forward_children (T:=T) (SD:=SD) reg1 fwd node).
  fold (forward_children (T:=T) (SD:=SD) reg2 fwd node).
  unfold bind. rewrite Hc. destruct (call reg2 fwd c (node ++ [i]) x s) as [s1 [e|y]]; [done|].
  apply IH.
Qed.

Lemma call_views (m : nn_Module) (node : list nat) (x : PyObj) (s : Session T SD) :
  call reg1 fwd m node x s = call reg2 fwd m node x s.
Proof using Hview.
  revert node x s. induction m as [c ps ch IH] using nn_Module_ind'. intros node x s.
  rewrite !call_unfold. destruct (Hview node) as [Hpre Hpost].
  apply bind_pointwise.
  - rewrite (for_each_map pre_leaf (λ b, pre_hook b node (Mod c ps ch) (PTuple [x]))
               (pre_hooks_at reg1 node)).
    rewrite (for_each_map pre_leaf (λ b, pre_hook b node (Mod c ps ch) (PTuple [x]))
               (pre_hooks_at reg2 node)).
    by rewrite Hpre.
  - intros _ s1. apply bind_pointwise.
    + destruct ch; [done|]. by apply forward_children_views.
    + intros y s2.
      by rewrite (for_each_const (hook node (Mod c ps ch) (PTuple [x]) y)
                    (post_hooks_at reg1 node) (post_hooks_at reg2 node) Hpost).
Qed.

End ViewFacts.

Lemma instrumented_views (net : nn_Module) (leaf_types : list string) (reg1 reg2 : Registry) :
  _forward_pre_hooks reg1 = _forward_pre_hooks reg2 →
  _forward_hooks reg1 = _forward_hooks reg2 →
  ∀ node,
    map pre_leaf (pre_hooks_at (instrumented net leaf_types reg1) node)
    = map pre_leaf (pre_hooks_at (instrumented net leaf_types reg2) node)
    ∧ length (post_hooks_at (instrumented net leaf_types reg1) node)
      = length (post_hooks_at (instrumented net leaf_types reg2) node).
Proof.
  intros Hp Hq node.
  destruct (instrumented_hooks_at net leaf_types reg1 node) as [H1 H1'].
  destruct (instrumented_hooks_at net leaf_types reg2 node) as [H2 H2'].
  unfold pre_hooks_at, post_hooks_at in H1, H1', H2, H2' |- *.
  rewrite <- Hp in H2. rewrite <- Hq in H2'. split.
  - apply (f_equal (map snd)) in H1, H2. rewrite map_map in H1, H2. cbn in H1, H2.
    etrans; [exact H1|]. symmetry. etrans; [exact H2|]. done.
  - apply (f_equal length) in H1', H2'. rewrite !length_map in H1', H2'. congruence.
Qed.

Section TwoSessions.
Context {T SD : Type} `{!Tracker T SD} `{!Empty SD}.

Lemma track_run_net_out (net : nn_Module) (leaf_types : list string)
    (fwd : nn_Module → PyObj → exn + PyObj) (x : PyObj) (reg : Registry) :
  (track (T:=T) (SD:=SD) net leaf_types (run_net fwd net x) reg).2
  = (call (instrumented net leaf_types reg) fwd net [] x (MkSession ∅ [] [] [] [])).2
  ∧ session (track (T:=T) (SD:=SD) net leaf_types (run_net fwd net x) reg).1
    = (call (instrumented net leaf_types reg) fwd net [] x (MkSession ∅ [] [] [] [])).1.
Proof.
  unfold track, run_net, instrumented.
  destruct (apply_filtered leaf_types net [] register_hook (reg, [])) as [r1 h1].
  cbn [fst registry session].
  by destruct (call r1 fwd net [] x (MkSession ∅ [] [] [] [])).
Qed.

(** X12: a session leaves nothing behind that a later session sees.  Run
    after a first session over the same network, with the same tracker class,
    [forward] and input, a second session gives the same outcome (the same
    output or the same exception) and records the same trackers, whatever
    the tracker class does, as long as it depends on the session only. *)
Theorem track_twice (net : nn_Module) (leaf_types : list string)
    (fwd : nn_Module → PyObj → exn + PyObj) (x : PyObj) (reg : Registry) :
  registry_wf reg →
  let first := track (T:=T) (SD:=SD) net leaf_types (run_net fwd net x) reg in
  let second := track (T:=T) (SD:=SD) net leaf_types (run_net fwd net x) (registry first.1) in
  second.2 = first.2 ∧ session second.1 = session first.1.
Proof.
  intros Hwf. cbn zeta.
  destruct (track_tables_restored (T:=T) (SD:=SD) net leaf_types (run_net fwd net x) reg Hwf
              (run_net_registry fwd net x)) as [Hp Hq].
  set (reg' := registry (track net leaf_types (run_net fwd net x) reg).1) in *.
  pose proof (instrumented_views net leaf_types reg' reg Hp Hq) as Hv.
  destruct (track_run_net_out net leaf_types fwd x reg') as [-> ->].
  destruct (track_run_net_out net leaf_types fwd x reg) as [-> ->].
  by rewrite (call_views fwd _ _ Hv net [] x (MkSession ∅ [] [] [] [])).
Qed.

End TwoSessions.

Lemma track_twice_witness :
  (@track nat (gmap string nat) _ PyObj doctest_net []
     (@run_net nat (gmap string nat) faulty_Tracker doctest_fwd doctest_net (PTensor [7; 3]))
     (registry faulty_session.1)).2 = faulty_session.2.
Proof.
  apply (@track_twice nat (gmap string nat) faulty_Tracker _ doctest_net [] doctest_fwd
           (PTensor [7; 3]) empty_registry).
  split; constructor.
Defined.


(** ** A session with a pure tracker class is a traversal *)

Section TraverseFacts.
Context {T SD : Type}.
Variable init : nat → nat → bool → T.
Variable pre : T → nn_Module → PyObj → T.
Variable post : T → nn_Module → PyObj → PyObj → T.
Variable fwd : nn_Module → PyObj → exn + PyObj.
Variable reg : Registry.
Hypothesis Hfwd : forward_total fwd.
Hypothesis Hpaired : paired reg.

Lemma traverse_unfold (hk : list nat → list bool) (c : string) (ps : list nn_Parameter)
    (ch : list nn_Module) (count depth : nat) (x : PyObj) :
  traverse init pre post fwd hk (Mod c ps ch) count depth x
  = match head (hk []) with
    | Some leaf =>
        let below :=
          match ch with
          | [] => ([], result_or (fwd (Mod c ps ch) x) x)
          | _ => traverse_children init pre post fwd hk (S depth) ch 0 (S count) x
          end in
        (MkObj count depth leaf
           (post (pre (init count depth leaf) (Mod c ps ch) (PTuple [x])) (Mod c ps ch)
              (PTuple [x]) below.2) :: below.1, below.2)
    | None =>
        match ch with
        | [] => ([], result_or (fwd (Mod c ps ch) x) x)
        | _ => traverse_children init pre post fwd hk depth ch 0 count x
        end
    end.
Proof using Type. destruct ch; cbn; by destruct (head (hk [])). Qed.

Lemma bind_inr {S A B : Type} (m : M S A) (k : A → M S B) (s s' : S) (a : A) :
  m s = (s', inr a) → bind m k s = k a s'.
Proof using Type. intros Hm. unfold bind. by rewrite Hm. Qed.

Lemma call_node_runs (c : string) (ps : list nn_Parameter) (ch : list nn_Module)
    (node : list nat) (x : PyObj) (body : M (Session T SD) PyObj) (s : Session T SD)
    (below1 below0 : list (TrackerObj T) * PyObj) :
  (∀ s1, length (all_trackers s1) = S (length (all_trackers s)) →
         length (tracker_stack s1) = S (length (tracker_stack s)) →
         runs_as body s1 below1) →
  runs_as body s below0 →
  runs_as
    (_ <- for_each (λ e, pre_hook (Tracker0:=pure_Tracker init pre post)
                           (pre_leaf e) node (Mod c ps ch) (PTuple [x]))
                   (pre_hooks_at reg node) ;;
     output <- body ;;
     _ <- for_each (λ _, hook (Tracker0:=pure_Tracker init pre post)
                           node (Mod c ps ch) (PTuple [x]) output)
                   (post_hooks_at reg node) ;;
     ret output) s
    (match head (map pre_leaf (pre_hooks_at reg node)) with
     | Some leaf =>
         (MkObj (length (all_trackers s)) (length (tracker_stack s)) leaf
            (post (pre (init (length (all_trackers s)) (length (tracker_stack s)) leaf)
                     (Mod c ps ch) (PTuple [x])) (Mod c ps ch) (PTuple [x]) below1.2)
          :: below1.1, below1.2)
     | None => below0
     end).
Proof using Hpaired.
  intros Hb1 Hb0. destruct (Hpaired node) as [Hlen Hle].
  destruct (pre_hooks_at reg node) as [|e [|e' l]] eqn:Hpre; cbn in Hle; [| |lia].
  - destruct (post_hooks_at reg node) as [|? ?] eqn:Hpost; [|done]. cbn [for_each map head].
    destruct Hb0 as (s' & Hrun & Hst & Hall & Hstack & Hsd).
    exists s'. unfold bind, ret. rewrite Hrun. done.
  - destruct (post_hooks_at reg node) as [|e' [|? ?]] eqn:Hpost; [done| |done].
    cbn [for_each map head].
    pose (s1 := MkSession (shared_dict s)
                  (store s ++ [MkObj (length (all_trackers s)) (length (tracker_stack s))
                                 (pre_leaf e)
                                 (pre (init (length (all_trackers s))
                                         (length (tracker_stack s)) (pre_leaf e))
                                    (Mod c ps ch) (PTuple [x]))])
                  (all_trackers s ++ [length (store s)])
                  (tracker_stack s ++ [length (store s)])
                  (events s ++ [EvPre node (length (store s))])).
    destruct (Hb1 s1) as (s2 & Hrun & Hst & Hall & Hstack & Hsd).
    { unfold s1. cbn. rewrite length_app. cbn. lia. }
    { unfold s1. cbn. rewrite length_app. cbn. lia. }
    unfold runs_as.
    rewrite (bind_inr _ _ s s1 ()); [|reflexivity].
    rewrite (bind_inr _ _ s1 s2 below1.2 Hrun).
    assert (Hpop : pop (tracker_stack s2) = Some (tracker_stack s, length (store s))).
    { rewrite Hstack. unfold s1. cbn [tracker_stack]. apply pop_snoc. }
    assert (Hlook : store s2 !! length (store s)
                    = Some (MkObj (length (all_trackers s)) (length (tracker_stack s))
                              (pre_leaf e)
                              (pre (init (length (all_trackers s))
                                      (length (tracker_stack s)) (pre_leaf e))
                                 (Mod c ps ch) (PTuple [x])))).
    { rewrite Hst. unfold s1. cbn [store]. rewrite <- app_assoc.
      rewrite lookup_app_r by lia. by rewrite Nat.sub_diag. }
    unfold bind, ret, hook. rewrite Hpop, Hlook.
    cbn [tracker_post pure_Tracker t_self t_count t_depth t_leaf].
    eexists. split; [reflexivity|]. cbn [store all_trackers tracker_stack shared_dict fst snd].
    split; [|split; [|split]].
    + rewrite Hst. unfold s1. cbn [store]. rewrite <- app_assoc.
      rewrite insert_app_r_alt by lia. by rewrite Nat.sub_diag.
    + rewrite Hall. unfold s1. cbn [all_trackers store]. rewrite <- app_assoc.
      rewrite length_app. cbn. by rewrite Nat.add_1_r.
    + done.
    + rewrite Hsd. done.
Qed.

Lemma forward_children_runs (node : list nat) (ms : list nn_Module) :
  Forall (λ c, ∀ hk node x (s : Session T SD),
            (∀ q, hk q = map pre_leaf (pre_hooks_at reg (node ++ q))) →
            runs_as (call (Tracker0:=pure_Tracker init pre post) reg fwd c node x) s
              (traverse init pre post fwd hk c
                 (length (all_trackers s)) (length (tracker_stack s)) x)) ms →
  ∀ i x (s : Session T SD) hk,
    (∀ q, hk q = map pre_leaf (pre_hooks_at reg (node ++ q))) →
    runs_as (forward_children (Tracker0:=pure_Tracker init pre post) reg fwd node ms i x) s
      (traverse_children init pre post fwd hk (length (tracker_stack s)) ms i
         (length (all_trackers s)) x).
Proof using Type.
  induction 1 as [|c ms Hc _ IH]; intros i x s hk Hhk.
  - exists s. cbn. rewrite !app_nil_r. done.
  - cbn [forward_children traverse_children].
    fold (forward_children (T:=T) (SD:=SD) (Tracker0:=pure_Tracker init pre post) reg fwd node).
    fold (traverse_children init pre post fwd hk (length (tracker_stack s))).
    destruct (Hc (λ q, hk (i :: q)) (node ++ [i]) x s) as (s1 & Hrun1 & Hst1 & Hall1 & Hstack1 & Hsd1).
    { intros q. rewrite Hhk. by rewrite <- app_assoc. }
    set (r1 := traverse init pre post fwd (λ q, hk (i :: q)) c
                 (length (all_trackers s)) (length (tracker_stack s)) x) in *.
    pose proof (IH (S i) r1.2 s1 hk Hhk) as IH1.
    rewrite Hstack1, Hall1, length_app, length_seq in IH1.
    destruct IH1 as (s2 & Hrun2 & Hst2 & Hall2 & Hstack2 & Hsd2).
    exists s2. unfold bind. rewrite Hrun1. cbn [fst snd]. split; [exact Hrun2|].
    split; [|split; [|split]].
    + rewrite Hst2, Hst1, app_assoc. done.
    + rewrite Hall2, Hall1, Hst1, !length_app, seq_app, app_assoc. done.
    + congruence.
    + congruence.
Qed.

Lemma call_runs (m : nn_Module) :
  ∀ hk node x (s : Session T SD),
    (∀ q, hk q = map pre_leaf (pre_hooks_at reg (node ++ q))) →
    runs_as (call (Tracker0:=pure_Tracker init pre post) reg fwd m node x) s
      (traverse init pre post fwd hk m (length (all_trackers s)) (length (tracker_stack s)) x).
Proof using Hfwd Hpaired.
  induction m as [c ps ch IH] using nn_Module_ind'. intros hk node x s Hhk.
  rewrite call_unfold, traverse_unfold. rewrite (Hhk []), app_nil_r.
  apply call_node_runs.
  - intros s1 Hc1 Hd1. destruct ch as [|c' ch'].
    + destruct (Hfwd (Mod c ps []) x) as [y Hy]. exists s1. rewrite Hy. cbn.
      rewrite !app_nil_r. done.
    + rewrite <- Hc1, <- Hd1. by apply forward_children_runs.
  - destruct ch as [|c' ch'].
    + destruct (Hfwd (Mod c ps []) x) as [y Hy]. exists s. rewrite Hy. cbn.
      rewrite !app_nil_r. done.
    + by apply forward_children_runs.
Qed.

End TraverseFacts.


(** *** Which modules a traversal of the instrumented tree meets *)

Lemma hk_tree_root (leaf_types : list string) (m : nn_Module) :
  hk_tree leaf_types m [] = [no_children m].
Proof.
  unfold hk_tree, hooking, leaf_flag. cbn. by rewrite orb_false_r.
Qed.

Lemma hk_tree_child (leaf_types : list string) (m c : nn_Module) (k : nat) (q : list nat) :
  children m !! k = Some c →
  hk_tree leaf_types m (k :: q)
  = if is_leaf_kind leaf_types c then hk_leaf q else hk_tree leaf_types c q.
Proof.
  intros Hk. unfold hk_tree, hooking. cbn [subtree below_leaf_kind]. rewrite Hk.
  destruct q as [|j q'].
  - cbn [subtree map snd]. unfold leaf_flag.
    rewrite (bool_decide_eq_false_2 ([k] = [])) by done.
    rewrite (bool_decide_eq_true_2 ([] = [])) by done. cbn [negb andb].
    destruct (is_leaf_kind leaf_types c); cbn; by rewrite ?orb_true_r, ?orb_false_r.
  - destruct (is_leaf_kind leaf_types c) eqn:Hkind; cbn [orb].
    + by destruct (subtree c (j :: q')).
    + destruct (subtree c (j :: q')) as [m'|]; [|done].
      destruct (below_leaf_kind leaf_types c (j :: q')); [done|].
      cbn [map snd]. unfold leaf_flag.
      rewrite (bool_decide_eq_false_2 (k :: j :: q' = [])) by done.
      by rewrite (bool_decide_eq_false_2 (j :: q' = [])) by done.
Qed.

Section TraverseCalls.
Context {T : Type}.
Variable init : nat → nat → bool → T.
Variable pre : T → nn_Module → PyObj → T.
Variable post : T → nn_Module → PyObj → PyObj → T.
Variable fwd : nn_Module → PyObj → exn + PyObj.
Variable leaf_types : list string.

Lemma traverse_children_none (hk : list nat → list bool) (depth1 : nat)
    (ms : list nn_Module) :
  Forall (λ c, ∀ hk count depth x,
            (∀ q, hk q = []) → (traverse init pre post fwd hk c count depth x).1 = []) ms →
  (∀ i q, hk (i :: q) = []) →
  ∀ i cnt x, (traverse_children init pre post fwd hk depth1 ms i cnt x).1 = [].
Proof using Type.
  induction 1 as [|c ms Hc _ IH]; intros Hhk i cnt x; [done|].
  cbn [traverse_children fst]. fold (traverse_children init pre post fwd hk depth1).
  rewrite Hc by (intros q; apply Hhk). by rewrite IH.
Qed.

Lemma traverse_none (m : nn_Module) :
  ∀ hk count depth x,
    (∀ q, hk q = []) → (traverse init pre post fwd hk m count depth x).1 = [].
Proof using Type.
  induction m as [c ps ch IH] using nn_Module_ind'. intros hk count depth x Hhk.
  rewrite traverse_unfold, Hhk. cbn [head]. destruct ch as [|c' ch']; [done|].
  apply traverse_children_none; [exact IH|]. intros i q. apply Hhk.
Qed.

Lemma traverse_leaf_call (m : nn_Module) (hk : list nat → list bool) (count depth : nat)
    (x : PyObj) :
  (∀ q, hk q = hk_leaf q) →
  Forall2 (tracker_of init pre post) (traverse init pre post fwd hk m count depth x).1
    [(m, true)].
Proof using Type.
  intros Hhk. destruct m as [c ps ch]. rewrite traverse_unfold, Hhk. cbn [hk_leaf head fst].
  assert (Hbelow : ∀ (below : list (TrackerObj T) * PyObj), below.1 = [] →
            Forall2 (tracker_of init pre post)
              (MkObj count depth true
                 (post (pre (init count depth true) (Mod c ps ch) (PTuple [x])) (Mod c ps ch)
                    (PTuple [x]) below.2) :: below.1) [(Mod c ps ch, true)]).
  { intros below ->. constructor; [|constructor]. split; [done|]. cbn. eauto. }
  apply Hbelow. destruct ch as [|c' ch']; [done|].
  apply traverse_children_none.
  - apply Forall_forall. intros m _. apply traverse_none.
  - intros i q. by rewrite Hhk.
Qed.

Lemma traverse_children_calls (hk : list nat → list bool) (depth1 : nat)
    (ms : list nn_Module) :
  Forall (λ c, ∀ hk count depth x,
            (∀ q, hk q = hk_tree leaf_types c q) →
            Forall2 (tracker_of init pre post)
              (traverse init pre post fwd hk c count depth x).1
              (hooked_calls leaf_types c)) ms →
  ∀ i cnt x,
    (∀ k c q, ms !! k = Some c →
       hk ((i + k) :: q)
       = if is_leaf_kind leaf_types c then hk_leaf q else hk_tree leaf_types c q) →
    Forall2 (tracker_of init pre post)
      (traverse_children init pre post fwd hk depth1 ms i cnt x).1
      (concat (map (λ c, if is_leaf_kind leaf_types c then [(c, true)]
                         else hooked_calls leaf_types c) ms)).
Proof using Type.
  induction 1 as [|c ms Hc _ IH]; intros i cnt x Hhk; [constructor|].
  cbn [traverse_children fst map concat].
  fold (traverse_children init pre post fwd hk depth1).
  apply Forall2_app.
  - pose proof (Hhk 0 c) as H0. rewrite Nat.add_0_r in H0. specialize (λ q, H0 q eq_refl).
    destruct (is_leaf_kind leaf_types c).
    + by apply traverse_leaf_call.
    + by apply Hc.
  - apply IH. intros k c' q Hk. rewrite <- (Hhk (S k) c' q Hk). f_equal. f_equal. lia.
Qed.

Lemma traverse_calls (m : nn_Module) :
  ∀ hk count depth x,
    (∀ q, hk q = hk_tree leaf_types m q) →
    Forall2 (tracker_of init pre post) (traverse init pre post fwd hk m count depth x).1
      (hooked_calls leaf_types m).
Proof using Type.
  induction m as [c ps ch IH] using nn_Module_ind'. intros hk count depth x Hhk.
  rewrite traverse_unfold, Hhk, hk_tree_root. cbn [head fst hooked_calls].
  fold (hooked_calls leaf_types).
  constructor.
  - split; [done|]. cbn. eauto.
  - destruct ch as [|c' ch']; [constructor|].
    apply traverse_children_calls; [exact IH|].
    intros k c1 q Hk. rewrite Hhk. by apply hk_tree_child.
Qed.

End TraverseCalls.


(** *** A session with a pure tracker class, as a whole *)

Lemma omap_lookup_seq {A : Type} (front l : list A) :
  omap (λ r, (front ++ l) !! r) (seq (length front) (length l)) = l.
Proof.
  revert front. induction l as [|a l IH]; intros front; [done|].
  change (omap (λ r, (front ++ a :: l) !! r) (seq (length front) (length (a :: l))))
    with (match (front ++ a :: l) !! length front with
          | Some y => y :: omap (λ r, (front ++ a :: l) !! r) (seq (S (length front)) (length l))
          | None => omap (λ r, (front ++ a :: l) !! r) (seq (S (length front)) (length l))
          end).
  rewrite list_lookup_middle by done. f_equal.
  specialize (IH (front ++ [a])). rewrite length_app, Nat.add_1_r, <- app_assoc in IH.
  exact IH.
Qed.

Lemma pre_hooks_at_instrumented (net : nn_Module) (leaf_types : list string) (q : list nat) :
  hk_tree leaf_types net q
  = map pre_leaf (pre_hooks_at (instrumented net leaf_types empty_registry) q).
Proof.
  destruct (instrumented_hooks_at net leaf_types empty_registry q) as [Hpre _].
  apply (f_equal (map snd)) in Hpre. rewrite map_map in Hpre. cbn in Hpre.
  unfold hk_tree. rewrite <- Hpre. done.
Qed.

Section TrackPure.
Context {T SD : Type} `{!Empty SD}.
Variable init : nat → nat → bool → T.
Variable pre : T → nn_Module → PyObj → T.
Variable post : T → nn_Module → PyObj → PyObj → T.

Lemma track_pure (net : nn_Module) (leaf_types : list string)
    (fwd : nn_Module → PyObj → exn + PyObj) (x : PyObj) :
  forward_total fwd →
  ∃ w, track (T:=T) (SD:=SD) net leaf_types
         (run_net (Tracker0:=pure_Tracker init pre post) fwd net x) empty_registry
       = (w, inr (traverse init pre post fwd (hk_tree leaf_types net) net 0 0 x).2)
       ∧ trackers (session w)
         = (traverse init pre post fwd (hk_tree leaf_types net) net 0 0 x).1.
Proof using Type.
  intros Hfwd.
  destruct (track_run_net_out (T:=T) (SD:=SD) (Tracker0:=pure_Tracker init pre post)
              net leaf_types fwd x empty_registry) as [Hout Hses].
  destruct (call_runs init pre post fwd (instrumented net leaf_types empty_registry)
              Hfwd (instrumented_paired net leaf_types) net (hk_tree leaf_types net) [] x
              (MkSession (∅ : SD) [] [] [] []))
    as (s' & Hrun & Hst & Hall & _ & _).
  { intros q. apply pre_hooks_at_instrumented. }
  cbn [all_trackers tracker_stack store length app] in Hrun, Hst, Hall.
  rewrite Hrun in Hout, Hses. cbn [fst snd] in Hout, Hses.
  eexists. split.
  - rewrite <- Hout. apply surjective_pairing.
  - unfold trackers. rewrite Hses, Hst, Hall. apply (omap_lookup_seq []).
Qed.

End TrackPure.

(** *** The output of a tracked network *)

Lemma plain_forward_unfold (fwd : nn_Module → PyObj → exn + PyObj) (c : string)
    (ps : list nn_Parameter) (ch : list nn_Module) (x : PyObj) :
  plain_forward fwd (Mod c ps ch) x
  = match ch with
    | [] => fwd (Mod c ps ch) x
    | _ => plain_forward_seq fwd ch x
    end.
Proof. by destruct ch. Qed.

Section OutputFacts.
Context {T SD : Type} `{!Tracker T SD}.
Variable reg : Registry.
Variable fwd : nn_Module → PyObj → exn + PyObj.
Hypothesis Htotal : tracker_total (T:=T) (SD:=SD).
Hypothesis Hpaired : paired reg.

Lemma forward_children_outcome (node : list nat) (ms : list nn_Module) :
  Forall (λ c, ∀ node x s,
            session_inv reg s → length (tracker_stack s) = hooked_ancestors reg node →
            outcome_as reg (call reg fwd c node x) s (plain_forward fwd c x)) ms →
  ∀ i x s,
    session_inv reg s →
    (∀ j, length (tracker_stack s) = hooked_ancestors reg (node ++ [j])) →
    outcome_as reg (forward_children reg fwd node ms i x) s (plain_forward_seq fwd ms x).
Proof using Type.
  induction 1 as [|c ms Hc _ IH]; intros i x s Hinv Hdepth.
  - split; [done|]. intros y _. done.
  - cbn [forward_children plain_forward_seq].
    fold (forward_children (T:=T) (SD:=SD) reg fwd node). fold (plain_forward_seq fwd).
    destruct (Hc (node ++ [i]) x s Hinv (Hdepth i)) as [Hout Hok].
    unfold outcome_as, bind.
    destruct (call reg fwd c (node ++ [i]) x s) as [s1 r1]. cbn [fst snd] in Hout, Hok.
    rewrite <- Hout in Hok |- *. destruct r1 as [e|y].
    + split; [done|]. by intros z.
    + destruct (Hok y eq_refl) as (Hinv1 & Hst1 & Hrep1).
      destruct (IH (S i) y s1 Hinv1) as [Hout2 Hok2].
      { intros j. rewrite Hst1. apply Hdepth. }
      split; [exact Hout2|]. intros z Hz.
      destruct (Hok2 z Hz) as (Hinv2 & Hst2 & Hrep2).
      split; [done|]. split; congruence.
Qed.

Lemma call_node_outcome (c : string) (ps : list nn_Parameter) (ch : list nn_Module)
    (node : list nat) (x : PyObj) (body : M (Session T SD) PyObj) (plain : exn + PyObj)
    (s : Session T SD) :
  session_inv reg s → length (tracker_stack s) = hooked_ancestors reg node →
  (∀ s1, session_inv reg s1 →
         (∀ j, length (tracker_stack s1) = hooked_ancestors reg (node ++ [j])) →
         outcome_as reg body s1 plain) →
  outcome_as reg
    (_ <- for_each (λ e, pre_hook (pre_leaf e) node (Mod c ps ch) (PTuple [x]))
                   (pre_hooks_at reg node) ;;
     output <- body ;;
     _ <- for_each (λ _, hook node (Mod c ps ch) (PTuple [x]) output)
                   (post_hooks_at reg node) ;;
     ret output) s plain.
Proof using Htotal Hpaired.
  intros Hinv Hdepth Hbody.
  destruct (Hpaired node) as [Hlen Hle].
  pose proof Hinv as (_ & (open & Hrep & Hmap) & _).
  destruct (pre_hooks_at reg node) as [|e [|e' l]] eqn:Hpre; cbn in Hle; [| |lia].
  - destruct (post_hooks_at reg node) as [|? ?] eqn:Hpost; [|done]. cbn [for_each].
    destruct (Hbody s Hinv) as [Hout Hok].
    { intros j. rewrite hooked_ancestors_snoc. unfold hooked. rewrite Hpre. cbn. lia. }
    unfold outcome_as, bind, ret.
    destruct (body s) as [s2 r]. cbn [fst snd] in Hout, Hok. rewrite <- Hout in Hok |- *.
    destruct r as [err|y]; [split; [done|by intros z]|].
    split; [done|]. intros z Hz. exact (Hok z Hz).
  - destruct (post_hooks_at reg node) as [|e' [|? ?]] eqn:Hpost; [done| |done].
    cbn [for_each]. unfold outcome_as, bind, ret.
    destruct (pre_hook_inv reg Htotal (pre_leaf e) node (Mod c ps ch) (PTuple [x]) s Hinv Hdepth)
      as (s1 & -> & Hinv1 & Hst1 & Hrep1).
    specialize (Hrep1 open Hrep).
    destruct (Hbody s1 Hinv1) as [Hout Hok].
    { intros j. rewrite hooked_ancestors_snoc, Hst1, length_app. unfold hooked.
      rewrite Hpre. cbn. lia. }
    destruct (body s1) as [s2 r]. cbn [fst snd] in Hout, Hok. rewrite <- Hout in Hok |- *.
    destruct r as [err|y]; [split; [done|by intros z]|].
    destruct (Hok y eq_refl) as (Hinv2 & Hst2 & Hrep2).
    destruct (hook_inv reg Htotal node (Mod c ps ch) (PTuple [x]) y s2
                (tracker_stack s) (length (store s)) open Hinv2)
      as (s3 & -> & Hinv3 & Hst3 & Hrep3); [congruence|congruence|].
    cbn [fst snd]. split; [done|]. intros z _. split; [done|]. split; congruence.
Qed.

Lemma call_outcome (m : nn_Module) (node : list nat) (x : PyObj) (s : Session T SD) :
  session_inv reg s → length (tracker_stack s) = hooked_ancestors reg node →
  outcome_as reg (call reg fwd m node x) s (plain_forward fwd m x).
Proof using Htotal Hpaired.
  revert node x s. induction m as [c ps ch IH] using nn_Module_ind'.
  intros node x s Hinv Hdepth. rewrite call_unfold, plain_forward_unfold.
  apply call_node_outcome; [done|done|].
  intros s1 Hinv1 Hd1. destruct ch as [|c' ch'].
  - split; [done|]. by intros y _.
  - by apply forward_children_outcome.
Qed.

End OutputFacts.

Lemma paired_empty_registry : paired empty_registry.
Proof. intros node. cbn. split; [done|lia]. Qed.

Section TrackOutput.
Context {T SD : Type} `{!Tracker T SD} `{!Empty SD}.

(** X13: tracking does not change what the network returns.  With a tracker
    class whose constructor and methods do not raise, the outcome of [net(x)]
    inside the [with] block, the output or the exception of a [forward], is
    the outcome of [net(x)] on the network without any hook. *)
Theorem track_output_unchanged (net : nn_Module) (leaf_types : list string)
    (fwd : nn_Module → PyObj → exn + PyObj) (x : PyObj) :
  tracker_total (T:=T) (SD:=SD) →
  (track net leaf_types (run_net fwd net x) empty_registry).2
  = (call (T:=T) (SD:=SD) empty_registry fwd net [] x (MkSession ∅ [] [] [] [])).2.
Proof.
  intros Htotal.
  destruct (track_run_net_out (T:=T) (SD:=SD) net leaf_types fwd x empty_registry) as [-> _].
  destruct (call_outcome (instrumented net leaf_types empty_registry) fwd Htotal
              (instrumented_paired net leaf_types) net [] x (MkSession ∅ [] [] [] [])
              (session_inv_init _ _) eq_refl) as [-> _].
  destruct (call_outcome empty_registry fwd Htotal paired_empty_registry net [] x
              (MkSession ∅ [] [] [] []) (session_inv_init _ _) eq_refl) as [-> _].
  done.
Qed.

End TrackOutput.

Lemma track_output_unchanged_witness :
  doctest_session.2
  = (call (T:=nat * nat * bool) (SD:=gmap string nat) empty_registry doctest_fwd doctest_net []
       (PTensor [7; 3]) (MkSession ∅ [] [] [] [])).2.
Proof.
  apply (track_output_unchanged (T:=nat * nat * bool) (SD:=gmap string nat)
           doctest_net [] doctest_fwd (PTensor [7; 3])).
  apply base_Tracker_total.
Defined.


(** *** What the trackers of a session say about the network *)

Lemma parameters_numel (recurse : bool) (m : nn_Module) :
  NoDup (parameter_ids m) →
  sum_list (map numel (parameters recurse m))
  = if recurse then total_numel m else own_numel m.
Proof.
  intros Hnd. unfold parameters. destruct recurse.
  - rewrite memo_filter_fresh; [apply sum_list_modules | exact Hnd | set_solver].
  - cbn [flat_map]. rewrite app_nil_r.
    rewrite memo_filter_fresh; [done | by apply parameter_ids_own | set_solver].
Qed.

Lemma parameter_ids_children (c : string) (ps : list nn_Parameter) (ch : list nn_Module) :
  NoDup (parameter_ids (Mod c ps ch)) → Forall (λ m, NoDup (parameter_ids m)) ch.
Proof.
  unfold parameter_ids. cbn [modules flat_map _parameters]. rewrite map_app.
  intros (_ & _ & Hch)%NoDup_app. clear ps.
  induction ch as [|m ch IH]; [constructor|].
  cbn [map concat] in Hch. rewrite flat_map_app, map_app in Hch.
  apply NoDup_app in Hch as (Hm & _ & Hrest). constructor; [exact Hm | by apply IH].
Qed.

Lemma hooked_calls_numel (leaf_types : list string) (m : nn_Module) :
  NoDup (parameter_ids m) →
  sum_list (map (λ call, sum_list (map numel (parameters call.2 call.1)))
              (hooked_calls leaf_types m))
  = total_numel m.
Proof.
  induction m as [c ps ch IH] using nn_Module_ind'. intros Hnd.
  cbn [hooked_calls map sum_list sum_list_with fst snd]. fold (hooked_calls leaf_types).
  rewrite (parameters_numel _ _ Hnd).
  pose proof (parameter_ids_children c ps ch Hnd) as Hch.
  assert (Hrest :
    sum_list (map (λ call, sum_list (map numel (parameters call.2 call.1)))
                (concat (map (λ c0, if is_leaf_kind leaf_types c0 then [(c0, true)]
                                    else hooked_calls leaf_types c0) ch)))
    = sum_list (map total_numel ch)).
  { clear Hnd. induction ch as [|m ch IHch]; [done|].
    apply Forall_cons in IH as [IHm IH]. apply Forall_cons in Hch as [Hm Hch].
    cbn [map concat]. rewrite map_app, sum_list_with_app, (IHch IH Hch).
    cbn [sum_list sum_list_with]. f_equal.
    destruct (is_leaf_kind leaf_types m).
    - cbn [map sum_list_with fst snd]. rewrite (parameters_numel true m Hm). unfold id. lia.
    - exact (IHm Hm). }
  change (sum_list_with id ?l) with (sum_list l). rewrite Hrest.
  unfold no_children. cbn [children total_numel]. destruct ch as [|c' ch'].
  - rewrite bool_decide_eq_true_2 by done. done.
  - rewrite bool_decide_eq_false_2 by done. done.
Qed.

Lemma Forall2_map_r {A B C : Type} (P : A → C → Prop) (f : B → C)
    (l : list A) (k : list B) :
  Forall2 P l (map f k) → Forall2 (λ a b, P a (f b)) l k.
Proof.
  revert l. induction k as [|b k IH]; intros l H; inversion H; subst; constructor; auto.
Qed.

Lemma hooked_calls_nil (m : nn_Module) :
  hooked_calls [] m = map (λ m', (m', no_children m')) (modules m).
Proof.
  induction m as [c ps ch IH] using nn_Module_ind'.
  cbn [hooked_calls modules map]. fold (hooked_calls []). f_equal.
  induction ch as [|m ch IHch]; [done|]. apply Forall_cons in IH as [IHm IH].
  cbn [map concat]. rewrite map_app, (IHch IH). f_equal.
  unfold is_leaf_kind. rewrite bool_decide_eq_false_2 by apply not_elem_of_nil. exact IHm.
Qed.

Lemma hooked_modules_nil (m : nn_Module) : hooked_modules [] m = modules m.
Proof.
  unfold hooked_modules. rewrite hooked_calls_nil, map_map. cbn. apply map_id.
Qed.

Lemma modules_NoDup (m : nn_Module) :
  NoDup (parameter_ids m) → Forall (λ m', NoDup (parameter_ids m')) (modules m).
Proof.
  induction m as [c ps ch IH] using nn_Module_ind'. intros Hnd.
  cbn [modules]. constructor; [exact Hnd|].
  pose proof (parameter_ids_children c ps ch Hnd) as Hch. clear Hnd.
  induction ch as [|m ch IHch]; [constructor|].
  apply Forall_cons in IH as [IHm IH]. apply Forall_cons in Hch as [Hm Hch].
  cbn [map concat]. apply Forall_app. split; [by apply IHm | by apply IHch].
Qed.

Section TrackerSessions.
Context {SD : Type} `{!Empty SD}.

(** X14: the parameter counts of a session add up to the size of the
    network, as in the doctest of [track].  After a [ParameterTracker] session
    over a network whose parameters are distinct objects and whose [forward]s
    do not raise, every tracker holds a count, and the counts sum to the
    number of elements of all parameters of the network, whatever
    [leaf_types] is. *)
Theorem ParameterTracker_session_total (net : nn_Module) (leaf_types : list string)
    (fwd : nn_Module → PyObj → exn + PyObj) (x : PyObj) :
  forward_total fwd → NoDup (parameter_ids net) →
  ∃ w y counts,
    track (T:=ParameterTracker.t) (SD:=SD) net leaf_types (run_net fwd net x) empty_registry
    = (w, inr y)
    ∧ map (λ o, ParameterTracker.num_params (t_self o)) (trackers (session w))
      = map Some counts
    ∧ sum_list counts = total_numel net.
Proof.
  intros Hfwd Hnd.
  destruct (track_pure (SD:=SD) ParameterTracker.__init__ ParameterTracker.pre
              ParameterTracker.post net leaf_types fwd x Hfwd) as (w & Hrun & Htr).
  pose proof (traverse_calls ParameterTracker.__init__ ParameterTracker.pre
                ParameterTracker.post fwd leaf_types net (hk_tree leaf_types net) 0 0 x
                (λ q, eq_refl)) as Hcalls.
  rewrite <- Htr in Hcalls.
  exists w, (traverse ParameterTracker.__init__ ParameterTracker.pre ParameterTracker.post
               fwd (hk_tree leaf_types net) net 0 0 x).2,
    (map (λ call, sum_list (map numel (parameters call.2 call.1)))
       (hooked_calls leaf_types net)).
  split; [exact Hrun|]. split; [|by apply hooked_calls_numel].
  rewrite map_map. clear Hrun Htr.
  induction Hcalls as [|o call os calls (Hleaf & input & output & Hself) _ IH]; [done|].
  cbn [map]. f_equal; [|exact IH]. rewrite Hself. cbn. by rewrite Hleaf.
Qed.

(** X15: the trackers come in the order of [net.modules()].  After a
    [ShapeTracker] session over a network whose [forward]s do not raise, the
    module names of the trackers are the class names of the hooked modules: the
    network, and below a module every child, with what is below it unless its
    class is in [leaf_types]. *)
Theorem ShapeTracker_session_modules (net : nn_Module) (leaf_types : list string)
    (fwd : nn_Module → PyObj → exn + PyObj) (x : PyObj) :
  forward_total fwd →
  ∃ w y,
    track (T:=ShapeTracker.t) (SD:=SD) net leaf_types (run_net fwd net x) empty_registry
    = (w, inr y)
    ∧ map (λ o, ShapeTracker.module_name (t_self o)) (trackers (session w))
      = map (λ m, Some (class_name m)) (hooked_modules leaf_types net).
Proof.
  intros Hfwd.
  destruct (track_pure (SD:=SD) ShapeTracker.__init__ ShapeTracker.pre
              ShapeTracker.post net leaf_types fwd x Hfwd) as (w & Hrun & Htr).
  pose proof (traverse_calls ShapeTracker.__init__ ShapeTracker.pre
                ShapeTracker.post fwd leaf_types net (hk_tree leaf_types net) 0 0 x
                (λ q, eq_refl)) as Hcalls.
  rewrite <- Htr in Hcalls.
  exists w, (traverse ShapeTracker.__init__ ShapeTracker.pre ShapeTracker.post
               fwd (hk_tree leaf_types net) net 0 0 x).2.
  split; [exact Hrun|]. unfold hooked_modules. rewrite map_map. clear Hrun Htr.
  induction Hcalls as [|o call os calls (Hleaf & input & output & Hself) _ IH]; [done|].
  cbn [map]. f_equal; [|exact IH]. by rewrite Hself.
Qed.

(** X16: without leaf types there is one tracker for every module.  After a
    [ParameterTracker] session with [leaf_types] empty over a network whose
    [forward]s do not raise and whose parameters are distinct objects, the
    trackers pair up with [net.modules()], in order: each holds the class name
    of its module and the number of elements of the module's own parameters. *)
Theorem ParameterTracker_session_per_module (net : nn_Module)
    (fwd : nn_Module → PyObj → exn + PyObj) (x : PyObj) :
  forward_total fwd → NoDup (parameter_ids net) →
  ∃ w y,
    track (T:=ParameterTracker.t) (SD:=SD) net [] (run_net fwd net x) empty_registry
    = (w, inr y)
    ∧ map (λ o, (ParameterTracker.module_name (t_self o),
                 ParameterTracker.num_params (t_self o))) (trackers (session w))
      = map (λ m, (Some (class_name m), Some (own_numel m))) (modules net).
Proof.
  intros Hfwd Hnd.
  destruct (track_pure (SD:=SD) ParameterTracker.__init__ ParameterTracker.pre
              ParameterTracker.post net [] fwd x Hfwd) as (w & Hrun & Htr).
  pose proof (traverse_calls ParameterTracker.__init__ ParameterTracker.pre
                ParameterTracker.post fwd [] net (hk_tree [] net) 0 0 x
                (λ q, eq_refl)) as Hcalls.
  rewrite <- Htr, hooked_calls_nil in Hcalls.
  exists w, (traverse ParameterTracker.__init__ ParameterTracker.pre ParameterTracker.post
               fwd (hk_tree [] net) net 0 0 x).2.
  split; [exact Hrun|]. clear Hrun Htr.
  apply Forall2_map_r in Hcalls. pose proof (modules_NoDup net Hnd) as Hall.
  induction Hcalls as [|o m os ms (Hleaf & input & output & Hself) _ IH]; [done|].
  apply Forall_cons in Hall as [Hm Hall].
  cbn [map]. f_equal; [|by apply IH]. rewrite Hself. cbn [fst snd] in Hleaf |- *.
  unfold ParameterTracker.post, ParameterTracker.pre, ParameterTracker.__init__.
  cbn [ParameterTracker.module_name ParameterTracker.num_params ParameterTracker.leaf].
  rewrite (parameters_numel _ _ Hm), Hleaf. do 2 f_equal.
  unfold no_children. destruct m as [c ps [|c' ch']]; [|done].
  unfold own_numel. cbn. lia.
Qed.

End TrackerSessions.


Lemma ParameterTracker_session_total_witness :
  ∃ w y counts,
    track (T:=ParameterTracker.t) (SD:=gmap string nat) doctest_net ["Sequential"]
      (run_net doctest_fwd doctest_net (PTensor [7; 3])) empty_registry
    = (w, inr y)
    ∧ map (λ o, ParameterTracker.num_params (t_self o)) (trackers (session w))
      = map Some counts
    ∧ sum_list counts = 6002.
Proof.
  apply (ParameterTracker_session_total (SD:=gmap string nat) doctest_net ["Sequential"]
           doctest_fwd (PTensor [7; 3])).
  - apply doctest_fwd_total.
  - apply (bool_decide_unpack _). vm_compute. exact I.
Defined.

Lemma ShapeTracker_session_modules_witness :
  ∃ w y,
    track (T:=ShapeTracker.t) (SD:=gmap string nat) doctest_net ["Sequential"]
      (run_net doctest_fwd doctest_net (PTensor [7; 3])) empty_registry
    = (w, inr y)
    ∧ map (λ o, ShapeTracker.module_name (t_self o)) (trackers (session w))
      = [Some "Sequential"; Some "Linear"; Some "ReLU"; Some "Sequential"].
Proof.
  apply (ShapeTracker_session_modules (SD:=gmap string nat) doctest_net ["Sequential"]
           doctest_fwd (PTensor [7; 3])).
  apply doctest_fwd_total.
Defined.

Lemma ParameterTracker_session_per_module_witness :
  ∃ w y,
    track (T:=ParameterTracker.t) (SD:=gmap string nat) doctest_net []
      (run_net doctest_fwd doctest_net (PTensor [7; 3])) empty_registry
    = (w, inr y)
    ∧ map (λ o, (ParameterTracker.module_name (t_self o),
                 ParameterTracker.num_params (t_self o))) (trackers (session w))
      = [(Some "Sequential", Some 0); (Some "Linear", Some 4000); (Some "ReLU", Some 0);
         (Some "Sequential", Some 0); (Some "Linear", Some 2002); (Some "ReLU", Some 0)].
Proof.
  apply (ParameterTracker_session_per_module (SD:=gmap string nat) doctest_net
           doctest_fwd (PTensor [7; 3])).
  - apply doctest_fwd_total.
  - apply (bool_decide_unpack _). vm_compute. exact I.
Defined.

Section ShapeSession.
Context {SD : Type} `{!Empty SD}.

(** X17: the first tracker of a session is the one of the network itself.
    After a [ShapeTracker] session over a network whose [forward]s do not
    raise, the first tracker has count 0 and depth 0 and holds the shape of the
    argument tuple [(x,)] and the shape of what [net(x)] has returned. *)
Theorem ShapeTracker_session_root (net : nn_Module) (leaf_types : list string)
    (fwd : nn_Module → PyObj → exn + PyObj) (x : PyObj) :
  forward_total fwd →
  ∃ w y o rest,
    track (T:=ShapeTracker.t) (SD:=SD) net leaf_types (run_net fwd net x) empty_registry
    = (w, inr y)
    ∧ trackers (session w) = o :: rest
    ∧ t_count o = 0 ∧ t_depth o = 0
    ∧ ShapeTracker.module_name (t_self o) = Some (class_name net)
    ∧ ShapeTracker.input_shape (t_self o) = Some (ShapeTracker.get_shape (PTuple [x]))
    ∧ ShapeTracker.output_shape (t_self o) = Some (ShapeTracker.get_shape y).
Proof.
  intros Hfwd.
  destruct (track_pure (SD:=SD) ShapeTracker.__init__ ShapeTracker.pre
              ShapeTracker.post net leaf_types fwd x Hfwd) as (w & Hrun & Htr).
  destruct net as [c ps ch]. rewrite traverse_unfold, hk_tree_root in Hrun, Htr.
  cbn [head fst snd] in Hrun, Htr.
  eexists w, _, _, _. split; [exact Hrun|]. split; [exact Htr|]. done.
Qed.

End ShapeSession.

Lemma ShapeTracker_session_root_witness :
  ∃ w y o rest,
    track (T:=ShapeTracker.t) (SD:=gmap string nat) doctest_net []
      (run_net doctest_fwd doctest_net (PTensor [7; 3])) empty_registry
    = (w, inr y)
    ∧ trackers (session w) = o :: rest
    ∧ t_count o = 0 ∧ t_depth o = 0
    ∧ ShapeTracker.module_name (t_self o) = Some "Sequential"
    ∧ ShapeTracker.input_shape (t_self o)
      = Some (ShapeTracker.get_shape (PTuple [PTensor [7; 3]]))
    ∧ ShapeTracker.output_shape (t_self o) = Some (ShapeTracker.get_shape y).
Proof.
  apply (ShapeTracker_session_root (SD:=gmap string nat) doctest_net [] doctest_fwd
           (PTensor [7; 3])).
  apply doctest_fwd_total.
Defined.


Lemma tracker_list_getitem_bounds_witness :
  let self := TrackerList.Mk
                [(Shape_cls, inl (ShapeTracker.__init__ 0 0 true));
                 (Param_cls, inr (ParameterTracker.__init__ 0 0 true))] in
  TrackerList.__getitem__ self (-1) = inr (inr (ParameterTracker.__init__ 0 0 true))
  ∧ TrackerList.__getitem__ self 2 = inl IndexError.
Proof.
  cbn zeta.
  pose (self := @TrackerList.Mk (ShapeTracker.t + ParameterTracker.t) (gmap string nat)
                  [(Shape_cls, inl (ShapeTracker.__init__ 0 0 true));
                   (Param_cls, inr (ParameterTracker.__init__ 0 0 true))]).
  split.
  - destruct (tracker_list_getitem_bounds self (-1)) as [Hin _].
    destruct Hin as (cls & w & Hl & Hget); [cbn; lia|].
    vm_compute in Hl. injection Hl as _ <-. exact Hget.
  - destruct (tracker_list_getitem_bounds self 2) as [_ Hout].
    apply Hout. cbn. lia.
Defined.

Lemma track_restores_registry_witness :
  let reg := MkRegistry [MkPre 0 [0] false] [MkPost 1 [0]] 2 in
  _forward_pre_hooks
    (registry (@track nat (gmap string nat) _ PyObj doctest_net []
                 (@run_net nat (gmap string nat) faulty_Tracker doctest_fwd doctest_net
                    (PTensor [7; 3])) reg).1)
  = [MkPre 0 [0] false]
  ∧ _forward_hooks
      (registry (@track nat (gmap string nat) _ PyObj doctest_net []
                   (@run_net nat (gmap string nat) faulty_Tracker doctest_fwd doctest_net
                      (PTensor [7; 3])) reg).1)
    = [MkPost 1 [0]].
Proof.
  cbn zeta.
  apply (@track_restores_registry nat (gmap string nat) _ PyObj doctest_net []
           (@run_net nat (gmap string nat) faulty_Tracker doctest_fwd doctest_net
              (PTensor [7; 3]))
           (MkRegistry [MkPre 0 [0] false] [MkPost 1 [0]] 2)).
  - split; repeat constructor.
  - intros w. apply run_net_registry.
Defined.


(** ** IOPNumTracker: the dicts *)

Lemma counter_key_not_visited (key : string) : key ∈ counter_keys → key ≠ "visited".
Proof.
  unfold counter_keys. rewrite !elem_of_cons, elem_of_nil.
  intros [->|[->|[->|[->|[]]]]]; done.
Qed.

Lemma complete_visited (d : gmap string iop_val) :
  complete d → d !! "visited" = Some (ISet (visited_of d)).
Proof. intros [_ [s Hs]]. unfold visited_of. by rewrite Hs. Qed.

Lemma complete_num (d : gmap string iop_val) (key : string) :
  complete d → key ∈ counter_keys → d !! key = Some (INum (num d key)).
Proof. intros [Hn _] Hk. destruct (Hn key Hk) as [n Hd]. unfold num. by rewrite Hd. Qed.

Lemma complete_size (d : gmap string iop_val) : complete d → (size d =? 0) = false.
Proof.
  intros [_ [s Hs]]. apply Nat.eqb_neq. intros H0%map_size_empty_iff.
  rewrite H0, lookup_empty in Hs. done.
Qed.

Lemma fill_complete (d : gmap string iop_val) :
  complete (IOPNumTracker.fill d)
  ∧ visited_of (IOPNumTracker.fill d) = _IDBasedWeakSet.Mk ∅
  ∧ ∀ key, key ∈ counter_keys → num (IOPNumTracker.fill d) key = 0.
Proof.
  assert (Hnum : ∀ key, key ∈ counter_keys → IOPNumTracker.fill d !! key = Some (INum 0)).
  { intros key. unfold counter_keys. rewrite !elem_of_cons, elem_of_nil.
    unfold IOPNumTracker.fill.
    intros [->|[->|[->|[->|[]]]]];
      repeat (first [ rewrite lookup_insert_eq; reflexivity
                    | rewrite lookup_insert_ne by done ]). }
  split; [|split].
  - split; [intros key Hk; eauto|]. eexists. unfold IOPNumTracker.fill.
    by rewrite lookup_insert_eq.
  - unfold visited_of, IOPNumTracker.fill. by rewrite lookup_insert_eq.
  - intros key Hk. unfold num. by rewrite (Hnum key Hk).
Qed.

(** One block of [maybe_add] on a complete dict: it does not raise; a tensor
    that is in the weak set changes nothing, another one is added to the set
    and its size to the number under its key. *)
Lemma visit_complete (heap : gmap nat PyObject) (sz : nat) (d : gmap string iop_val)
    (tensor : Tensor) (lk fk : string) :
  complete d → lk ∈ counter_keys → fk ∈ counter_keys →
  weakrefable (tensor_object tensor) = true →
  ∃ d', IOPNumTracker.visit heap sz d tensor lk fk = (d', None)
        ∧ complete d'
        ∧ (∀ key, key ∈ counter_keys →
             num d' key
             = num d key
               + (if _IDBasedWeakSet.__contains__ heap (visited_of d) (tensor_object tensor)
                  then 0
                  else if bool_decide (key = if tensor_requires_grad tensor then lk else fk)
                       then sz else 0))
        ∧ visited_of d'
          = (if _IDBasedWeakSet.__contains__ heap (visited_of d) (tensor_object tensor)
             then visited_of d
             else _IDBasedWeakSet.Mk
                    (<[py_id (tensor_object tensor) := WeakRef (tensor_object tensor)]>
                       (_IDBasedWeakSet.data (visited_of d)))).
Proof.
  intros Hc Hlk Hfk Hweak. unfold IOPNumTracker.visit.
  rewrite (complete_visited d Hc).
  destruct (_IDBasedWeakSet.__contains__ heap (visited_of d) (tensor_object tensor)).
  { exists d. split; [done|]. split; [done|]. split; [|done]. intros key _. lia. }
  unfold _IDBasedWeakSet.add. rewrite Hweak.
  set (s' := _IDBasedWeakSet.Mk _).
  set (key := if tensor_requires_grad tensor then lk else fk).
  assert (Hkey : key ∈ counter_keys) by (unfold key; by destruct (tensor_requires_grad tensor)).
  pose proof (counter_key_not_visited key Hkey) as Hnv.
  rewrite lookup_insert_ne by done. rewrite (complete_num d key Hc Hkey).
  eexists. split; [reflexivity|]. split; [|split].
  - split.
    + intros k Hk. destruct (decide (k = key)) as [->|Hne].
      * rewrite lookup_insert_eq. eauto.
      * rewrite !lookup_insert_ne by (try done; by apply not_eq_sym, counter_key_not_visited).
        rewrite (complete_num d k Hc Hk). eauto.
    + exists s'. rewrite lookup_insert_ne by done. by rewrite lookup_insert_eq.
  - intros k Hk. unfold num at 1. destruct (decide (k = key)) as [->|Hne].
    + rewrite lookup_insert_eq, bool_decide_eq_true_2 by done. done.
    + rewrite !lookup_insert_ne by (try done; by apply not_eq_sym, counter_key_not_visited).
      rewrite (complete_num d k Hc Hk), bool_decide_eq_false_2 by done. lia.
  - unfold visited_of. rewrite lookup_insert_ne by done. by rewrite lookup_insert_eq.
Qed.

Lemma contains_insert (heap : gmap nat PyObject) (s : _IDBasedWeakSet.t) (o x : PyObject) :
  alive heap o = true →
  _IDBasedWeakSet.__contains__ heap
    (_IDBasedWeakSet.Mk (<[py_id o := WeakRef o]> (_IDBasedWeakSet.data s))) x = true
  ↔ (x = o ∨ _IDBasedWeakSet.__contains__ heap s x = true).
Proof.
  intros Ho. rewrite !contains_spec. cbn. split.
  - intros [Hd Hx]. destruct (decide (py_id o = py_id x)) as [Heq|Hne].
    + left. symmetry. by apply (alive_same_id heap).
    + right. by rewrite lookup_insert_ne in Hd.
  - intros [->|[Hd Hx]].
    + by rewrite lookup_insert_eq.
    + split; [|done]. destruct (decide (py_id o = py_id x)) as [Heq|Hne].
      * assert (o = x) as -> by (by apply (alive_same_id heap)). by rewrite lookup_insert_eq.
      * by rewrite lookup_insert_ne.
Qed.

Lemma referents_used_insert (next : nat) (s : _IDBasedWeakSet.t) (o : PyObject) :
  serial o < next → referents_used next s →
  referents_used next
    (_IDBasedWeakSet.Mk (<[py_id o := WeakRef o]> (_IDBasedWeakSet.data s))).
Proof.
  intros Ho Hs k r. cbn. destruct (decide (py_id o = k)) as [<-|Hne].
  - rewrite lookup_insert_eq. by intros [= <-].
  - rewrite lookup_insert_ne by done. apply Hs.
Qed.
